(** * file-explorer: device registry, routing and auth gate

    A shallow embedding of the hub server (the Hono application that
    serves [/api/*]) and the properties of its path sandbox, auth gate,
    device registry, router and SSH adapter.

    Strings are sequences of 8-bit code units; the case maps and the
    white-space class below are the JavaScript ones restricted to that
    range (two code units have their capitals outside it, see
    [JS.upper_char]). *)

From Stdlib Require Import String Ascii ZArith NArith List Bool Lia Permutation Sorted.
From Stdlib Require Import DecimalString DecimalN DecimalNat.
From stdpp Require Import base option list gmap strings sets.

Local Open Scope list_scope.
Local Open Scope string_scope.

Set Warnings "-register-all".

(** ** JavaScript string primitives *)

Module JS.

(** [WhiteSpace] and [LineTerminator] code units below 256. *)
Definition is_space (c : ascii) : bool :=
  let n := N_of_ascii c in
  ((9 <=? n) && (n <=? 13) || (n =? 32) || (n =? 160))%N.

Fixpoint trimStart (s : string) : string :=
  match s with
  | String c s' => if is_space c then trimStart s' else s
  | EmptyString => EmptyString
  end.

Fixpoint trimEnd (s : string) : string :=
  match s with
  | EmptyString => EmptyString
  | String c s' =>
      match trimEnd s' with
      | EmptyString => if is_space c then EmptyString else String c EmptyString
      | t => String c t
      end
  end.

Definition trim (s : string) : string := trimEnd (trimStart s).

(** [s.startsWith(p)] *)
Definition startsWith (s p : string) : bool := String.prefix p s.

Definition is_upper (c : ascii) : bool :=
  let n := N_of_ascii c in ((65 <=? n) && (n <=? 90))%N.
Definition is_lower (c : ascii) : bool :=
  let n := N_of_ascii c in ((97 <=? n) && (n <=? 122))%N.
Definition is_digit (c : ascii) : bool :=
  let n := N_of_ascii c in ((48 <=? n) && (n <=? 57))%N.

(** Upper-case letters of the Latin-1 supplement (all of U+00C0..U+00DE
    but the multiplication sign) lower to the code unit 32 above. *)
Definition is_upper_latin1 (c : ascii) : bool :=
  let n := N_of_ascii c in ((192 <=? n) && (n <=? 222) && negb (n =? 215))%N.

Definition lower_char (c : ascii) : ascii :=
  if is_upper c || is_upper_latin1 c then ascii_of_N (N_of_ascii c + 32) else c.

(** Lower-case letters of the Latin-1 supplement (all of U+00E0..U+00FE but
    the division sign) raise to the code unit 32 below. *)
Definition is_lower_latin1 (c : ascii) : bool :=
  let n := N_of_ascii c in ((224 <=? n) && (n <=? 254) && negb (n =? 247))%N.

Definition upper_ascii (c : ascii) : ascii :=
  if is_lower c then ascii_of_N (N_of_ascii c - 32) else c.

(** What a code unit becomes in upper case.  The sharp s (U+00DF) becomes
    [SS].  The capitals of the micro sign (U+00B5) and of y with diaeresis
    (U+00FF) are U+039C and U+0178, which are no 8-bit code units: these
    two are left as they are, and no comparison with an ASCII word can tell
    the difference. *)
Definition upper_char (c : ascii) : string :=
  if is_lower_latin1 c then String (ascii_of_N (N_of_ascii c - 32)) EmptyString
  else if (N_of_ascii c =? 223)%N then "SS"
  else String (upper_ascii c) EmptyString.

Fixpoint map_chars (f : ascii -> ascii) (s : string) : string :=
  match s with
  | EmptyString => EmptyString
  | String c s' => String (f c) (map_chars f s')
  end.

Definition toLowerCase : string -> string := map_chars lower_char.

Fixpoint toUpperCase (s : string) : string :=
  match s with
  | EmptyString => EmptyString
  | String c s' => upper_char c ++ toUpperCase s'
  end.

(** Code units below 128 only. *)
Fixpoint all_ascii (s : string) : bool :=
  match s with
  | EmptyString => true
  | String c s' => (N_of_ascii c <? 128)%N && all_ascii s'
  end.

(** [s.slice(n)] for [0 <= n] *)
Fixpoint slice_from (n : nat) (s : string) : string :=
  match n, s with
  | O, _ => s
  | S n', String _ s' => slice_from n' s'
  | S _, EmptyString => EmptyString
  end.

(** [s.includes(sub)] *)
Fixpoint includes (s sub : string) : bool :=
  String.prefix sub s ||
  match s with
  | String _ s' => includes s' sub
  | EmptyString => false
  end.

(** [s.split(sep)] for a one-character separator *)
Fixpoint split (sep : ascii) (s : string) : list string :=
  match s with
  | EmptyString => [EmptyString]
  | String c s' =>
      if Ascii.eqb c sep then EmptyString :: split sep s'
      else match split sep s' with
           | h :: t => String c h :: t
           | [] => [String c EmptyString]
           end
  end.

(** [parts.join(sep)] *)
Fixpoint join (sep : string) (parts : list string) : string :=
  match parts with
  | [] => EmptyString
  | [p] => p
  | p :: rest => p ++ sep ++ join sep rest
  end.

(** Truthiness of a string, and of a possibly [undefined] one. *)
Definition truthy (s : string) : bool := negb (String.eqb s "").

Definition truthy_opt (o : option string) : bool :=
  match o with Some s => truthy s | None => false end.

(** [a || b] on possibly [undefined] strings, the result read as a string
    ([undefined] never escapes: every use below ends in a literal). *)
Definition or_else (o : option string) (d : string) : string :=
  match o with
  | Some s => if truthy s then s else d
  | None => d
  end.

(** [String(n)] for a non-negative integer *)
Definition of_N (n : N) : string := NilZero.string_of_uint (N.to_uint n).

End JS.

(** ** The regular-expression replacements the server uses *)

Module Re.

Definition is_slug_char (c : ascii) : bool := JS.is_lower c || JS.is_digit c.

(** [s.replace(/[^a-z0-9]+/g, "-")]: the scan emits one hyphen where a run
    of characters outside [a-z0-9] starts and skips the rest of the run. *)
Fixpoint replace_runs (in_run : bool) (s : string) : string :=
  match s with
  | EmptyString => EmptyString
  | String c s' =>
      if is_slug_char c then String c (replace_runs false s')
      else if in_run then replace_runs true s'
      else String "-" (replace_runs true s')
  end.

Definition hyphenate_non_alnum (s : string) : string := replace_runs false s.

(** Removes a final hyphen: the [-$] alternative. *)
Fixpoint strip_final_hyphen (s : string) : string :=
  match s with
  | EmptyString => EmptyString
  | String c EmptyString => if Ascii.eqb c "-" then EmptyString else s
  | String c s' => String c (strip_final_hyphen s')
  end.

(** [s.replace(/(^-|-$)/g, "")]: one hyphen at the start, then one at the
    end of what follows. *)
Definition strip_edge_hyphens (s : string) : string :=
  match s with
  | String c s' => if Ascii.eqb c "-" then strip_final_hyphen s' else strip_final_hyphen s
  | EmptyString => EmptyString
  end.

(** [s.replace(/\/+$/, "")]: the whole run of slashes that ends the string. *)
Fixpoint strip_trailing_slashes (s : string) : string :=
  match s with
  | EmptyString => EmptyString
  | String c s' =>
      match strip_trailing_slashes s' with
      | EmptyString => if Ascii.eqb c "/" then EmptyString else String c EmptyString
      | t => String c t
      end
  end.

(** [s.replace(/\.local$/, "")] *)
Fixpoint strip_dot_local (s : string) : string :=
  match s with
  | EmptyString => EmptyString
  | String c s' => if String.eqb s ".local" then EmptyString else String c (strip_dot_local s')
  end.

End Re.

(** ** [path] (POSIX flavour, the one the runtime loads on the hub) *)

Module Path.

Definition is_slash (c : ascii) : bool := Ascii.eqb c "/".

Definition chars : string -> list ascii := list_ascii_of_string.
Definition str : list ascii -> string := string_of_list_ascii.

Fixpoint drop_while (p : ascii -> bool) (l : list ascii) : list ascii :=
  match l with
  | c :: l' => if p c then drop_while p l' else l
  | [] => []
  end.

Fixpoint take_while (p : ascii -> bool) (l : list ascii) : list ascii :=
  match l with
  | c :: l' => if p c then c :: take_while p l' else []
  | [] => []
  end.

(** One step of [normalizeString]; [acc] holds the segments kept so far,
    last one first. *)
Definition norm_step (allowAboveRoot : bool) (acc : list string) (seg : string)
  : list string :=
  if String.eqb seg "" || String.eqb seg "." then acc
  else if String.eqb seg ".." then
    match acc with
    | last :: rest =>
        if String.eqb last ".." then (if allowAboveRoot then ".." :: acc else acc)
        else rest
    | [] => if allowAboveRoot then [".."] else []
    end
  else seg :: acc.

Definition norm_segments (allowAboveRoot : bool) (segs : list string) : list string :=
  List.rev (List.fold_left (norm_step allowAboveRoot) segs []).

Definition normalizeString (p : string) (allowAboveRoot : bool) : string :=
  JS.join "/" (norm_segments allowAboveRoot (JS.split "/" p)).

Definition isAbsolute (p : string) : bool := JS.startsWith p "/".

Definition ends_with_slash (p : string) : bool :=
  match List.rev (chars p) with
  | c :: _ => is_slash c
  | [] => false
  end.

(** [path.normalize] *)
Definition normalize (p : string) : string :=
  if String.eqb p "" then "."
  else
    let n := normalizeString p (negb (isAbsolute p)) in
    if String.eqb n "" then
      if isAbsolute p then "/" else if ends_with_slash p then "./" else "."
    else
      let n' := if ends_with_slash p then n ++ "/" else n in
      if isAbsolute p then "/" ++ n' else n'.

(** [path.join] *)
Definition join (args : list string) : string :=
  let parts := List.filter JS.truthy args in
  match parts with
  | [] => "."
  | _ => normalize (JS.join "/" parts)
  end.

(** The right-to-left loop of [path.resolve]: arguments are taken from the
    last one until an absolute one is met. *)
Fixpoint resolve_loop (args_rev : list string) (resolvedPath : string) : string * bool :=
  match args_rev with
  | [] => (resolvedPath, false)
  | p :: rest =>
      if String.eqb p "" then resolve_loop rest resolvedPath
      else
        let r := p ++ "/" ++ resolvedPath in
        if isAbsolute p then (r, true) else resolve_loop rest r
  end.

(** [path.resolve(...args)] in a process whose working directory is [cwd]. *)
Definition resolve (cwd : string) (args : list string) : string :=
  let '(rp, abs) := resolve_loop (List.rev args ++ [cwd])%list "" in
  let n := normalizeString rp (negb abs) in
  if abs then "/" ++ n else if String.eqb n "" then "." else n.

(** The last component of a path and the slashes that follow it. *)
Definition last_component (p : string) : string :=
  str (List.rev (take_while (fun c => negb (is_slash c))
                   (drop_while is_slash (List.rev (chars p))))).

Definition trailing_slashes (p : string) : string :=
  str (take_while is_slash (List.rev (chars p))).

(** Splits at the last dot: [Some (before, after)] when
    [comp = before ++ "." ++ after] and [after] has no dot. *)
Definition split_last_dot (comp : string) : option (string * string) :=
  let r := List.rev (chars comp) in
  let after := take_while (fun c => negb (Ascii.eqb c ".")) r in
  match drop_while (fun c => negb (Ascii.eqb c ".")) r with
  | _ :: before => Some (str (List.rev before), str (List.rev after))
  | [] => None
  end.

(** [path.extname] *)
Definition extname (p : string) : string :=
  let comp := last_component p in
  match split_last_dot comp with
  | None => ""
  | Some (before, after) =>
      if String.eqb before "" then ""
      else if String.eqb comp ".." then ""
      else "." ++ after
  end.

(** The suffix match of [path.basename(p, suffix)]: the component is read
    from its end against the suffix. *)
Inductive suffix_match := Matched (rest : list ascii) | Mismatch | Exhausted.

Fixpoint match_suffix (comp_rev sfx_rev : list ascii) : suffix_match :=
  match sfx_rev, comp_rev with
  | [], _ => Matched comp_rev
  | _ :: _, [] => Exhausted
  | s :: sfx', c :: comp' =>
      if Ascii.eqb c s then match_suffix comp' sfx' else Mismatch
  end.

(** [path.basename(p)] and [path.basename(p, suffix)] *)
Definition basename (p : string) (suffix : option string) : string :=
  let comp := last_component p in
  match suffix with
  | Some sfx =>
      if negb (String.eqb sfx "") && (String.length sfx <=? String.length p)%nat then
        if String.eqb sfx p then ""
        else if String.eqb comp "" then p
        else match match_suffix (List.rev (chars comp)) (List.rev (chars sfx)) with
             | Matched [] => comp
             | Matched rest => str (List.rev rest)
             | Mismatch => comp
             | Exhausted => comp ++ trailing_slashes p
             end
      else comp
  | None => comp
  end.

(** [path.dirname]: the loop never looks at the first character. *)
Definition dirname (p : string) : string :=
  match chars p with
  | [] => "."
  | c0 :: tail =>
      let hasRoot := is_slash c0 in
      let after_comp :=
        drop_while (fun c => negb (is_slash c)) (drop_while is_slash (List.rev tail)) in
      match after_comp with
      | [] => if hasRoot then "/" else "."
      | _ :: before_rev =>
          match before_rev with
          | [] => if hasRoot then "//" else str [c0]
          | _ => str (c0 :: List.rev before_rev)
          end
      end
  end.

(** The segments of a resolved path, and the split at the longest common
    prefix of two such lists. *)
Definition abs_segments (p : string) : list string :=
  List.filter JS.truthy (JS.split "/" p).

Fixpoint strip_common (a b : list string) : list string * list string :=
  match a, b with
  | x :: a', y :: b' => if String.eqb x y then strip_common a' b' else (a, b)
  | _, _ => (a, b)
  end.

(** [path.relative(from, to)]: one [..] for each segment of [from] below
    the common directory, then the rest of [to]. *)
Definition relative (cwd from to : string) : string :=
  if String.eqb from to then ""
  else
    let f := resolve cwd [from] in
    let t := resolve cwd [to] in
    if String.eqb f t then ""
    else
      let '(up, down) := strip_common (abs_segments f) (abs_segments t) in
      JS.join "/" (List.map (fun _ => "..") up ++ down)%list.

End Path.

(** ** JSON values and responses *)

Inductive Json :=
| JNull
| JBool (b : bool)
| JNum (n : Z)
| JStr (s : string)
| JArr (items : list Json)
| JObj (fields : list (string * Json)).

(** [obj[key]], [None] for [undefined]. *)
Definition json_get (key : string) (j : Json) : option Json :=
  match j with
  | JObj fields => snd <$> List.find (fun kv => String.eqb (fst kv) key) fields
  | _ => None
  end.

Definition json_keys (j : Json) : list string :=
  match j with
  | JObj fields => List.map fst fields
  | _ => []
  end.

(** What a handler answers: [c.json(body, status)], or a byte stream. *)
Inductive Payload :=
| PJson (j : Json)
| PStream (content : string).

Record Response := {
  status : N;
  resp_headers : list (string * string);
  payload : Payload
}.

Definition json (j : Json) (code : N) : Response :=
  {| status := code; resp_headers := []; payload := PJson j |}.

Definition json_error (msg : string) (code : N) : Response :=
  json (JObj [("error", JStr msg)]) code.

Definition dquote : string := String (Ascii.ascii_of_nat 34) "".

(** ** Process environment and the constants read from it *)

Record Env := {
  FILE_EXPLORER_ROOT : option string;
  HOME : option string;
  FILE_EXPLORER_DATA : option string;
  FILE_EXPLORER_API_TOKEN : option string;
  FILE_EXPLORER_ADMIN_TOKEN : option string;
  FILE_EXPLORER_READ_TOKEN : option string;
  (** [process.cwd()], an absolute path *)
  cwd : string
}.

Definition ROOT_DIR (env : Env) : string :=
  JS.or_else (FILE_EXPLORER_ROOT env) (JS.or_else (HOME env) "/").

Definition LEGACY_API_TOKEN (env : Env) : string :=
  JS.trim (JS.or_else (FILE_EXPLORER_API_TOKEN env) "").

Definition ADMIN_API_TOKEN (env : Env) : string :=
  JS.trim (JS.or_else (FILE_EXPLORER_ADMIN_TOKEN env) (LEGACY_API_TOKEN env)).

Definition READ_API_TOKEN (env : Env) : string :=
  JS.trim (JS.or_else (FILE_EXPLORER_READ_TOKEN env) "").

Definition AUTH_ENABLED (env : Env) : bool :=
  JS.truthy (ADMIN_API_TOKEN env) || JS.truthy (READ_API_TOKEN env).

(** ** Requests *)

(** The parts of a Hono context the handlers read.  Header names are kept
    lower-case, as a [Headers] object keeps them; [query] lists the search
    parameters of the URL in order. *)
Record Request := {
  method : string;
  path : string;
  headers : gmap string string;
  query : list (string * string)
}.

(** [c.req.header(name)] *)
Definition header (c : Request) (name : string) : option string :=
  headers c !! name.

(** [url.searchParams.get(key)] *)
Definition searchParam (c : Request) (key : string) : option string :=
  snd <$> List.find (fun kv => String.eqb (fst kv) key) (query c).

(** ** Auth *)

Definition normalizeBearer (token : string) : string :=
  if JS.startsWith token "Bearer " then token else "Bearer " ++ token.

Definition getTokenFromRequest (c : Request) : option string :=
  let authHeader := JS.trim (JS.or_else (header c "authorization") "") in
  if JS.startsWith (JS.toLowerCase authHeader) "bearer " then
    let token := JS.trim (JS.slice_from 7 authHeader) in
    if JS.truthy token then Some token else None
  else
    let customHeader := JS.trim (JS.or_else (header c "x-file-explorer-token") "") in
    if JS.truthy customHeader then Some customHeader
    else
      let urlToken := JS.trim (JS.or_else (searchParam c "token") "") in
      if JS.truthy urlToken then Some urlToken else None.

Inductive Role := admin | read.

Definition is_admin (r : Role) : bool :=
  match r with admin => true | read => false end.

Definition getAuthRole (env : Env) (token : option string) : option Role :=
  if negb (AUTH_ENABLED env) then Some admin
  else if JS.truthy_opt token && JS.truthy (ADMIN_API_TOKEN env)
          && bool_decide (token = Some (ADMIN_API_TOKEN env)) then Some admin
  else if JS.truthy_opt token && JS.truthy (READ_API_TOKEN env)
          && bool_decide (token = Some (READ_API_TOKEN env)) then Some read
  else None.

Definition getForwardAuthHeader (env : Env) (c : Request) (explicitToken : option string)
  : option string :=
  let token := JS.trim (JS.or_else explicitToken "") in
  if JS.truthy token then Some (normalizeBearer token)
  else
    match getTokenFromRequest c with
    | Some incomingToken => Some (normalizeBearer incomingToken)
    | None =>
        if JS.truthy (ADMIN_API_TOKEN env) then Some (normalizeBearer (ADMIN_API_TOKEN env))
        else None
    end.

(** A middleware either answers or calls [next()]. *)
Inductive Gate :=
| Next
| Answer (r : Response).

Definition isWrite (m : string) : bool :=
  negb (String.eqb m "GET") && negb (String.eqb m "HEAD") && negb (String.eqb m "OPTIONS").

(** [app.use("/api/*", ...)] *)
Definition authMiddleware (env : Env) (c : Request) : Gate :=
  if String.eqb (path c) "/api/auth/status" then Next
  else if negb (AUTH_ENABLED env) then Next
  else
    match getAuthRole env (getTokenFromRequest c) with
    | None => Answer (json_error "Unauthorized" 401)
    | Some role =>
        if isWrite (JS.toUpperCase (method c)) && negb (is_admin role) then
          Answer (json_error "Admin token required for write operations" 403)
        else Next
    end.

(** [GET /api/auth/status] *)
Definition authStatus (env : Env) : Response :=
  json (JObj [("required", JBool (AUTH_ENABLED env));
              ("hasReadToken", JBool (JS.truthy (READ_API_TOKEN env)));
              ("writeRequiresAdmin", JBool (AUTH_ENABLED env))]) 200.

(** ** Device registry: data *)

Record DeviceConfig := {
  dc_id : string;
  dc_name : string;
  dc_url : string;
  dc_sshHost : option string;
  dc_sshRoot : option string;
  dc_authToken : option string;
  dc_icon : option string;
  dc_enabled : bool
}.

(** [Omit<DeviceConfig, "authToken"> & { hasAuthToken?: boolean }], with the
    [isLocal] mark of the synthetic local entry. *)
Record PublicDeviceConfig := {
  pd_id : string;
  pd_name : string;
  pd_url : string;
  pd_sshHost : option string;
  pd_sshRoot : option string;
  pd_icon : option string;
  pd_enabled : bool;
  pd_hasAuthToken : option bool;
  pd_isLocal : option bool
}.

Record ComboView := {
  cv_id : string;
  cv_name : string;
  cv_icon : string;
  cv_deviceIds : list string
}.

Record SettingsData := {
  localName : option string;
  localIcon : option string;
  comboViews : list ComboView
}.

(** [const { authToken, ...rest } = device;
     return { ...rest, hasAuthToken: Boolean(authToken) }] *)
Definition toPublicDevice (device : DeviceConfig) : PublicDeviceConfig :=
  {| pd_id := dc_id device;
     pd_name := dc_name device;
     pd_url := dc_url device;
     pd_sshHost := dc_sshHost device;
     pd_sshRoot := dc_sshRoot device;
     pd_icon := dc_icon device;
     pd_enabled := dc_enabled device;
     pd_hasAuthToken := Some (JS.truthy_opt (dc_authToken device));
     pd_isLocal := None |}.

(** A property that is [undefined] is left out of the JSON text. *)
Definition opt_field (key : string) (v : option Json) : list (string * Json) :=
  match v with
  | Some j => [(key, j)]
  | None => []
  end.

(** The object a client receives for a device. *)
Definition public_json (p : PublicDeviceConfig) : Json :=
  JObj ([("id", JStr (pd_id p)); ("name", JStr (pd_name p)); ("url", JStr (pd_url p))]
        ++ opt_field "sshHost" (JStr <$> pd_sshHost p)
        ++ opt_field "sshRoot" (JStr <$> pd_sshRoot p)
        ++ opt_field "icon" (JStr <$> pd_icon p)
        ++ [("enabled", JBool (pd_enabled p))]
        ++ opt_field "hasAuthToken" (JBool <$> pd_hasAuthToken p)
        ++ opt_field "isLocal" (JBool <$> pd_isLocal p))%list.

(** The object [saveDevices] writes for a device. *)
Definition device_json (d : DeviceConfig) : Json :=
  JObj ([("id", JStr (dc_id d)); ("name", JStr (dc_name d)); ("url", JStr (dc_url d))]
        ++ opt_field "sshHost" (JStr <$> dc_sshHost d)
        ++ opt_field "sshRoot" (JStr <$> dc_sshRoot d)
        ++ opt_field "authToken" (JStr <$> dc_authToken d)
        ++ opt_field "icon" (JStr <$> dc_icon d)
        ++ [("enabled", JBool (dc_enabled d))])%list.

(** [name.toLowerCase().replace(/[^a-z0-9]+/g, "-").replace(/(^-|-$)/g, "")] *)
Definition slugify (name : string) : string :=
  Re.strip_edge_hyphens (Re.hyphenate_non_alnum (JS.toLowerCase name)).

(** ** Effects *)

(** A call either returns or throws an [Error] with a message. *)
Inductive Outcome (A : Type) :=
| Return (a : A)
| Throw (message : string).

Arguments Return {A} a.
Arguments Throw {A} message.

Record SshResult := { stdout : string; stderr : string; code : Z }.

Record SshBinary := { data : string; bin_code : Z }.

Record FetchRequest := {
  f_url : string;
  f_method : string;
  f_headers : gmap string string;
  f_query : list (string * string);
  f_has_body : bool;
  f_timeoutMs : N
}.

Inductive FetchResult :=
| Fetched (st : N) (hs : list (string * string)) (content : Payload)
| FetchFailed (message : string).

(** [fs.Stats] and [fs.Dirent], the fields the handlers read. *)
Record Stats := {
  st_isDirectory : bool;
  st_size : Z;
  st_mtimeMs : Z
}.

Record Dirent := {
  de_name : string;
  de_isDirectory : bool
}.

(** What a handler asks of the outside: the two JSON files, the clock, the
    host name, the local file system, SSH processes, outbound HTTP and the
    application's own dispatcher. *)
Inductive Event : Type -> Type :=
| ReadDevicesFile : Event (option (list DeviceConfig))
| WriteDevicesFile (ds : list DeviceConfig) : Event unit
| ReadSettingsFile : Event (option SettingsData)
| OsHostname : Event (option string)
| DateNow : Event N
| SshExec (host command : string) (timeoutMs : N) : Event SshResult
| SshExecBinary (host command : string) (timeoutMs : N) : Event SshBinary
| HttpFetch (rq : FetchRequest) : Event FetchResult
| ExistsSync (p : string) : Event bool
| StatSync (p : string) : Event (Outcome Stats)
| ReaddirSync (p : string) : Event (Outcome (list Dirent))
| CpSync (src dest : string) : Event (Outcome unit)
| CopyFileSync (src dest : string) : Event (Outcome unit)
| AppFetch (rq : Request) : Event Response.

(** Handlers are finite trees of such requests. *)
Inductive Prog (A : Type) : Type :=
| Ret (a : A)
| Vis {X : Type} (e : Event X) (k : X -> Prog A).

Arguments Ret {A} a.
Arguments Vis {A X} e k.

Fixpoint bind {A B : Type} (p : Prog A) (f : A -> Prog B) : Prog B :=
  match p with
  | Ret a => f a
  | Vis e k => Vis e (fun x => bind (k x) f)
  end.

Definition trigger {X : Type} (e : Event X) : Prog X := Vis e Ret.

#[global] Instance Prog_ret : MRet Prog := @Ret.
#[global] Instance Prog_bind : MBind Prog := fun A B f p => bind p f.

(** ** The two persisted files *)

(** A missing or unparsable file reads as [None]. *)
Definition loadDevices : Prog (list DeviceConfig) :=
  file ← trigger ReadDevicesFile;
  mret (default [] file).

Definition saveDevices (devices : list DeviceConfig) : Prog unit :=
  trigger (WriteDevicesFile devices).

Definition loadSettings : Prog SettingsData :=
  file ← trigger ReadSettingsFile;
  mret (default {| localName := None; localIcon := None; comboViews := [] |} file).

Definition getLocalName : Prog string :=
  settings ← loadSettings;
  if JS.truthy_opt (localName settings) then mret (JS.or_else (localName settings) "")
  else
    hostname ← trigger OsHostname;
    mret (match hostname with
          | Some h => Re.strip_dot_local h
          | None => "This Machine"
          end).

Definition getLocalIcon : Prog string :=
  settings ← loadSettings;
  mret (JS.or_else (localIcon settings) "💻").

(** ** Device management API *)

(** The body of [POST /api/devices].  The handler calls string methods on
    these fields; [authToken] is the one it tests with [typeof]. *)
Record AddBody := {
  ab_name : option string;
  ab_url : option string;
  ab_icon : option string;
  ab_sshHost : option string;
  ab_sshRoot : option string;
  ab_authToken : option Json
}.

(** The body of [PUT /api/devices/:id]. *)
Record UpdateBody := {
  ub_name : option string;
  ub_url : option string;
  ub_authToken : option Json;
  ub_icon : option string;
  ub_enabled : option bool
}.

(** [typeof authToken === "string" ? authToken.trim() : ""] *)
Definition cleanToken (authToken : option Json) : string :=
  match authToken with
  | Some (JStr s) => JS.trim s
  | _ => ""
  end.

(** [typeof authToken === "string" && authToken.trim() ? authToken.trim() : undefined] *)
Definition storedToken (authToken : option Json) : option string :=
  if JS.truthy (cleanToken authToken) then Some (cleanToken authToken) else None.

Definition auth_headers (authHeader : option string) : gmap string string :=
  match authHeader with
  | Some h => {[ "authorization" := h ]}
  | None => ∅
  end.

Definition response_ok (st : N) : bool := ((200 <=? st) && (st <=? 299))%N.

Definition has_id (id : string) (d : DeviceConfig) : bool := String.eqb (dc_id d) id.

(** [GET /api/devices] *)
Definition getDevices : Prog Response :=
  devices ← loadDevices;
  name ← getLocalName;
  icon ← getLocalIcon;
  let local :=
    {| pd_id := "local"; pd_name := name; pd_url := ""; pd_sshHost := None;
       pd_sshRoot := None; pd_icon := Some icon; pd_enabled := true;
       pd_hasAuthToken := None; pd_isLocal := Some true |} in
  mret (json (JObj [("devices",
                     JArr (List.map public_json (local :: List.map toPublicDevice devices)))])
          200).

(** [slug || `device-${Date.now()}`], the expression both branches of the
    add handler use. *)
Definition deriveId (deviceName : string) : Prog string :=
  let slug := slugify deviceName in
  if JS.truthy slug then mret slug
  else
    now ← trigger DateNow;
    mret ("device-" ++ JS.of_N now).

Definition added (device : DeviceConfig) : Response :=
  json (JObj [("success", JBool true);
              ("device", public_json (toPublicDevice device))]) 200.

(** [POST /api/devices] *)
Definition postDevices (env : Env) (c : Request) (b : AddBody) : Prog Response :=
  if JS.truthy_opt (ab_sshHost b) then
    let sshHost := JS.or_else (ab_sshHost b) "" in
    let deviceName := JS.or_else (ab_name b) sshHost in
    devices ← loadDevices;
    id ← deriveId deviceName;
    if String.eqb id "local" || List.existsb (has_id id) devices then
      mret (json_error "Device ID already exists" 409)
    else
      r ← trigger (SshExec sshHost "echo ok && echo $HOME" 8000);
      if negb (code r =? 0)%Z || negb (JS.includes (stdout r) "ok") then
        mret (json_error ("Cannot SSH to " ++ dquote ++ sshHost ++ dquote
                          ++ " — check your SSH config and keys") 502)
      else
        let remoteHome :=
          JS.or_else (Some (List.last (JS.split (ascii_of_nat 10) (JS.trim (stdout r))) ""))
            "/" in
        let device :=
          {| dc_id := id; dc_name := deviceName; dc_url := "";
             dc_sshHost := Some sshHost;
             dc_sshRoot := Some (JS.or_else (ab_sshRoot b) remoteHome);
             dc_authToken := None;
             dc_icon := Some (JS.or_else (ab_icon b) "🖥️");
             dc_enabled := true |} in
        _ ← saveDevices (devices ++ [device])%list;
        mret (added device)
  else if negb (JS.truthy_opt (ab_name b)) || negb (JS.truthy_opt (ab_url b)) then
    mret (json_error "name and url (or sshHost) required" 400)
  else
    let name := JS.or_else (ab_name b) "" in
    let url := JS.or_else (ab_url b) "" in
    devices ← loadDevices;
    id ← deriveId name;
    if String.eqb id "local" || List.existsb (has_id id) devices then
      mret (json_error "Device ID already exists" 409)
    else
      let cleanUrl := Re.strip_trailing_slashes url in
      let authHeader := getForwardAuthHeader env c (Some (cleanToken (ab_authToken b))) in
      probe ← trigger (HttpFetch {| f_url := cleanUrl ++ "/api/files?path=";
                                    f_method := "GET";
                                    f_headers := auth_headers authHeader;
                                    f_query := [];
                                    f_has_body := false;
                                    f_timeoutMs := 5000 |});
      match probe with
      | FetchFailed message =>
          mret (json_error ("Cannot reach " ++ url ++ ": " ++ JS.or_else (Some message) "timeout")
                  502)
      | Fetched st _ _ =>
          if negb (response_ok st) then
            mret (json_error ("Remote returned " ++ JS.of_N st) 502)
          else
            let device :=
              {| dc_id := id; dc_name := name;
                 dc_url := Re.strip_trailing_slashes url;
                 dc_sshHost := None; dc_sshRoot := None;
                 dc_authToken := storedToken (ab_authToken b);
                 dc_icon := Some (JS.or_else (ab_icon b) "🖥️");
                 dc_enabled := true |} in
            _ ← saveDevices (devices ++ [device])%list;
            mret (added device)
      end.

(** The field-by-field merge of the update handler. *)
Definition applyUpdate (b : UpdateBody) (d : DeviceConfig) : DeviceConfig :=
  {| dc_id := dc_id d;
     dc_name := default (dc_name d) (ub_name b);
     dc_url := default (dc_url d) (Re.strip_trailing_slashes <$> ub_url b);
     dc_sshHost := dc_sshHost d;
     dc_sshRoot := dc_sshRoot d;
     dc_authToken :=
       match ub_authToken b with
       | Some _ => storedToken (ub_authToken b)
       | None => dc_authToken d
       end;
     dc_icon := match ub_icon b with Some i => Some i | None => dc_icon d end;
     dc_enabled := default (dc_enabled d) (ub_enabled b) |}.

(** [PUT /api/devices/:id] *)
Definition putDevice (id : string) (b : UpdateBody) : Prog Response :=
  if String.eqb id "local" then mret (json_error "Cannot edit local device" 400)
  else
    devices ← loadDevices;
    match list_find (fun d => dc_id d = id) devices with
    | None => mret (json_error "Device not found" 404)
    | Some (idx, d) =>
        let d' := applyUpdate b d in
        _ ← saveDevices (<[idx := d']> devices);
        mret (json (JObj [("success", JBool true);
                          ("device", public_json (toPublicDevice d'))]) 200)
    end.

(** [DELETE /api/devices/:id] *)
Definition deleteDevice (id : string) : Prog Response :=
  if String.eqb id "local" then mret (json_error "Cannot delete local device" 400)
  else
    devices ← loadDevices;
    let filtered := List.filter (fun d => negb (has_id id d)) devices in
    if (List.length filtered =? List.length devices)%nat then
      mret (json_error "Device not found" 404)
    else
      _ ← saveDevices filtered;
      mret (json (JObj [("success", JBool true)]) 200).

(** [GET /api/devices/:id/health] *)
Definition getDeviceHealth (env : Env) (c : Request) (id : string) : Prog Response :=
  if String.eqb id "local" then
    mret (json (JObj [("status", JStr "ok"); ("latency", JNum 0)]) 200)
  else
    devices ← loadDevices;
    match List.find (has_id id) devices with
    | None => mret (json_error "Device not found" 404)
    | Some device =>
        start ← trigger DateNow;
        if JS.truthy_opt (dc_sshHost device) then
          r ← trigger (SshExec (JS.or_else (dc_sshHost device) "") "echo ok" 5000);
          finish ← trigger DateNow;
          let latency := (Z.of_N finish - Z.of_N start)%Z in
          let reached := (code r =? 0)%Z && JS.includes (stdout r) "ok" in
          mret (json (JObj [("status", JStr (if reached then "ok" else "unreachable"));
                            ("latency", JNum latency); ("type", JStr "ssh")]) 200)
        else
          let authHeader := getForwardAuthHeader env c (dc_authToken device) in
          res ← trigger (HttpFetch {| f_url := dc_url device ++ "/api/files?path=";
                                      f_method := "GET";
                                      f_headers := auth_headers authHeader;
                                      f_query := [];
                                      f_has_body := false;
                                      f_timeoutMs := 5000 |});
          finish ← trigger DateNow;
          let latency := (Z.of_N finish - Z.of_N start)%Z in
          match res with
          | Fetched st _ _ =>
              mret (json (JObj [("status", JStr (if response_ok st then "ok" else "error"));
                                ("latency", JNum latency);
                                ("httpStatus", JNum (Z.of_N st))]) 200)
          | FetchFailed message =>
              mret (json (JObj [("status", JStr "unreachable"); ("latency", JNum latency);
                                ("error", JStr message)]) 200)
          end
    end.

(** ** More of the runtime: quoting, numbers, sorting *)

Module Rt.

Definition hex_digit (n : N) : ascii :=
  if (n <? 10)%N then ascii_of_N (48 + n) else ascii_of_N (87 + n).

(** One character of a JSON string literal. *)
Definition json_escape (c : ascii) : string :=
  let n := N_of_ascii c in
  if (n =? 34)%N then "\" ++ dquote
  else if (n =? 92)%N then "\\"
  else if (n =? 8)%N then "\b"
  else if (n =? 9)%N then "\t"
  else if (n =? 10)%N then "\n"
  else if (n =? 12)%N then "\f"
  else if (n =? 13)%N then "\r"
  else if (n <? 32)%N then
    "\u00" ++ String (hex_digit (n / 16)) (String (hex_digit (n mod 16)) "")
  else String c "".

Fixpoint json_escape_all (s : string) : string :=
  match s with
  | EmptyString => EmptyString
  | String c s' => json_escape c ++ json_escape_all s'
  end.

(** [JSON.stringify(s)] for a string: the adapter quotes paths with it. *)
Definition JSON_stringify (s : string) : string :=
  dquote ++ json_escape_all s ++ dquote.

Definition digit_value (c : ascii) : option Z :=
  if JS.is_digit c then Some (Z.of_N (N_of_ascii c) - 48)%Z else None.

Definition hex_value (c : ascii) : option Z :=
  let n := Z.of_N (N_of_ascii c) in
  if JS.is_digit c then Some (n - 48)%Z
  else if ((97 <=? n) && (n <=? 102))%Z then Some (n - 87)%Z
  else if ((65 <=? n) && (n <=? 70))%Z then Some (n - 55)%Z
  else None.

(** Reads the longest prefix of digits in the given radix. *)
Fixpoint read_digits (value : ascii -> option Z) (radix acc : Z) (s : string) : Z :=
  match s with
  | EmptyString => acc
  | String c s' =>
      match value c with
      | Some d => read_digits value radix (radix * acc + d)%Z s'
      | None => acc
      end
  end.

Definition starts_with_digit (value : ascii -> option Z) (s : string) : bool :=
  match s with
  | String c _ => bool_decide (is_Some (value c))
  | EmptyString => false
  end.

Definition parse_unsigned (s : string) : option Z :=
  match s with
  | String "0" (String x rest) =>
      if Ascii.eqb x "x" || Ascii.eqb x "X" then
        if starts_with_digit hex_value rest then Some (read_digits hex_value 16 0 rest)
        else None
      else Some (read_digits digit_value 10 0 s)
  | _ =>
      if starts_with_digit digit_value s then Some (read_digits digit_value 10 0 s)
      else None
  end.

(** [parseInt(s)] without a radix; [None] is [NaN].  An [undefined]
    argument reads as the text "undefined", which is [NaN] as well.  Values
    are integers: the handlers parse sizes and epoch seconds, far below
    2^53. *)
Definition parseInt (arg : option string) : option Z :=
  match arg with
  | None => None
  | Some s =>
      match JS.trimStart s with
      | String "-" rest => Z.opp <$> parse_unsigned rest
      | String "+" rest => parse_unsigned rest
      | t => parse_unsigned t
      end
  end.

(** [new Date(ms).toISOString()] keeps the instant or throws a
    [RangeError]; the instant stands for its rendering. *)
Definition date_in_range (ms : Z) : bool :=
  ((-8640000000000000 <=? ms) && (ms <=? 8640000000000000))%Z.

(** [Array.prototype.sort(cmp)]: a stable insertion sort.  The runtime's
    algorithm is stable as well; for a comparator that is a consistent
    ordering every stable sort returns the same array. *)
Section Sort.
Context {A : Type} (cmp : A -> A -> Z).

Fixpoint insert (x : A) (l : list A) : list A :=
  match l with
  | [] => [x]
  | y :: l' => if (cmp x y <=? 0)%Z then x :: l else y :: insert x l'
  end.

Fixpoint sort (l : list A) : list A :=
  match l with
  | [] => []
  | x :: l' => insert x (sort l')
  end.
End Sort.

(** [s.replace(pat, rep)] with a string pattern: the first occurrence. *)
Fixpoint replace_first (pat rep s : string) : string :=
  if String.prefix pat s then rep ++ JS.slice_from (String.length pat) s
  else match s with
       | EmptyString => EmptyString
       | String c s' => String c (replace_first pat rep s')
       end.

End Rt.

(** ** File items *)

Record FileItem := {
  fi_name : string;
  fi_path : string;
  fi_isDirectory : bool;
  fi_icon : string;
  fi_size : Z;
  (** the instant [toISOString] prints, in milliseconds; [None] is [null] *)
  fi_modified : option Z
}.

(** Functions of the runtime and of [fuse.js] taken as given:
    [String.prototype.localeCompare] (the collation of the runtime's locale),
    base64 encoding, and the ranked fuzzy search over item names with its
    threshold. *)
Record Runtime := {
  localeCompare : string -> string -> Z;
  toBase64 : string -> string;
  fuseSearch : list FileItem -> string -> list FileItem;
  (** the message of the [RangeError] of [toISOString] *)
  invalidDate : string;
  (** [new URL(s)]: the URL written out without its search part, and its
      search parameters in order; [None] where the constructor throws its
      [TypeError] *)
  parseURL : string -> option (string * list (string * string))
}.

Definition imageExts : list string :=
  [".jpg"; ".jpeg"; ".png"; ".gif"; ".webp"; ".svg"; ".ico"; ".bmp"].
Definition videoExts : list string := [".mp4"; ".webm"; ".mov"; ".avi"; ".mkv"].
Definition audioExts : list string := [".mp3"; ".wav"; ".ogg"; ".flac"; ".m4a"].
Definition codeExts : list string :=
  [".js"; ".ts"; ".jsx"; ".tsx"; ".py"; ".rb"; ".go"; ".rs"; ".java"; ".c"; ".cpp"; ".h";
   ".css"; ".scss"; ".html"; ".json"; ".yaml"; ".yml"; ".toml"; ".md"; ".sh"; ".bash";
   ".zsh"].
Definition docExts : list string :=
  [".pdf"; ".doc"; ".docx"; ".xls"; ".xlsx"; ".ppt"; ".pptx"; ".txt"].
Definition archiveExts : list string := [".zip"; ".tar"; ".gz"; ".rar"; ".7z"].

Definition ext_in (ext : string) (exts : list string) : bool :=
  List.existsb (String.eqb ext) exts.

Definition getFileType (filename : string) : string :=
  let ext := JS.toLowerCase (Path.extname filename) in
  if ext_in ext imageExts then "image"
  else if ext_in ext videoExts then "video"
  else if ext_in ext audioExts then "audio"
  else if ext_in ext codeExts then "code"
  else if ext_in ext docExts then "document"
  else if ext_in ext archiveExts then "archive"
  else "file".

Definition getFileIcon (filename : string) (isDir : bool) : string :=
  if isDir then "folder" else getFileType filename.

(** The comparator both listings pass to [sort]. *)
Definition compareItems (rt : Runtime) (a b : FileItem) : Z :=
  if fi_isDirectory a && negb (fi_isDirectory b) then (-1)%Z
  else if negb (fi_isDirectory a) && fi_isDirectory b then 1%Z
  else localeCompare rt (fi_name a) (fi_name b).

Definition item_json (f : FileItem) : Json :=
  JObj [("name", JStr (fi_name f)); ("path", JStr (fi_path f));
        ("isDirectory", JBool (fi_isDirectory f)); ("icon", JStr (fi_icon f));
        ("size", JNum (fi_size f));
        ("modified", match fi_modified f with Some ms => JNum ms | None => JNull end)].

Definition crumb_json (c : string * string) : Json :=
  JObj [("name", JStr (fst c)); ("path", JStr (snd c))].

Record Listing := {
  ls_path : string;
  ls_breadcrumbs : list (string * string);
  ls_files : list FileItem
}.

Definition listing_json (l : Listing) : Json :=
  JObj [("path", JStr (ls_path l));
        ("breadcrumbs", JArr (List.map crumb_json (ls_breadcrumbs l)));
        ("files", JArr (List.map item_json (ls_files l)))].

(** ** SSH adapter *)

Definition nl : string := String (ascii_of_nat 10) "".

(** [`${root}/${rel}`] *)
Definition under (root rel : string) : string := root ++ "/" ++ rel.

(** [x => `${x}`] for a possibly [undefined] string *)
Definition interpolate (o : option string) : string := default "undefined" o.

(** [stdout.trim().split("\n").filter(Boolean)] *)
Definition output_lines (out : string) : list string :=
  List.filter JS.truthy (JS.split (ascii_of_nat 10) (JS.trim out)).

(** [new Date(parseInt(field) * 1000).toISOString()] *)
Definition epoch_field (rt : Runtime) (field : option string) : Outcome Z :=
  match Rt.parseInt field with
  | Some seconds =>
      if Rt.date_in_range (seconds * 1000) then Return (seconds * 1000)%Z
      else Throw (invalidDate rt)
  | None => Throw (invalidDate rt)
  end.

Definition is_directory_type (type : option string) : bool :=
  bool_decide (type = Some "Directory") || bool_decide (type = Some "directory").

(** The callback mapped over the lines [type|name|size|mtime].  A line with
    fewer than four fields has no [mtimeStr], and [toISOString] throws before
    the missing name is looked at. *)
Definition parseLine (rt : Runtime) (requestedPath line : string) : Outcome FileItem :=
  let fields := JS.split "|" line in
  let isDir := is_directory_type (fields !! 0%nat) in
  let size := default 0%Z (Rt.parseInt (fields !! 2%nat)) in
  match epoch_field rt (fields !! 3%nat) with
  | Throw m => Throw m
  | Return modified =>
      let name := interpolate (fields !! 1%nat) in
      let relativePath :=
        if JS.truthy requestedPath then requestedPath ++ "/" ++ name else name in
      Return {| fi_name := name;
                fi_path := relativePath;
                fi_isDirectory := isDir;
                fi_icon := if isDir then "folder" else getFileType name;
                fi_size := if isDir then 0%Z else size;
                fi_modified := Some modified |}
  end.

(** [lines.map(f)] for a callback that may throw: the first throw wins. *)
Fixpoint map_outcome {A B : Type} (f : A -> Outcome B) (l : list A) : Outcome (list B) :=
  match l with
  | [] => Return []
  | x :: l' =>
      match f x with
      | Throw m => Throw m
      | Return y =>
          match map_outcome f l' with
          | Throw m => Throw m
          | Return ys => Return (y :: ys)
          end
      end
  end.

(** [parts.forEach((name, i) => breadcrumbs.push({ name,
     path: parts.slice(0, i + 1).join("/") }))] *)
Definition crumbs_of (sep : string) (parts : list string) : list (string * string) :=
  List.map (fun i => (default "" (parts !! i), JS.join sep (take (S i) parts)))
    (seq 0 (List.length parts)).

Definition listFilesCommand (targetDir : string) (showHidden : bool) : string :=
  "cd " ++ Rt.JSON_stringify targetDir ++ " 2>/dev/null && ls -1 "
  ++ (if showHidden then "-a" else "")
  ++ " --color=never 2>/dev/null | while IFS= read -r name; do" ++ nl
  ++ "    [ " ++ dquote ++ "$name" ++ dquote ++ " = " ++ dquote ++ "." ++ dquote
  ++ " ] || [ " ++ dquote ++ "$name" ++ dquote ++ " = " ++ dquote ++ ".." ++ dquote
  ++ " ] && continue" ++ nl
  ++ "    stat -f '%HT|%N|%z|%m' " ++ dquote ++ "$name" ++ dquote
  ++ " 2>/dev/null || stat --format='%F|%n|%s|%Y' " ++ dquote ++ "$name" ++ dquote
  ++ " 2>/dev/null" ++ nl
  ++ "  done".

Definition sshListFiles (rt : Runtime) (host rootDir requestedPath : string)
    (showHidden : bool) : Prog (Outcome Listing) :=
  let targetDir := if JS.truthy requestedPath then under rootDir requestedPath else rootDir in
  r ← trigger (SshExec host (listFilesCommand targetDir showHidden) 15000);
  if negb (code r =? 0)%Z && negb (JS.truthy (JS.trim (stdout r))) then
    mret (Throw "Failed to list directory")
  else
    match map_outcome (parseLine rt requestedPath) (output_lines (stdout r)) with
    | Throw m => mret (Throw m)
    | Return items =>
        let files := Rt.sort (compareItems rt) items in
        let breadcrumbs :=
          (("Home", "") ::
           (if JS.truthy requestedPath then crumbs_of "/" (JS.split "/" requestedPath)
            else []))%list in
        mret (Return {| ls_path := requestedPath;
                        ls_breadcrumbs := breadcrumbs;
                        ls_files := files |})
    end.

Definition search_item_json (f : FileItem) : Json :=
  JObj [("name", JStr (fi_name f)); ("path", JStr (fi_path f));
        ("isDirectory", JBool (fi_isDirectory f)); ("icon", JStr (fi_icon f));
        ("size", JNum (fi_size f))].

Definition sshSearch (rt : Runtime) (host rootDir searchPath query : string) : Prog Json :=
  let targetDir := if JS.truthy searchPath then under rootDir searchPath else rootDir in
  let cmd := "find " ++ Rt.JSON_stringify targetDir
             ++ " -maxdepth 5 -name '*' 2>/dev/null | head -500" in
  r ← trigger (SshExec host cmd 15000);
  let items :=
    List.filter (fun f => JS.truthy (fi_name f) && negb (JS.startsWith (fi_name f) "."))
      (List.map (fun fullPath =>
                   let relativePath :=
                     if JS.startsWith fullPath rootDir
                     then JS.slice_from (String.length rootDir + 1) fullPath
                     else fullPath in
                   let name := Path.basename fullPath None in
                   {| fi_name := name; fi_path := relativePath; fi_isDirectory := false;
                      fi_icon := getFileType name; fi_size := 0%Z; fi_modified := None |})
         (output_lines (stdout r))) in
  mret (JObj [("results",
               JArr (List.map search_item_json (take 50 (fuseSearch rt items query))))]).

Definition mimeTypes : list (string * string) :=
  [(".jpg", "image/jpeg"); (".jpeg", "image/jpeg"); (".png", "image/png");
   (".gif", "image/gif"); (".webp", "image/webp"); (".svg", "image/svg+xml")].

Definition sshPreview (rt : Runtime) (host rootDir filePath : string) : Prog (Outcome Json) :=
  let fullPath := under rootDir filePath in
  let ext := JS.toLowerCase (Path.extname filePath) in
  let fileType := getFileType (Path.basename filePath None) in
  if String.eqb fileType "image" then
    r ← trigger (SshExecBinary host ("cat " ++ Rt.JSON_stringify fullPath) 30000);
    if negb (bin_code r =? 0)%Z then mret (Throw "Failed to read file")
    else
      let mime := snd <$> List.find (fun kv => String.eqb (fst kv) ext) mimeTypes in
      mret (Return (JObj [("type", JStr "image");
                          ("mimeType", JStr (JS.or_else mime "image/png"));
                          ("content", JStr (toBase64 rt (data r)))]))
  else if String.eqb fileType "code" || String.eqb ext ".txt" || String.eqb ext ".md" then
    r ← trigger (SshExec host ("head -c 500000 " ++ Rt.JSON_stringify fullPath) 15000);
    if negb (code r =? 0)%Z then mret (Throw "Failed to read file")
    else
      mret (Return (JObj [("type", JStr "text");
                          ("language", JStr (JS.slice_from 1 ext));
                          ("content", JStr (stdout r))]))
  else
    mret (Return (JObj [("type", JStr "unsupported");
                        ("message", JStr ("Preview not available for " ++ ext ++ " files"))])).

Definition sshFileInfo (rt : Runtime) (host rootDir filePath : string) : Prog (Outcome Json) :=
  let fullPath := under rootDir filePath in
  let name := Path.basename filePath None in
  let cmd := "stat -f '%z|%B|%m|%a|%HT' " ++ Rt.JSON_stringify fullPath
             ++ " 2>/dev/null || stat --format='%s|%W|%Y|%X|%F' "
             ++ Rt.JSON_stringify fullPath ++ " 2>/dev/null" in
  r ← trigger (SshExec host cmd 15000);
  if negb (code r =? 0)%Z then mret (Throw "Failed to get info")
  else
    let fields := JS.split "|" (JS.trim (stdout r)) in
    let isDir := is_directory_type (fields !! 4%nat) in
    let icon := if isDir then "folder" else getFileType name in
    match epoch_field rt (fields !! 1%nat),
          epoch_field rt (fields !! 2%nat),
          epoch_field rt (fields !! 3%nat) with
    | Return created, Return modified, Return accessed =>
        mret (Return (JObj [("name", JStr name); ("path", JStr filePath);
                            ("isDirectory", JBool isDir);
                            ("size", JNum (default 0%Z (Rt.parseInt (fields !! 0%nat))));
                            ("created", JNum created); ("modified", JNum modified);
                            ("accessed", JNum accessed);
                            ("icon", JStr icon); ("type", JStr icon)]))
    | _, _, _ => mret (Throw (invalidDate rt))
    end.

Definition sshDownload (host rootDir filePath : string) : Prog (Outcome string) :=
  let fullPath := under rootDir filePath in
  r ← trigger (SshExecBinary host ("cat " ++ Rt.JSON_stringify fullPath) 30000);
  if negb (bin_code r =? 0)%Z then mret (Throw "Failed to download")
  else mret (Return (data r)).

(** ** Device proxy: [app.all("/api/d/:deviceId/*")] *)

(** The JSON body of a file operation. *)
Record FileOpBody := {
  fb_path : option string;
  fb_content : option string;
  fb_from : option string;
  fb_to : option string
}.

Definition success : Response := json (JObj [("success", JBool true)]) 200.

Definition success_or (r : SshResult) (failure : string) : Response :=
  if (code r =? 0)%Z then success else json_error failure 500.

(** [url.searchParams.get(key) || ""] *)
Definition param_or_empty (c : Request) (key : string) : string :=
  JS.or_else (searchParam c key) "".

(** [params.set(k, v)]: the first entry of that name takes the value, the
    others go; a new name is appended. *)
Fixpoint set_param (k v : string) (params : list (string * string)) : list (string * string) :=
  match params with
  | [] => [(k, v)]
  | (k', v') :: rest =>
      if String.eqb k' k then (k, v) :: List.filter (fun kv => negb (String.eqb (fst kv) k)) rest
      else (k', v') :: set_param k v rest
  end.

(** [c.req.path.replace(`/api/d/${deviceId}/`, "").split("?")[0]] *)
Definition routeSuffix (c : Request) (deviceId : string) : string :=
  List.hd "" (JS.split "?" (Rt.replace_first ("/api/d/" ++ deviceId ++ "/") "" (path c))).

(** The SSH branch, inside its [try]; [b] is what [await c.req.json()]
    gives when an operation asks for it. *)
Definition sshRoute (rt : Runtime) (c : Request) (deviceId : string) (device : DeviceConfig)
    (b : Outcome FileOpBody) : Prog (Outcome Response) :=
  let host := JS.or_else (dc_sshHost device) "" in
  let root := JS.or_else (dc_sshRoot device) "/" in
  let suffix := routeSuffix c deviceId in
  let on op m := String.eqb suffix op && String.eqb (method c) m in
  let with_body (k : FileOpBody -> Prog (Outcome Response)) : Prog (Outcome Response) :=
    match b with
    | Throw m => mret (Throw m)
    | Return fb => k fb
    end in
  if on "files" "GET" then
    let reqPath := param_or_empty c "path" in
    let showHidden := bool_decide (searchParam c "showHidden" = Some "true") in
    r ← sshListFiles rt host root reqPath showHidden;
    mret (match r with
          | Return l => Return (json (listing_json l) 200)
          | Throw m => Throw m
          end)
  else if on "search" "GET" then
    let query := param_or_empty c "q" in
    let searchPath := param_or_empty c "path" in
    if (String.length query <? 2)%nat then mret (Return (json (JObj [("results", JArr [])]) 200))
    else
      r ← sshSearch rt host root searchPath query;
      mret (Return (json r 200))
  else if on "preview" "GET" then
    let reqPath := param_or_empty c "path" in
    if negb (JS.truthy reqPath) then mret (Return (json_error "path required" 400))
    else
      r ← sshPreview rt host root reqPath;
      mret (match r with
            | Return j => Return (json j 200)
            | Throw m => Throw m
            end)
  else if on "info" "GET" then
    let reqPath := param_or_empty c "path" in
    if negb (JS.truthy reqPath) then mret (Return (json_error "path required" 400))
    else
      r ← sshFileInfo rt host root reqPath;
      mret (match r with
            | Return j => Return (json j 200)
            | Throw m => Throw m
            end)
  else if on "download" "GET" then
    let reqPath := param_or_empty c "path" in
    if negb (JS.truthy reqPath) then mret (Return (json_error "path required" 400))
    else
      r ← sshDownload host root reqPath;
      mret (match r with
            | Return bytes =>
                Return {| status := 200;
                          resp_headers :=
                            [("Content-Disposition",
                              "attachment; filename=" ++ dquote
                              ++ Path.basename reqPath None ++ dquote);
                             ("Content-Type", "application/octet-stream")];
                          payload := PStream bytes |}
            | Throw m => Throw m
            end)
  else if on "mkdir" "POST" then
    with_body (fun fb =>
      let dirPath := under root (interpolate (fb_path fb)) in
      r ← trigger (SshExec host ("mkdir -p " ++ Rt.JSON_stringify dirPath) 15000);
      mret (Return (success_or r "Failed to create folder")))
  else if on "touch" "POST" then
    with_body (fun fb =>
      let filePath := under root (interpolate (fb_path fb)) in
      let dir := Path.dirname filePath in
      let content := JS.or_else (fb_content fb) "" in
      let cmd := "mkdir -p " ++ Rt.JSON_stringify dir ++ " && cat > "
                 ++ Rt.JSON_stringify filePath ++ " << 'SSHEOF'" ++ nl ++ content ++ nl
                 ++ "SSHEOF" in
      r ← trigger (SshExec host cmd 15000);
      mret (Return (success_or r "Failed to create file")))
  else if on "rename" "POST" then
    with_body (fun fb =>
      let source := under root (interpolate (fb_from fb)) in
      let target := under root (interpolate (fb_to fb)) in
      r ← trigger (SshExec host ("mv " ++ Rt.JSON_stringify source ++ " "
                                 ++ Rt.JSON_stringify target) 15000);
      mret (Return (success_or r "Failed to rename")))
  else if on "delete" "POST" then
    with_body (fun fb =>
      let targetPath := under root (interpolate (fb_path fb)) in
      if String.eqb targetPath root then mret (Return (json_error "Cannot delete root" 400))
      else
        r ← trigger (SshExec host ("rm -rf " ++ Rt.JSON_stringify targetPath) 15000);
        mret (Return (success_or r "Failed to delete")))
  else if on "save" "POST" then
    with_body (fun fb =>
      let filePath := under root (interpolate (fb_path fb)) in
      let b64 := toBase64 rt (JS.or_else (fb_content fb) "") in
      r ← trigger (SshExec host ("echo '" ++ b64 ++ "' | base64 -d > "
                                 ++ Rt.JSON_stringify filePath) 15000);
      mret (Return (success_or r "Failed to save")))
  else if on "duplicate" "POST" then
    with_body (fun fb =>
      let src := under root (interpolate (fb_path fb)) in
      let ext := Path.extname src in
      let base := Path.basename src (Some ext) in
      let dir := Path.dirname src in
      let dest := dir ++ "/" ++ base ++ " copy" ++ ext in
      r ← trigger (SshExec host ("cp -r " ++ Rt.JSON_stringify src ++ " "
                                 ++ Rt.JSON_stringify dest) 15000);
      mret (Return (success_or r "Failed to duplicate")))
  else if String.eqb suffix "recent" then
    mret (Return (json (JObj [("files", JArr [])]) 200))
  else
    mret (Return (json_error ("Unsupported SSH operation: " ++ suffix) 400)).

(** The headers the proxy sends: the caller's, without [host], with the
    resolved [authorization] when there is one. *)
Definition proxyHeaders (env : Env) (c : Request) (device : DeviceConfig) : gmap string string :=
  let hs := delete "host" (headers c) in
  match getForwardAuthHeader env c (dc_authToken device) with
  | Some authHeader => <["authorization" := authHeader]> hs
  | None => hs
  end.

Definition has_request_body (m : string) : bool :=
  negb (String.eqb m "GET") && negb (String.eqb m "HEAD").

(** [`${device.url}/api${suffix}`], the text the proxy makes its URL of. *)
Definition remoteUrlText (c : Request) (deviceId : string) (device : DeviceConfig) : string :=
  let suffix := Rt.replace_first ("/api/d/" ++ deviceId) "" (path c) in
  dc_url device ++ "/api" ++ suffix.

(** What the application answers when a handler throws outside every [try]:
    the source sets no [onError], so the framework's 500 goes out. *)
Definition uncaught : Response :=
  {| status := 500; resp_headers := []; payload := PStream "Internal Server Error" |}.

(** The HTTP branch.  [new URL(`${device.url}/api${suffix}`)] stands before
    the [try]: where it throws, nothing is fetched.  The caller's search
    parameters are set, one after the other, on those the remote URL has of
    its own. *)
Definition httpProxy (rt : Runtime) (env : Env) (c : Request) (deviceId : string)
    (device : DeviceConfig) : Prog Response :=
  match parseURL rt (remoteUrlText c deviceId device) with
  | None => mret uncaught
  | Some (remoteUrl, own) =>
      let params :=
        List.fold_left (fun acc kv => set_param (fst kv) (snd kv) acc) (query c) own in
      res ← trigger (HttpFetch {| f_url := remoteUrl;
                                  f_method := method c;
                                  f_headers := proxyHeaders env c device;
                                  f_query := params;
                                  f_has_body := has_request_body (method c);
                                  f_timeoutMs := 30000 |});
      mret (match res with
            | Fetched st hs content => {| status := st; resp_headers := hs; payload := content |}
            | FetchFailed message => json_error ("Proxy error: " ++ message) 502
            end)
  end.

Definition deviceRoute (rt : Runtime) (env : Env) (c : Request) (deviceId : string)
    (b : Outcome FileOpBody) : Prog Response :=
  if String.eqb deviceId "local" then
    let suffix := Rt.replace_first "/api/d/local" "" (path c) in
    trigger (AppFetch {| method := method c; path := "/api" ++ suffix;
                         headers := headers c; query := query c |})
  else
    devices ← loadDevices;
    match List.find (has_id deviceId) devices with
    | None => mret (json_error "Device not found" 404)
    | Some device =>
        if negb (dc_enabled device) then mret (json_error "Device is disabled" 403)
        else if JS.truthy_opt (dc_sshHost device) then
          r ← sshRoute rt c deviceId device b;
          mret (match r with
                | Return resp => resp
                | Throw m => json_error ("SSH error: " ++ m) 502
                end)
        else httpProxy rt env c deviceId device
    end.

(** ** Local handlers *)

(** Resolve and validate path (prevent directory traversal). *)
Definition resolveSafePath (env : Env) (requestedPath : string) : option string :=
  let resolved := Path.resolve (cwd env) [ROOT_DIR env; requestedPath] in
  if negb (JS.startsWith resolved (ROOT_DIR env)) then None
  else Some resolved.

(** [entries.map(f)] for a callback that asks the outside. *)
Fixpoint mapProg {A B : Type} (f : A -> Prog B) (l : list A) : Prog (list B) :=
  match l with
  | [] => mret []
  | x :: l' =>
      y ← f x;
      ys ← mapProg f l';
      mret (y :: ys)
  end.

Definition localItem (env : Env) (safePath : string) (entry : Dirent) : Prog FileItem :=
  let fullPath := Path.join [safePath; de_name entry] in
  let relativePath := Path.relative (cwd env) (ROOT_DIR env) fullPath in
  s ← trigger (StatSync fullPath);
  mret {| fi_name := de_name entry;
          fi_path := relativePath;
          fi_isDirectory := de_isDirectory entry;
          fi_icon := getFileIcon (de_name entry) (de_isDirectory entry);
          fi_size := match s with Return stats => st_size stats | Throw _ => 0%Z end;
          fi_modified := match s with Return stats => Some (st_mtimeMs stats) | Throw _ => None end
       |}.

(** [GET /api/files] *)
Definition getFiles (rt : Runtime) (env : Env) (c : Request) : Prog Response :=
  let requestedPath := JS.or_else (searchParam c "path") "" in
  match resolveSafePath env requestedPath with
  | None => mret (json_error "Invalid path" 400)
  | Some safePath =>
      st ← trigger (StatSync safePath);
      match st with
      | Throw _ => mret (json_error "Failed to read directory" 500)
      | Return stats =>
          if negb (st_isDirectory stats) then mret (json_error "Not a directory" 400)
          else
            let showHidden := bool_decide (searchParam c "showHidden" = Some "true") in
            es ← trigger (ReaddirSync safePath);
            match es with
            | Throw _ => mret (json_error "Failed to read directory" 500)
            | Return entries =>
                items ← mapProg (localItem env safePath)
                          (List.filter
                             (fun entry => showHidden || negb (JS.startsWith (de_name entry) "."))
                             entries);
                let files := Rt.sort (compareItems rt) items in
                let relativePath := Path.relative (cwd env) (ROOT_DIR env) safePath in
                let breadcrumbs :=
                  if JS.truthy relativePath then crumbs_of "/" (JS.split "/" relativePath)
                  else [] in
                mret (json (listing_json {| ls_path := relativePath;
                                            ls_breadcrumbs := ("Home", "") :: breadcrumbs;
                                            ls_files := files |}) 200)
            end
      end
  end.

(** The [while (fs.existsSync(copyPath))] loop of the duplicate handler;
    [None] when [fuel] rounds did not end it. *)
Fixpoint probeCopyPath (fuel : nat) (dir base ext : string) (i : N) (copyPath : string)
  : Prog (option string) :=
  match fuel with
  | O => mret None
  | S fuel' =>
      taken ← trigger (ExistsSync copyPath);
      if (taken : bool) then
        probeCopyPath fuel' dir base ext (i + 1)
          (Path.join [dir; base ++ " copy " ++ JS.of_N i ++ ext])
      else mret (Some copyPath)
  end.

(** [POST /api/duplicate] *)
Definition postDuplicate (env : Env) (srcPath : string) (fuel : nat) : Prog (option Response) :=
  match resolveSafePath env srcPath with
  | None => mret (Some (json_error "Invalid path" 400))
  | Some safeSrc =>
      let ext := Path.extname safeSrc in
      let base := Path.basename safeSrc (Some ext) in
      let dir := Path.dirname safeSrc in
      found ← probeCopyPath fuel dir base ext 2 (Path.join [dir; base ++ " copy" ++ ext]);
      match found with
      | None => mret None
      | Some copyPath =>
          st ← trigger (StatSync safeSrc);
          match st with
          | Throw m => mret (Some (json_error (JS.or_else (Some m) "Failed to duplicate") 500))
          | Return stats =>
              copied ← (if st_isDirectory stats then trigger (CpSync safeSrc copyPath)
                        else trigger (CopyFileSync safeSrc copyPath));
              match copied with
              | Throw m =>
                  mret (Some (json_error (JS.or_else (Some m) "Failed to duplicate") 500))
              | Return _ =>
                  mret (Some (json (JObj [("success", JBool true);
                                          ("path",
                                           JStr (Path.relative (cwd env) (ROOT_DIR env) copyPath))])
                                200))
              end
          end
      end
  end.

(** ** Running a handler *)

(** One entry of the trace: a request a handler made and the answer it got. *)
Record Call := {
  call_type : Type;
  call_event : Event call_type;
  call_answer : call_type
}.

Arguments Build_Call {call_type} call_event call_answer.

(** SSH processes and outbound HTTP. *)
Definition is_remote (c : Call) : bool :=
  match call_event c with
  | SshExec _ _ _ | SshExecBinary _ _ _ | HttpFetch _ => true
  | _ => false
  end.

(** Writes to [devices.json]. *)
Definition is_save (c : Call) : bool :=
  match call_event c with
  | WriteDevicesFile _ => true
  | _ => false
  end.

(** The world a handler runs in.  The two JSON files and the local file
    system are state; the rest answers as it pleases, possibly differently
    at each call ([trace] is what was asked and answered so far, oldest
    first). *)
Record World := {
  devicesFile : option (list DeviceConfig);
  settingsFile : option SettingsData;
  files : gmap string Stats;
  trace : list Call;
  hostname : list Call -> option string;
  clock : list Call -> N;
  ssh : list Call -> string -> string -> N -> SshResult;
  sshBinary : list Call -> string -> string -> N -> SshBinary;
  fetch : list Call -> FetchRequest -> FetchResult;
  readdir : list Call -> string -> Outcome (list Dirent);
  dispatch : list Call -> Request -> Response
}.

Definition with_state (w : World) (devs : option (list DeviceConfig))
    (fs : gmap string Stats) (t : list Call) : World :=
  {| devicesFile := devs; settingsFile := settingsFile w; files := fs; trace := t;
     hostname := hostname w; clock := clock w; ssh := ssh w; sshBinary := sshBinary w;
     fetch := fetch w; readdir := readdir w; dispatch := dispatch w |}.

Definition copy_entry (src dest : string) (fs : gmap string Stats)
  : Outcome unit * gmap string Stats :=
  match fs !! src with
  | Some st => (Return tt, <[dest := st]> fs)
  | None => (Throw ("ENOENT: no such file or directory, copyfile '" ++ src ++ "'"), fs)
  end.

(** The answer to one request, with the registry file and the file system
    after it. *)
Definition respond {X : Type} (e : Event X) (w : World)
  : X * option (list DeviceConfig) * gmap string Stats :=
  match e in Event X return X * option (list DeviceConfig) * gmap string Stats with
  | ReadDevicesFile => (devicesFile w, devicesFile w, files w)
  | WriteDevicesFile ds => (tt, Some ds, files w)
  | ReadSettingsFile => (settingsFile w, devicesFile w, files w)
  | OsHostname => (hostname w (trace w), devicesFile w, files w)
  | DateNow => (clock w (trace w), devicesFile w, files w)
  | SshExec host command timeoutMs =>
      (ssh w (trace w) host command timeoutMs, devicesFile w, files w)
  | SshExecBinary host command timeoutMs =>
      (sshBinary w (trace w) host command timeoutMs, devicesFile w, files w)
  | HttpFetch rq => (fetch w (trace w) rq, devicesFile w, files w)
  | ExistsSync p => (bool_decide (is_Some (files w !! p)), devicesFile w, files w)
  | StatSync p =>
      (match files w !! p with
       | Some st => Return st
       | None => Throw ("ENOENT: no such file or directory, stat '" ++ p ++ "'")
       end, devicesFile w, files w)
  | ReaddirSync p => (readdir w (trace w) p, devicesFile w, files w)
  | CpSync src dest =>
      let '(r, fs) := copy_entry src dest (files w) in (r, devicesFile w, fs)
  | CopyFileSync src dest =>
      let '(r, fs) := copy_entry src dest (files w) in (r, devicesFile w, fs)
  | AppFetch rq => (dispatch w (trace w) rq, devicesFile w, files w)
  end.

Definition answer {X : Type} (e : Event X) (w : World) : X * World :=
  let '(x, devs, fs) := respond e w in
  (x, with_state w devs fs (trace w ++ [Build_Call e x])%list).

Fixpoint run {A : Type} (p : Prog A) (w : World) : A * World :=
  match p with
  | Ret a => (a, w)
  | Vis e k => let '(x, w') := answer e w in run (k x) w'
  end.

(** What the registry holds, as [loadDevices] reads it. *)
Definition registry (w : World) : list DeviceConfig := default [] (devicesFile w).

(** ** Statements of the specification *)

(** A path confined to [root]: the root itself, or the root followed by a
    separator and more. *)
Definition confined (root p : string) : Prop :=
  p = root ∨ JS.startsWith p (root ++ "/") = true.

(** A token that is there: not [undefined] and not blank. *)
Definition nonblank (o : option string) : option string :=
  let t := JS.trim (JS.or_else o "") in
  if JS.truthy t then Some t else None.

Fixpoint first_present {A : Type} (l : list (option A)) : option A :=
  match l with
  | [] => None
  | Some a :: _ => Some a
  | None :: l' => first_present l'
  end.

(** What follows [Bearer ] in the [Authorization] header, if it has that form. *)
Definition bearerToken (c : Request) : option string :=
  let h := JS.trim (JS.or_else (header c "authorization") "") in
  if JS.startsWith (JS.toLowerCase h) "bearer " then nonblank (Some (JS.slice_from 7 h))
  else None.

(** The caller's token: Bearer header, custom header, query parameter, in
    that order. *)
Definition incomingToken (c : Request) : option string :=
  first_present [bearerToken c;
                 nonblank (header c "x-file-explorer-token");
                 nonblank (searchParam c "token")].


(** ** Sample configurations and requests *)

Definition no_env : Env :=
  {| FILE_EXPLORER_ROOT := None; HOME := None; FILE_EXPLORER_DATA := None;
     FILE_EXPLORER_API_TOKEN := None; FILE_EXPLORER_ADMIN_TOKEN := None;
     FILE_EXPLORER_READ_TOKEN := None; cwd := "/srv/file-explorer" |}.

(** Browsing root [/home/user], no tokens. *)
Definition home_env : Env :=
  {| FILE_EXPLORER_ROOT := Some "/home/user"; HOME := Some "/home/user";
     FILE_EXPLORER_DATA := None; FILE_EXPLORER_API_TOKEN := None;
     FILE_EXPLORER_ADMIN_TOKEN := None; FILE_EXPLORER_READ_TOKEN := None;
     cwd := "/srv/file-explorer" |}.

(** Auth enabled with two different tokens. *)
Definition two_token_env : Env :=
  {| FILE_EXPLORER_ROOT := Some "/home/user"; HOME := Some "/home/user";
     FILE_EXPLORER_DATA := None; FILE_EXPLORER_API_TOKEN := None;
     FILE_EXPLORER_ADMIN_TOKEN := Some "admin-test-token";
     FILE_EXPLORER_READ_TOKEN := Some "read-test-token";
     cwd := "/srv/file-explorer" |}.

(** Auth enabled, the same secret configured for both roles. *)
Definition shared_token_env : Env :=
  {| FILE_EXPLORER_ROOT := Some "/home/user"; HOME := Some "/home/user";
     FILE_EXPLORER_DATA := None; FILE_EXPLORER_API_TOKEN := None;
     FILE_EXPLORER_ADMIN_TOKEN := Some "s3cret";
     FILE_EXPLORER_READ_TOKEN := Some "s3cret";
     cwd := "/srv/file-explorer" |}.

Definition bearer_request (m p token : string) : Request :=
  {| method := m; path := p;
     headers := {[ "authorization" := "Bearer " ++ token ]};
     query := [] |}.


Definition mini : DeviceConfig :=
  {| dc_id := "mini"; dc_name := "Mini"; dc_url := "http://host:3456";
     dc_sshHost := None; dc_sshRoot := None; dc_authToken := None;
     dc_icon := Some "🖥️"; dc_enabled := true |}.

(** ** Traces *)

(** The calls a handler makes when run in [w], with their answers. *)
Fixpoint calls {A : Type} (p : Prog A) (w : World) : list Call :=
  match p with
  | Ret _ => []
  | Vis e k => let '(x, w') := answer e w in Build_Call e x :: calls (k x) w'
  end.



(** A connectivity probe and its failure: the SSH command exits non-zero or
    prints no [ok]; the HTTP request throws or is answered outside 2xx. *)
Definition probe_failed (c : Call) : bool :=
  match call_event c in Event X return X -> bool with
  | SshExec _ _ _ => fun r => negb (code r =? 0)%Z || negb (JS.includes (stdout r) "ok")
  | HttpFetch _ => fun r =>
      match r with
      | Fetched st _ _ => negb (response_ok st)
      | FetchFailed _ => true
      end
  | _ => fun _ => false
  end (call_answer c).

(** [post p w Q]: running [p] in [w] ends with a result, a world and a list
    of calls that satisfy [Q]. *)
Definition post {A : Type} (p : Prog A) (w : World) (Q : A -> World -> list Call -> Prop)
  : Prop :=
  Q (run p w).1 (run p w).2 (calls p w).

(** ** Registry operations *)

Definition ids (devices : list DeviceConfig) : list string := List.map dc_id devices.

(** The name an add request derives the id from: the name, or for an SSH
    device without one the host. *)
Definition add_name (b : AddBody) : string :=
  if JS.truthy_opt (ab_sshHost b) then JS.or_else (ab_name b) (JS.or_else (ab_sshHost b) "")
  else JS.or_else (ab_name b) "".

(** The fields an add request must carry: [sshHost], or [name] and [url]. *)
Definition add_ready (b : AddBody) : bool :=
  JS.truthy_opt (ab_sshHost b) || (JS.truthy_opt (ab_name b) && JS.truthy_opt (ab_url b)).

Inductive RegistryOp :=
| OpList
| OpAdd (c : Request) (b : AddBody)
| OpUpdate (id : string) (b : UpdateBody)
| OpDelete (id : string)
| OpHealth (c : Request) (id : string).

Definition registryHandler (env : Env) (op : RegistryOp) : Prog Response :=
  match op with
  | OpList => getDevices
  | OpAdd c b => postDevices env c b
  | OpUpdate id b => putDevice id b
  | OpDelete id => deleteDevice id
  | OpHealth c id => getDeviceHealth env c id
  end.

(** The world after a sequence of requests, served one after the other. *)
Definition serve (env : Env) (ops : list RegistryOp) (w : World) : World :=
  List.fold_left (fun w op => (run (registryHandler env op) w).2) ops w.

(** A world with nothing in it and nothing reachable. *)
Definition offline : World :=
  {| devicesFile := None; settingsFile := None; files := ∅; trace := [];
     hostname := fun _ => Some "hub.local";
     clock := fun _ => 1700000000000%N;
     ssh := fun _ _ _ _ => {| stdout := ""; stderr := "timeout"; code := 124 |};
     sshBinary := fun _ _ _ _ => {| data := ""; bin_code := 124 |};
     fetch := fun _ _ => FetchFailed "Unable to connect";
     readdir := fun _ _ => Throw "ENOENT";
     dispatch := fun _ _ => json_error "Not Found" 404 |}.

(** A world in which every host answers. *)
Definition online : World :=
  {| devicesFile := None; settingsFile := None; files := ∅; trace := [];
     hostname := fun _ => Some "hub.local";
     clock := fun _ => 1700000000000%N;
     ssh := fun _ _ _ _ => {| stdout := "ok" ++ nl ++ "/home/ben" ++ nl; stderr := ""; code := 0 |};
     sshBinary := fun _ _ _ _ => {| data := ""; bin_code := 0 |};
     fetch := fun _ _ => Fetched 200 [] (PJson (JObj []));
     readdir := fun _ _ => Throw "ENOENT";
     dispatch := fun _ _ => json_error "Not Found" 404 |}.

Definition with_devices (w : World) (ds : list DeviceConfig) : World :=
  with_state w (Some ds) (files w) (trace w).

Definition plain_request (m p : string) : Request :=
  {| method := m; path := p; headers := ∅; query := [] |}.

Definition http_body (name url : string) : AddBody :=
  {| ab_name := Some name; ab_url := Some url; ab_icon := None; ab_sshHost := None;
     ab_sshRoot := None; ab_authToken := None |}.

Definition ssh_body (name : option string) (host : string) : AddBody :=
  {| ab_name := name; ab_url := None; ab_icon := None; ab_sshHost := Some host;
     ab_sshRoot := None; ab_authToken := None |}.

(** ** A collation *)

(** [localeCompare] on letters and digits as the root collation of the
    runtime's ICU orders them: strings are compared by their letters and
    digits first, digits before letters and letters whatever their case; of
    two strings equal in that, the one with the lower-case letter at the
    first difference comes first.  Other characters are placed before the
    digits, in code order; the root collation orders them among themselves
    in its own way, and nothing below depends on that part. *)
Module Collation.

Definition primary (c : ascii) : N :=
  let n := N_of_ascii c in
  if JS.is_digit c then 1000 + n
  else if JS.is_lower c then 2000 + n
  else if JS.is_upper c then 2000 + n + 32
  else n.

Definition tertiary (c : ascii) : N := if JS.is_upper c then 1 else 0.

Fixpoint compare_by (weight : ascii -> N) (a b : string) : comparison :=
  match a, b with
  | EmptyString, EmptyString => Eq
  | EmptyString, String _ _ => Lt
  | String _ _, EmptyString => Gt
  | String x a', String y b' =>
      match N.compare (weight x) (weight y) with
      | Eq => compare_by weight a' b'
      | r => r
      end
  end.

Definition compare (a b : string) : Z :=
  match compare_by primary a b with
  | Lt => (-1)%Z
  | Gt => 1%Z
  | Eq =>
      match compare_by tertiary a b with
      | Lt => (-1)%Z
      | Gt => 1%Z
      | Eq => 0%Z
      end
  end.

End Collation.


(** A runtime for the examples: the collation above, and stand-ins for
    base64 and the fuzzy search. *)
Definition sample_runtime : Runtime :=
  {| localeCompare := Collation.compare;
     toBase64 := fun s => s;
     fuseSearch := fun items q => List.filter (fun f => JS.includes (fi_name f) q) items;
     invalidDate := "Invalid Date";
     parseURL := fun s =>
       if JS.startsWith s "http://" || JS.startsWith s "https://" then Some (s, [])
       else None |}.

Definition disabled (d : DeviceConfig) : DeviceConfig :=
  {| dc_id := dc_id d; dc_name := dc_name d; dc_url := dc_url d;
     dc_sshHost := dc_sshHost d; dc_sshRoot := dc_sshRoot d;
     dc_authToken := dc_authToken d; dc_icon := dc_icon d; dc_enabled := false |}.

(** ** Public representations *)

(** The synthetic entry that heads the device list. *)
Definition localEntry (name icon : string) : PublicDeviceConfig :=
  {| pd_id := "local"; pd_name := name; pd_url := ""; pd_sshHost := None;
     pd_sshRoot := None; pd_icon := Some icon; pd_enabled := true;
     pd_hasAuthToken := None; pd_isLocal := Some true |}.

(** The same record with another token, or none. *)
Definition set_token (d : DeviceConfig) (token : option string) : DeviceConfig :=
  {| dc_id := dc_id d; dc_name := dc_name d; dc_url := dc_url d;
     dc_sshHost := dc_sshHost d; dc_sshRoot := dc_sshRoot d;
     dc_authToken := token; dc_icon := dc_icon d; dc_enabled := dc_enabled d |}.

(** An object without one of its keys. *)
Definition json_remove (key : string) (j : Json) : Json :=
  match j with
  | JObj fields => JObj (List.filter (fun kv => negb (String.eqb (fst kv) key)) fields)
  | _ => j
  end.

(** The [device] field of a success answer. *)
Definition answered_device (r : Response) : option Json :=
  match payload r with
  | PJson j => json_get "device" j
  | PStream _ => None
  end.

(** The [devices] array of the list answer. *)
Definition answered_devices (r : Response) : list Json :=
  match payload r with
  | PJson j => match json_get "devices" j with Some (JArr l) => l | _ => [] end
  | PStream _ => []
  end.

(** ** The slug, in the words of the specification *)

(** The maximal runs of a string: each with whether its characters are in
    [a-z0-9]. *)
Fixpoint runs (s : string) : list (bool * string) :=
  match s with
  | EmptyString => []
  | String c s' =>
      let k := Re.is_slug_char c in
      match runs s' with
      | (k', r) :: rest =>
          if Bool.eqb k k' then (k, String c r) :: rest
          else (k, String c "") :: (k', r) :: rest
      | [] => [(k, String c "")]
      end
  end.

(** A run of characters outside [a-z0-9] becomes one hyphen. *)
Definition render_run (r : bool * string) : string :=
  if fst r then snd r else "-".

Fixpoint render_runs (l : list (bool * string)) : string :=
  match l with
  | [] => ""
  | r :: l' => render_run r ++ render_runs l'
  end.

Fixpoint strip_leading_hyphens (s : string) : string :=
  match s with
  | String c s' => if Ascii.eqb c "-" then strip_leading_hyphens s' else s
  | EmptyString => EmptyString
  end.

Fixpoint strip_trailing_hyphens (s : string) : string :=
  match s with
  | EmptyString => EmptyString
  | String c s' =>
      match strip_trailing_hyphens s' with
      | EmptyString => if Ascii.eqb c "-" then EmptyString else String c EmptyString
      | t => String c t
      end
  end.

(** Lowercased, runs outside [a-z0-9] replaced by a hyphen, hyphens at both
    ends removed. *)
Definition slug_spec (name : string) : string :=
  strip_trailing_hyphens (strip_leading_hyphens (render_runs (runs (JS.toLowerCase name)))).

Fixpoint no_double_hyphen (s : string) : bool :=
  match s with
  | String a ((String b _) as s') =>
      negb (Ascii.eqb a "-" && Ascii.eqb b "-") && no_double_hyphen s'
  | _ => true
  end.

Definition starts_with_hyphen (s : string) : bool :=
  match s with
  | String c _ => Ascii.eqb c "-"
  | EmptyString => false
  end.

(** ** Duplicates *)



(** Where a call copies to, if it copies. *)
Definition copy_target (c : Call) : option string :=
  match call_event c with
  | CpSync _ dest | CopyFileSync _ dest => Some dest
  | _ => None
  end.

(** What a call copies: whether it is the recursive [cpSync], the source and
    the destination. *)
Definition copied (c : Call) : option (bool * string * string) :=
  match call_event c with
  | CpSync src dest => Some (true, src, dest)
  | CopyFileSync src dest => Some (false, src, dest)
  | _ => None
  end.



(** The commands a run sends over SSH. *)
Definition ssh_commands (l : list Call) : list string :=
  omap (fun c => match call_event c with
                 | SshExec _ command _ | SshExecBinary _ command _ => Some command
                 | _ => None
                 end) l.

Definition NoSlash (s : string) : Prop := "/"%char ∉ Path.chars s.

Definition ssh_device (id host root : string) : DeviceConfig :=
  {| dc_id := id; dc_name := id; dc_url := ""; dc_sshHost := Some host;
     dc_sshRoot := Some root; dc_authToken := None; dc_icon := None; dc_enabled := true |}.

Definition path_body (p : string) : FileOpBody :=
  {| fb_path := Some p; fb_content := None; fb_from := None; fb_to := None |}.

Definition plain_stats : Stats := {| st_isDirectory := false; st_size := 5; st_mtimeMs := 0 |}.

(** A name [path.join] appends as it is: a single segment that is neither
    empty nor a dot segment. *)
Definition PlainName (name : string) : Prop :=
  NoSlash name ∧ name ≠ "" ∧ name ≠ "." ∧ name ≠ "..".

(** A home directory that already holds [notes.txt] and [notes copy.txt]. *)
Definition home_with_copy : World :=
  with_state online None
    (<["/home/user/notes.txt" := plain_stats]>
       (<["/home/user/notes copy.txt" := plain_stats]> ∅)) [].

Definition macbook : DeviceConfig := ssh_device "macbook" "bens-macbook-air" "/Users/ben".

Definition duplicate_request : Request :=
  plain_request "POST" "/api/d/macbook/duplicate".

(** ** A directory, seen from both sides *)

(** What a directory holds under one name: the kind, the size in bytes and
    the modification time in seconds since the epoch. *)
Record Entry := {
  e_name : string;
  e_isDir : bool;
  e_size : N;
  e_mtime : N
}.

(** The two spellings of a file type the parser of the listing knows: that
    of [%HT] (BSD [stat]) and that of [%F] (GNU [stat]). *)
Inductive Dialect := BSD | GNU.

Definition type_word (d : Dialect) (isDir : bool) : string :=
  match d, isDir with
  | BSD, true => "Directory"
  | BSD, false => "Regular File"
  | GNU, true => "directory"
  | GNU, false => "regular file"
  end.

(** The line the two formats of the listing command, ['%HT|%N|%z|%m'] and
    ['%F|%n|%s|%Y'], describe for an entry: [type|name|size|mtime]. *)
Definition stat_line (d : Dialect) (e : Entry) : string :=
  type_word d (e_isDir e) ++ "|" ++ e_name e ++ "|" ++ JS.of_N (e_size e) ++ "|"
  ++ JS.of_N (e_mtime e).

(** The local handler leaves names that start with a dot out unless hidden
    files are asked for; the listing command leaves that to [ls -1] and
    [ls -1 -a]. *)
Definition visible (showHidden : bool) (name : string) : bool :=
  showHidden || negb (JS.startsWith name ".").

Fixpoint unlines (lines : list string) : string :=
  match lines with
  | [] => ""
  | l :: rest => l ++ nl ++ unlines rest
  end.

(** The output the parser of [sshListFiles] is written for: one line
    [type|name|size|mtime] for each entry [ls] lists, in the order given, and
    nothing else.  It is the premise of the agreement of the two listings,
    not an account of every remote: a BSD [stat] prints it for directories
    and plain files whose names do not begin with a hyphen, while a GNU
    [stat] reads [-f] as its file-system mode and prints lines of another
    kind before each entry, on which the parser throws. *)
Definition listing_output (d : Dialect) (showHidden : bool) (entries : list Entry) : string :=
  unlines (List.map (stat_line d) (List.filter (fun e => visible showHidden (e_name e)) entries)).

(** What [readdirSync] and [statSync] give for the same entries. *)
Definition dirent_of (e : Entry) : Dirent :=
  {| de_name := e_name e; de_isDirectory := e_isDir e |}.

Definition stats_of (e : Entry) : Stats :=
  {| st_isDirectory := e_isDir e;
     st_size := Z.of_N (e_size e);
     st_mtimeMs := (Z.of_N (e_mtime e) * 1000)%Z |}.








(** The local item of an entry, once [statSync] has answered from [fs]. *)
Definition localItemOf (env : Env) (safePath : string) (fs : gmap string Stats)
    (entry : Dirent) : FileItem :=
  let fullPath := Path.join [safePath; de_name entry] in
  {| fi_name := de_name entry;
     fi_path := Path.relative (cwd env) (ROOT_DIR env) fullPath;
     fi_isDirectory := de_isDirectory entry;
     fi_icon := getFileIcon (de_name entry) (de_isDirectory entry);
     fi_size := match fs !! fullPath with Some stats => st_size stats | None => 0%Z end;
     fi_modified := match fs !! fullPath with
                    | Some stats => Some (st_mtimeMs stats)
                    | None => None
                    end |}.



(** ** A directory served over both routes *)

Definition sample_entries : list Entry :=
  [ {| e_name := "B"; e_isDir := false; e_size := 12; e_mtime := 1700000000 |};
    {| e_name := "a"; e_isDir := false; e_size := 34; e_mtime := 1700000100 |};
    {| e_name := "src"; e_isDir := true; e_size := 4096; e_mtime := 1700000200 |} ].

(** A world in which [root] is a directory holding [rdOrder], in the order
    [readdirSync] gives them, and every listing command is answered with one
    line for each entry of [lsOrder]. *)
Definition shared_directory (d : Dialect) (root : string) (showHidden : bool)
    (lsOrder rdOrder : list Entry) : World :=
  {| devicesFile := None; settingsFile := None;
     files :=
       list_to_map
         ((root, {| st_isDirectory := true; st_size := 4096; st_mtimeMs := 0 |})
          :: List.map (fun e => (Path.join [root; e_name e], stats_of e)) rdOrder);
     trace := [];
     hostname := fun _ => Some "hub.local";
     clock := fun _ => 1700000000000%N;
     ssh := fun _ _ _ _ =>
              {| stdout := listing_output d showHidden lsOrder; stderr := ""; code := 0 |};
     sshBinary := fun _ _ _ _ => {| data := ""; bin_code := 0 |};
     fetch := fun _ _ => FetchFailed "Unable to connect";
     readdir := fun _ _ => Return (List.map dirent_of rdOrder);
     dispatch := fun _ _ => json_error "Not Found" 404 |}.

Definition sample_directory : World :=
  shared_directory BSD "/home/user" false sample_entries (List.rev sample_entries).


(** ** Statements about strings and orders *)

(** Some character of [s] is not white space. *)
Fixpoint has_nonspace (s : string) : bool :=
  match s with
  | EmptyString => false
  | String c s' => negb (JS.is_space c) || has_nonspace s'
  end.

Fixpoint last_char (s : string) : option ascii :=
  match s with
  | EmptyString => None
  | String c EmptyString => Some c
  | String _ s' => last_char s'
  end.

(** The runs of a string once a leading run outside [a-z0-9] is gone. *)
Definition after_separator (l : list (bool * string)) : list (bool * string) :=
  match l with
  | (false, _) :: rest => rest
  | _ => l
  end.

(** [a] may come before [b] in an array sorted with [cmp]. *)
Definition before {A : Type} (cmp : A -> A -> Z) (a b : A) : Prop := (cmp a b <= 0)%Z.

(** [cmp] orders the elements of [l]: any two compare and the order is
    transitive. *)
Definition orders {A : Type} (cmp : A -> A -> Z) (l : list A) : Prop :=
  (∀ a b, a ∈ l → b ∈ l → before cmp a b ∨ before cmp b a)
  ∧ (∀ a b c, a ∈ l → b ∈ l → c ∈ l → before cmp a b → before cmp b c → before cmp a c).

(** ** Statements about the registry *)

(** A stored URL that does not end with a slash. *)
Definition url_clean (d : DeviceConfig) : Prop := last_char (dc_url d) ≠ Some "/"%char.

(** ** Statements about the SSH adapter *)

(** The operations the SSH branch of the device proxy serves, each with its
    method; [recent] is served under every method. *)
Definition ssh_operations : list (string * string) :=
  [("files", "GET"); ("search", "GET"); ("preview", "GET"); ("info", "GET");
   ("download", "GET"); ("mkdir", "POST"); ("touch", "POST"); ("rename", "POST");
   ("delete", "POST"); ("save", "POST"); ("duplicate", "POST")].

(** A remote whose directory holds a file named [a], a line break, [b]:
    [stat] prints the name over two lines. *)
Definition broken_listing : World :=
  {| devicesFile := None; settingsFile := None; files := ∅; trace := [];
     hostname := fun _ => Some "hub.local";
     clock := fun _ => 1700000000000%N;
     ssh := fun _ _ _ _ =>
              {| stdout := "regular file|a" ++ nl ++ "b|3|1700000000" ++ nl;
                 stderr := ""; code := 0 |};
     sshBinary := fun _ _ _ _ => {| data := ""; bin_code := 0 |};
     fetch := fun _ _ => FetchFailed "Unable to connect";
     readdir := fun _ _ => Throw "ENOENT";
     dispatch := fun _ _ => json_error "Not Found" 404 |}.

(** ** Statements about the HTTP proxy *)





(** The requests a run hands to the application's own dispatcher. *)
Definition dispatched (l : list Call) : list Request :=
  omap (fun c => match call_event c with
                 | AppFetch rq => Some rq
                 | _ => None
                 end) l.

(** ** The shape of a slug *)

Fixpoint slug_chars (s : string) : bool :=
  match s with
  | EmptyString => true
  | String c s' => (Re.is_slug_char c || Ascii.eqb c "-") && slug_chars s'
  end.

Definition ends_with_hyphen (s : string) : bool :=
  match last_char s with
  | Some c => Ascii.eqb c "-"
  | None => false
  end.

(** Letters [a-z], digits and single hyphens, with no hyphen at either end. *)
Definition slug_shaped (s : string) : bool :=
  slug_chars s && no_double_hyphen s && negb (starts_with_hyphen s)
  && negb (ends_with_hyphen s).

(** ** Recent files *)

(** An entry of the in-memory list [recentFiles], its fields at their
    declared types. *)
Record RecentFile := {
  rf_path : string;
  rf_name : string;
  rf_accessedAt : N;
  rf_type : string;
  rf_size : Z
}.

(** The body of [POST /api/recent]. *)
Record RecentBody := {
  rb_path : string;
  rb_name : string;
  rb_type : string;
  rb_size : Z
}.

Definition MAX_RECENT : nat := 50.

Definition recent_json (f : RecentFile) : Json :=
  JObj [("path", JStr (rf_path f)); ("name", JStr (rf_name f));
        ("accessedAt", JNum (Z.of_N (rf_accessedAt f))); ("type", JStr (rf_type f));
        ("size", JNum (rf_size f))].

(** [GET /api/recent] *)
Definition getRecent (recentFiles : list RecentFile) : Response :=
  json (JObj [("files", JArr (List.map recent_json recentFiles))]) 200.

(** [POST /api/recent]: the list after the request, and the answer; [now]
    is what [Date.now()] returns. *)
Definition postRecent (body : RecentBody) (now : N) (recentFiles : list RecentFile)
  : list RecentFile * Response :=
  let filtered := List.filter (fun f => negb (String.eqb (rf_path f) (rb_path body))) recentFiles in
  let unshifted :=
    {| rf_path := rb_path body; rf_name := rb_name body; rf_accessedAt := now;
       rf_type := rb_type body; rf_size := rb_size body |} :: filtered in
  let trimmed :=
    if (MAX_RECENT <? List.length unshifted)%nat then take MAX_RECENT unshifted
    else unshifted in
  (trimmed, json (JObj [("success", JBool true)]) 200).

(** The list after a sequence of such requests, from the empty list the
    server starts with. *)
Definition recent_after (posts : list (RecentBody * N)) : list RecentFile :=
  List.fold_left (fun st bn => (postRecent (fst bn) (snd bn) st).1) posts [].

(** ** Settings and combo views *)

(** What a handler of the settings family answers: [Ok a] stands for
    [c.json({ success: true, ...a })], [Fail code message] for
    [c.json({ error: message }, code)]. *)
Inductive Answered (A : Type) :=
| Ok (a : A)
| Fail (code : N) (message : string).

Arguments Ok {A} a.
Arguments Fail {A} code message.

(** [loadSettings] on the content of [settings.json] ([None] for a missing
    or unparsable file). *)
Definition settings_of (file : option SettingsData) : SettingsData :=
  default {| localName := None; localIcon := None; comboViews := [] |} file.

(** The body of [PUT /api/settings], the fields at their declared types. *)
Record SettingsBody := {
  sb_localName : option string;
  sb_localIcon : option string
}.

(** [value || undefined] *)
Definition or_undefined (value : string) : option string :=
  if JS.truthy value then Some value else None.

(** The handlers below return their answer and what they hand to
    [saveSettings]: [None] when nothing is written. *)

(** [GET /api/settings] *)
Definition getSettings (file : option SettingsData) : SettingsData := settings_of file.

(** [PUT /api/settings] *)
Definition putSettings (body : SettingsBody) (file : option SettingsData)
  : Answered SettingsData * option SettingsData :=
  let settings := settings_of file in
  let settings :=
    match sb_localName body with
    | Some n => {| localName := or_undefined n; localIcon := localIcon settings;
                   comboViews := comboViews settings |}
    | None => settings
    end in
  let settings :=
    match sb_localIcon body with
    | Some i => {| localName := localName settings; localIcon := or_undefined i;
                   comboViews := comboViews settings |}
    | None => settings
    end in
  (Ok settings, Some settings).

(** [GET /api/combos] *)
Definition getCombos (file : option SettingsData) : list ComboView :=
  comboViews (settings_of file).

(** The body of [POST /api/combos]; [cb_deviceIds] is [None] when the field
    is missing or is no array. *)
Record ComboBody := {
  cb_name : option string;
  cb_icon : option string;
  cb_deviceIds : option (list string)
}.

Definition has_combo_id (id : string) (v : ComboView) : bool := String.eqb (cv_id v) id.

(** [POST /api/combos]; [now] is what [Date.now()] returns if it is asked. *)
Definition postCombo (body : ComboBody) (now : N) (file : option SettingsData)
  : Answered ComboView * option SettingsData :=
  if negb (JS.truthy_opt (cb_name body)) then (Fail 400 "name required", None)
  else
    match cb_deviceIds body with
    | None | Some [] => (Fail 400 "deviceIds required (array of device IDs)", None)
    | Some deviceIds =>
        let name := JS.or_else (cb_name body) "" in
        let settings := settings_of file in
        let slug := slugify name in
        let id := if JS.truthy slug then slug else "combo-" ++ JS.of_N now in
        if List.existsb (has_combo_id id) (comboViews settings) then
          (Fail 409 "Combo view with this name already exists", None)
        else
          let combo := {| cv_id := id; cv_name := name;
                          cv_icon := JS.or_else (cb_icon body) "📁";
                          cv_deviceIds := deviceIds |} in
          (Ok combo,
           Some {| localName := localName settings; localIcon := localIcon settings;
                   comboViews := (comboViews settings ++ [combo])%list |})
    end.

(** The body of [PUT /api/combos/:id]. *)
Record ComboUpdate := {
  cu_name : option string;
  cu_icon : option string;
  cu_deviceIds : option (list string)
}.

Definition applyComboUpdate (b : ComboUpdate) (v : ComboView) : ComboView :=
  {| cv_id := cv_id v;
     cv_name := default (cv_name v) (cu_name b);
     cv_icon := default (cv_icon v) (cu_icon b);
     cv_deviceIds := default (cv_deviceIds v) (cu_deviceIds b) |}.

(** [PUT /api/combos/:id] *)
Definition putCombo (id : string) (body : ComboUpdate) (file : option SettingsData)
  : Answered ComboView * option SettingsData :=
  let settings := settings_of file in
  match list_find (fun v => cv_id v = id) (comboViews settings) with
  | None => (Fail 404 "Combo view not found", None)
  | Some (idx, v) =>
      let v' := applyComboUpdate body v in
      (Ok v',
       Some {| localName := localName settings; localIcon := localIcon settings;
               comboViews := <[idx := v']> (comboViews settings) |})
  end.

(** [DELETE /api/combos/:id] *)
Definition deleteCombo (id : string) (file : option SettingsData)
  : Answered unit * option SettingsData :=
  let settings := settings_of file in
  let filtered := List.filter (fun v => negb (has_combo_id id v)) (comboViews settings) in
  if (List.length filtered =? List.length (comboViews settings))%nat then
    (Fail 404 "Combo view not found", None)
  else
    (Ok tt,
     Some {| localName := localName settings; localIcon := localIcon settings;
             comboViews := filtered |}).

(** Requests to the settings family, and the file after one of them. *)
Inductive SettingsOp :=
| OpPutSettings (body : SettingsBody)
| OpPostCombo (body : ComboBody) (now : N)
| OpPutCombo (id : string) (body : ComboUpdate)
| OpDeleteCombo (id : string).

Definition written (op : SettingsOp) (file : option SettingsData) : option SettingsData :=
  match op with
  | OpPutSettings body => (putSettings body file).2
  | OpPostCombo body now => (postCombo body now file).2
  | OpPutCombo id body => (putCombo id body file).2
  | OpDeleteCombo id => (deleteCombo id file).2
  end.

Definition settings_step (file : option SettingsData) (op : SettingsOp) : option SettingsData :=
  match written op file with
  | Some settings => Some settings
  | None => file
  end.

Definition settings_after (ops : list SettingsOp) (file : option SettingsData)
  : option SettingsData :=
  List.fold_left settings_step ops file.

Definition combo_ids (file : option SettingsData) : list string :=
  List.map cv_id (comboViews (settings_of file)).

(** The world with another settings file. *)
Definition with_settings (w : World) (file : option SettingsData) : World :=
  {| devicesFile := devicesFile w; settingsFile := file; files := files w; trace := trace w;
     hostname := hostname w; clock := clock w; ssh := ssh w; sshBinary := sshBinary w;
     fetch := fetch w; readdir := readdir w; dispatch := dispatch w |}.

(** ** Local file operations *)

(** What the write handlers ask of [fs]: [mkdirSync] is called with
    [recursive: true], [rmSync] with [recursive: true, force: true]. *)
Inductive FsCall : Type -> Type :=
| FsExists (p : string) : FsCall bool
| FsStat (p : string) : FsCall (Outcome Stats)
| FsMkdir (p : string) : FsCall (Outcome unit)
| FsWriteFile (p content : string) : FsCall (Outcome unit)
| FsRename (source target : string) : FsCall (Outcome unit)
| FsRm (p : string) : FsCall (Outcome unit)
| FsUnlink (p : string) : FsCall (Outcome unit).

Inductive Script (A : Type) : Type :=
| Done (a : A)
| Ask {X : Type} (e : FsCall X) (k : X -> Script A).

Arguments Done {A} a.
Arguments Ask {A X} e k.

Record FsAsked := { asked_type : Type; asked_call : FsCall asked_type }.

Arguments Build_FsAsked {asked_type} asked_call.

(** A disk answers every call, knowing what was asked before. *)
Definition Disk : Type := forall X : Type, list FsAsked -> FsCall X -> X.

(** The answer of a script on a disk, and the calls it made, oldest first. *)
Fixpoint exec {A : Type} (disk : Disk) (p : Script A) (past : list FsAsked)
  : A * list FsAsked :=
  match p with
  | Done a => (a, past)
  | Ask e k => exec disk (k (disk _ past e)) (past ++ [Build_FsAsked e])%list
  end.

(** [c.json({ error: error.message || fallback }, 500)] *)
Definition failed (message fallback : string) : Response :=
  json_error (JS.or_else (Some message) fallback) 500.

Definition success_at (p : string) : Response :=
  json (JObj [("success", JBool true); ("path", JStr p)]) 200.

(** [POST /api/mkdir] *)
Definition postMkdir (env : Env) (dirPath : string) : Script Response :=
  match resolveSafePath env dirPath with
  | None => Done (json_error "Invalid path" 400)
  | Some safePath =>
      Ask (FsMkdir safePath) (fun r =>
        match r with
        | Return _ => Done (success_at dirPath)
        | Throw m => Done (failed m "Failed to create folder")
        end)
  end.

(** [POST /api/touch] *)
Definition postTouch (env : Env) (filePath : string) (content : option string)
  : Script Response :=
  match resolveSafePath env filePath with
  | None => Done (json_error "Invalid path" 400)
  | Some safePath =>
      let dir := Path.dirname safePath in
      let write :=
        Ask (FsWriteFile safePath (JS.or_else content "")) (fun r =>
          match r with
          | Return _ => Done (success_at filePath)
          | Throw m => Done (failed m "Failed to create file")
          end) in
      Ask (FsExists dir) (fun there =>
        if (there : bool) then write
        else
          Ask (FsMkdir dir) (fun r =>
            match r with
            | Return _ => write
            | Throw m => Done (failed m "Failed to create file")
            end))
  end.

(** [POST /api/rename] *)
Definition postRename (env : Env) (source target : string) : Script Response :=
  match resolveSafePath env source, resolveSafePath env target with
  | Some safeFrom, Some safeTo =>
      Ask (FsExists safeTo) (fun there =>
        if (there : bool) then Done (json_error "Destination already exists" 409)
        else
          Ask (FsRename safeFrom safeTo) (fun r =>
            match r with
            | Return _ => Done success
            | Throw m => Done (failed m "Failed to rename")
            end))
  | _, _ => Done (json_error "Invalid path" 400)
  end.

(** [POST /api/delete] *)
Definition postDelete (env : Env) (targetPath : string) : Script Response :=
  match resolveSafePath env targetPath with
  | None => Done (json_error "Invalid path" 400)
  | Some safePath =>
      if String.eqb safePath (ROOT_DIR env) then
        Done (json_error "Cannot delete root directory" 400)
      else
        Ask (FsStat safePath) (fun st =>
          match st with
          | Throw m => Done (failed m "Failed to delete")
          | Return stats =>
              let removed r :=
                match r with
                | Return _ => Done success
                | Throw m => Done (failed m "Failed to delete")
                end in
              if st_isDirectory stats then Ask (FsRm safePath) removed
              else Ask (FsUnlink safePath) removed
          end)
  end.

(** [POST /api/save] *)
Definition postSave (env : Env) (filePath content : string) : Script Response :=
  match resolveSafePath env filePath with
  | None => Done (json_error "Invalid path" 400)
  | Some safePath =>
      Ask (FsWriteFile safePath content) (fun r =>
        match r with
        | Return _ => Done success
        | Throw m => Done (failed m "Failed to save")
        end)
  end.

(** The write requests of the local API. *)
Inductive LocalOp :=
| LMkdir (dirPath : string)
| LTouch (filePath : string) (content : option string)
| LRename (source target : string)
| LDelete (targetPath : string)
| LSave (filePath content : string).

Definition localHandler (env : Env) (op : LocalOp) : Script Response :=
  match op with
  | LMkdir dirPath => postMkdir env dirPath
  | LTouch filePath content => postTouch env filePath content
  | LRename source target => postRename env source target
  | LDelete targetPath => postDelete env targetPath
  | LSave filePath content => postSave env filePath content
  end.

(** The paths a call creates, writes, moves or removes. *)
Definition touched (a : FsAsked) : list string :=
  match asked_call a with
  | FsExists _ | FsStat _ => []
  | FsMkdir p | FsWriteFile p _ | FsRm p | FsUnlink p => [p]
  | FsRename source target => [source; target]
  end.

(** The directory [touch] creates when the parent of the new file is not
    there. *)
Definition touch_parent (env : Env) (op : LocalOp) (a : FsAsked) : Prop :=
  ∃ filePath content safePath,
    op = LTouch filePath content ∧ resolveSafePath env filePath = Some safePath
    ∧ a = Build_FsAsked (FsMkdir (Path.dirname safePath)).

(** A disk on which everything exists and every call succeeds, and one on
    which nothing exists and every call fails. *)
Definition full_disk : Disk :=
  fun X _ e =>
    match e in FsCall X return X with
    | FsExists _ => true
    | FsStat _ => Return {| st_isDirectory := false; st_size := 0; st_mtimeMs := 0 |}
    | FsMkdir _ | FsWriteFile _ _ | FsRename _ _ | FsRm _ | FsUnlink _ => Return tt
    end.

Definition empty_disk : Disk :=
  fun X _ e =>
    match e in FsCall X return X with
    | FsExists _ => false
    | FsStat _ => Throw "ENOENT: no such file or directory"
    | FsMkdir _ | FsWriteFile _ _ | FsRename _ _ | FsRm _ | FsUnlink _ => Throw "EACCES"
    end.

(** ** Local search *)

Definition searchItem (env : Env) (dir : string) (entry : Dirent) : FileItem :=
  let fullPath := Path.join [dir; de_name entry] in
  {| fi_name := de_name entry;
     fi_path := Path.relative (cwd env) (ROOT_DIR env) fullPath;
     fi_isDirectory := de_isDirectory entry;
     fi_icon := getFileIcon (de_name entry) (de_isDirectory entry);
     fi_size := 0%Z;
     fi_modified := None |}.

(** [searchDir(dir, depth)], with [results] the array all calls push to.
    [levels] counts the depth limit down: it is [6 - depth], so that
    [depth > 5] reads [levels = 0].  A directory that cannot be read is
    passed over. *)
Fixpoint searchDir (env : Env) (levels : nat) (dir : string) (results : list FileItem)
  : Prog (list FileItem) :=
  match levels with
  | O => mret results
  | S levels' =>
      if (100 <=? List.length results)%nat then mret results
      else
        es ← trigger (ReaddirSync dir);
        match es with
        | Throw _ => mret results
        | Return entries =>
            (fix each (entries : list Dirent) (results : list FileItem) {struct entries}
               : Prog (list FileItem) :=
               match entries with
               | [] => mret results
               | entry :: rest =>
                   if JS.startsWith (de_name entry) "." then each rest results
                   else
                     let results := (results ++ [searchItem env dir entry])%list in
                     if de_isDirectory entry && (List.length results <? 100)%nat then
                       results ← searchDir env levels' (Path.join [dir; de_name entry]) results;
                       each rest results
                     else each rest results
               end) entries results
        end
  end.

(** [GET /api/search] *)
Definition getSearch (rt : Runtime) (env : Env) (c : Request) : Prog Response :=
  let query := JS.or_else (searchParam c "q") "" in
  let searchPath := JS.or_else (searchParam c "path") "" in
  if negb (JS.truthy query) || (String.length query <? 2)%nat then
    mret (json (JObj [("results", JArr [])]) 200)
  else
    match resolveSafePath env searchPath with
    | None => mret (json_error "Invalid path" 400)
    | Some safePath =>
        results ← searchDir env 6 safePath [];
        mret (json (JObj [("results",
                           JArr (List.map search_item_json
                                   (take 50 (fuseSearch rt results query))))]) 200)
    end.





(** A home directory with a hidden directory and a visible one. *)
Definition home_tree : World :=
  {| devicesFile := None; settingsFile := None; files := ∅; trace := [];
     hostname := fun _ => Some "hub.local";
     clock := fun _ => 1700000000000%N;
     ssh := fun _ _ _ _ => {| stdout := ""; stderr := "timeout"; code := 124 |};
     sshBinary := fun _ _ _ _ => {| data := ""; bin_code := 124 |};
     fetch := fun _ _ => FetchFailed "Unable to connect";
     readdir := fun _ p =>
       if String.eqb p "/home/user" then
         Return [ {| de_name := ".git"; de_isDirectory := true |};
                  {| de_name := "notes"; de_isDirectory := true |};
                  {| de_name := "notes.txt"; de_isDirectory := false |} ]
       else if String.eqb p "/home/user/notes" then
         Return [ {| de_name := "notes-2024.md"; de_isDirectory := false |};
                  {| de_name := ".notes.swp"; de_isDirectory := false |} ]
       else if String.eqb p "/home/user/.git" then
         Return [ {| de_name := "config"; de_isDirectory := false |} ]
       else Throw "ENOENT";
     dispatch := fun _ _ => json_error "Not Found" 404 |}.

Definition search_request (q : string) : Request :=
  {| method := "GET"; path := "/api/search"; headers := ∅; query := [("q", q)] |}.

(** * Properties *)

(** ** Strings *)

Lemma eqb_false_iff (a b : string) : String.eqb a b = false ↔ a ≠ b.
Proof. apply String.eqb_neq. Qed.

Lemma truthy_true (s : string) : JS.truthy s = true ↔ s ≠ "".
Proof. unfold JS.truthy. rewrite negb_true_iff. apply String.eqb_neq. Qed.

Lemma truthy_false (s : string) : JS.truthy s = false ↔ s = "".
Proof. unfold JS.truthy. rewrite negb_false_iff. apply String.eqb_eq. Qed.

Lemma trimEnd_empty (s : string) : JS.trimEnd s = "" ↔ has_nonspace s = false.
Proof.
  induction s as [|c s IH]; simpl; [done|].
  destruct (JS.trimEnd s) eqn:E, (JS.is_space c) eqn:Hc; simpl; split; try done.
  - intros _. by apply IH.
  - intros H. destruct IH as [_ IH]. by specialize (IH H).
Qed.








Lemma nonblank_Some (o : option string) (t : string) : nonblank o = Some t → t ≠ "".
Proof.
  unfold nonblank. destruct (JS.truthy _) eqn:E; [|done].
  intros [= <-]. by apply truthy_true.
Qed.

(** ** Auth gate *)

Lemma or_else_Some_empty (s : string) : JS.or_else (Some s) "" = s.
Proof. unfold JS.or_else. destruct (JS.truthy s) eqn:E; [done|]. by apply truthy_false in E. Qed.


Lemma getTokenFromRequest_nonempty (c : Request) (t : string) :
  getTokenFromRequest c = Some t → t ≠ "".
Proof.
  unfold getTokenFromRequest.
  repeat match goal with
         | |- context [if ?b then _ else _] => destruct b eqn:?
         end; intros [= <-]; by apply truthy_true.
Qed.

Lemma getAuthRole_disabled (env : Env) (token : option string) :
  AUTH_ENABLED env = false → getAuthRole env token = Some admin.
Proof. unfold getAuthRole. by intros ->. Qed.

Lemma getAuthRole_admin (env : Env) (c : Request) :
  getTokenFromRequest c = Some (ADMIN_API_TOKEN env) →
  getAuthRole env (getTokenFromRequest c) = Some admin.
Proof.
  intros E. pose proof (getTokenFromRequest_nonempty _ _ E) as Hne.
  apply truthy_true in Hne. unfold getAuthRole. rewrite E. cbn [JS.truthy_opt].
  rewrite Hne, bool_decide_eq_true_2 by done. cbn.
  by destruct (negb (AUTH_ENABLED env)).
Qed.

Lemma getAuthRole_read (env : Env) (c : Request) :
  AUTH_ENABLED env = true →
  getTokenFromRequest c = Some (READ_API_TOKEN env) →
  READ_API_TOKEN env ≠ ADMIN_API_TOKEN env →
  getAuthRole env (getTokenFromRequest c) = Some read.
Proof.
  intros Ha E Hd. pose proof (getTokenFromRequest_nonempty _ _ E) as Hne.
  apply truthy_true in Hne. unfold getAuthRole. rewrite Ha, E. cbn [JS.truthy_opt negb].
  rewrite Hne. rewrite (bool_decide_eq_false_2 (Some _ = Some (ADMIN_API_TOKEN env)))
    by congruence.
  rewrite bool_decide_eq_true_2 by done. by rewrite andb_false_r.
Qed.

Lemma getAuthRole_none (env : Env) (token : option string) :
  AUTH_ENABLED env = true →
  token ≠ Some (ADMIN_API_TOKEN env) → token ≠ Some (READ_API_TOKEN env) →
  getAuthRole env token = None.
Proof.
  intros Ha H1 H2. unfold getAuthRole. rewrite Ha. cbn [negb].
  rewrite !bool_decide_eq_false_2 by done. by rewrite !andb_false_r.
Qed.

(** C2, as amended: with auth enabled, on every [/api/*] path but
    [/api/auth/status], a missing or unknown token is answered 401; the read
    token, when it is not also the admin token, is answered 403 on a write
    method and let through otherwise; the admin token is always let through.
    With no token configured every caller is admin and is let through. *)
Theorem auth_gate_decisions (env : Env) (c : Request) :
  path c ≠ "/api/auth/status" →
  (AUTH_ENABLED env = false →
     getAuthRole env (getTokenFromRequest c) = Some admin ∧ authMiddleware env c = Next)
  ∧ (AUTH_ENABLED env = true →
     (getTokenFromRequest c ≠ Some (ADMIN_API_TOKEN env) →
      getTokenFromRequest c ≠ Some (READ_API_TOKEN env) →
      authMiddleware env c = Answer (json_error "Unauthorized" 401))
     ∧ (getTokenFromRequest c = Some (READ_API_TOKEN env) →
        READ_API_TOKEN env ≠ ADMIN_API_TOKEN env →
        authMiddleware env c =
          if isWrite (JS.toUpperCase (method c))
          then Answer (json_error "Admin token required for write operations" 403)
          else Next)
     ∧ (getTokenFromRequest c = Some (ADMIN_API_TOKEN env) → authMiddleware env c = Next)).
Proof.
  intros Hp. apply eqb_false_iff in Hp. unfold authMiddleware. rewrite Hp. split.
  - intros Ha. split; [by apply getAuthRole_disabled|]. by rewrite Ha.
  - intros Ha. rewrite Ha. cbn [negb]. split; [|split].
    + intros H1 H2. by rewrite getAuthRole_none.
    + intros E Hd. rewrite getAuthRole_read by done. cbn [is_admin negb].
      by rewrite andb_true_r.
    + intros E. rewrite getAuthRole_admin by done. cbn [is_admin negb].
      by rewrite andb_false_r.
Qed.

Lemma auth_gate_decisions_witness :
  authMiddleware two_token_env (bearer_request "POST" "/api/mkdir" "read-test-token")
  = Answer (json_error "Admin token required for write operations" 403).
Proof.
  pose proof (auth_gate_decisions two_token_env
                (bearer_request "POST" "/api/mkdir" "read-test-token")) as H.
  destruct H as [_ H]; [vm_compute; congruence|].
  destruct H as (_ & H & _); [reflexivity|].
  apply H; vm_compute; congruence.
Defined.

(** C2, counterexample: one secret configured as admin and as read token.  A
    POST that presents it presents the read token on a write method, and is
    let through. *)
Lemma auth_gate_shared_token :
  AUTH_ENABLED shared_token_env = true
  ∧ getTokenFromRequest (bearer_request "POST" "/api/mkdir" "s3cret")
    = Some (READ_API_TOKEN shared_token_env)
  ∧ isWrite (JS.toUpperCase (method (bearer_request "POST" "/api/mkdir" "s3cret"))) = true
  ∧ authMiddleware shared_token_env (bearer_request "POST" "/api/mkdir" "s3cret") = Next.
Proof. vm_compute. done. Qed.

(** The status probe is never gated. *)
Lemma auth_gate_status (env : Env) (c : Request) :
  path c = "/api/auth/status" → authMiddleware env c = Next.
Proof. intros E. unfold authMiddleware. rewrite E. done. Qed.

(** ** Path sandbox *)

(** What the check does establish: the result starts with the characters of
    [ROOT_DIR]. *)
Lemma resolveSafePath_prefix (env : Env) (requestedPath resolved : string) :
  resolveSafePath env requestedPath = Some resolved →
  JS.startsWith resolved (ROOT_DIR env) = true.
Proof.
  unfold resolveSafePath. destruct (JS.startsWith _ _) eqn:E; [|done].
  by intros [= <-].
Qed.

(** C1, at the failing input: with root [/home/user], the request
    [../user2/secret] resolves to a path in the sibling directory
    [/home/user2], and the check returns it. *)
Theorem resolveSafePath_sibling_escape :
  ROOT_DIR home_env = "/home/user"
  ∧ resolveSafePath home_env "../user2/secret" = Some "/home/user2/secret"
  ∧ ¬ confined (ROOT_DIR home_env) "/home/user2/secret".
Proof.
  split; [reflexivity|]. split; [reflexivity|].
  intros [H|H]; vm_compute in H; discriminate.
Qed.

(** ** Running handlers *)

Lemma run_bind {A B : Type} (p : Prog A) (f : A → Prog B) (w : World) :
  run (bind p f) w = run (f (run p w).1) (run p w).2.
Proof.
  revert w. induction p as [a|X e k IH]; intros w; [done|].
  cbn [bind run]. destruct (answer e w) as [x w']. apply IH.
Qed.

Lemma calls_bind {A B : Type} (p : Prog A) (f : A → Prog B) (w : World) :
  calls (bind p f) w = (calls p w ++ calls (f (run p w).1) (run p w).2)%list.
Proof.
  revert w. induction p as [a|X e k IH]; intros w; [done|].
  cbn [bind run calls]. destruct (answer e w) as [x w']. cbn [app]. by rewrite IH.
Qed.

Lemma trace_run {A : Type} (p : Prog A) (w : World) :
  trace (run p w).2 = (trace w ++ calls p w)%list.
Proof.
  revert w. induction p as [a|X e k IH]; intros w.
  - cbn. by rewrite app_nil_r.
  - cbn [run calls]. unfold answer. destruct (respond e w) as [[x devs] fs].
    rewrite IH. cbn [trace with_state]. by rewrite <- app_assoc.
Qed.

(** ** Forwarded credentials *)

Lemma prefix_app (p t : string) : String.prefix p (p ++ t) = true.
Proof.
  induction p as [|a p IH]; [by destruct t|].
  change (String.prefix (String a p) (String a (p ++ t)) = true).
  cbn [String.prefix]. by destruct (ascii_dec a a).
Qed.





(** ** Stepping through a handler *)

Lemma post_ret {A : Type} (a : A) (w : World) (Q : A → World → list Call → Prop) :
  Q a w [] → post (Ret a) w Q.
Proof. done. Qed.

Lemma post_mret {A : Type} (a : A) (w : World) (Q : A → World → list Call → Prop) :
  Q a w [] → post (mret a) w Q.
Proof. done. Qed.

Lemma post_bind {A B : Type} (p : Prog A) (f : A → Prog B) (w : World)
    (Q : B → World → list Call → Prop) :
  post p w (λ a w' cs, post (f a) w' (λ b w'' cs', Q b w'' (cs ++ cs')%list)) →
  post (p ≫= f) w Q.
Proof.
  unfold post, mbind, Prog_bind. by rewrite run_bind, calls_bind.
Qed.

Lemma post_trigger {X : Type} (e : Event X) (w : World) (Q : X → World → list Call → Prop) :
  Q (respond e w).1.1
    (with_state w (respond e w).1.2 (respond e w).2
       (trace w ++ [Build_Call e (respond e w).1.1])%list)
    [Build_Call e (respond e w).1.1] →
  post (trigger e) w Q.
Proof.
  unfold post, trigger. cbn [run calls]. unfold answer.
  by destruct (respond e w) as [[x devs] fs].
Qed.

Lemma post_loadDevices (w : World) (Q : list DeviceConfig → World → list Call → Prop) :
  Q (registry w)
    (with_state w (devicesFile w) (files w)
       (trace w ++ [Build_Call ReadDevicesFile (devicesFile w)])%list)
    [Build_Call ReadDevicesFile (devicesFile w)] →
  post loadDevices w Q.
Proof.
  intros H. unfold loadDevices. apply post_bind, post_trigger. cbn.
  apply post_mret. exact H.
Qed.

Lemma post_saveDevices (ds : list DeviceConfig) (w : World)
    (Q : unit → World → list Call → Prop) :
  Q tt (with_state w (Some ds) (files w) (trace w ++ [Build_Call (WriteDevicesFile ds) tt])%list)
    [Build_Call (WriteDevicesFile ds) tt] →
  post (saveDevices ds) w Q.
Proof. intros H. unfold saveDevices. by apply post_trigger. Qed.

Lemma post_deriveId (name : string) (w : World) (Q : string → World → list Call → Prop) :
  (slugify name ≠ "" → Q (slugify name) w []) →
  (slugify name = "" →
   Q ("device-" ++ JS.of_N (clock w (trace w)))
     (with_state w (devicesFile w) (files w)
        (trace w ++ [Build_Call DateNow (clock w (trace w))])%list)
     [Build_Call DateNow (clock w (trace w))]) →
  post (deriveId name) w Q.
Proof.
  intros H1 H2. unfold deriveId. destruct (JS.truthy (slugify name)) eqn:E.
  - apply post_mret, H1. by apply truthy_true.
  - apply post_bind, post_trigger. cbn. apply post_mret. apply H2.
    by apply truthy_false.
Qed.

(** Walks through the sequencing of a handler down to each of its ends. *)
Ltac walk_step :=
  lazymatch goal with
  | |- post (mret _) _ _ => apply post_mret
  | |- post (Ret _) _ _ => apply post_ret
  | |- post loadDevices _ _ => apply post_loadDevices
  | |- post (saveDevices _) _ _ => apply post_saveDevices
  | |- post (deriveId _) _ _ => apply post_deriveId; intros ?
  | |- post (trigger _) _ _ => apply post_trigger
  | |- post (_ ≫= _) _ _ => apply post_bind
  | |- post (if ?x then _ else _) _ _ => destruct x eqn:?
  | |- post (match ?x with _ => _ end) _ _ => destruct x eqn:?
  end.

Ltac walk :=
  repeat first
    [ progress cbn [respond with_state devicesFile files trace fst snd settingsFile
                    hostname clock ssh sshBinary fetch readdir dispatch registry]
    | walk_step ].

(** ** Adding a device: the probe comes before the write *)

(** C10: a failed connectivity probe ends the add with 502 and the devices
    file is not written. *)
Theorem add_probe_failure_keeps_registry (env : Env) (c : Request) (b : AddBody) (w : World) :
  existsb probe_failed (calls (postDevices env c b) w) = true →
  status (run (postDevices env c b) w).1 = 502%N
  ∧ devicesFile (run (postDevices env c b) w).2 = devicesFile w
  ∧ existsb is_save (calls (postDevices env c b) w) = false.
Proof.
  change (post (postDevices env c b) w (λ r w' cs,
    existsb probe_failed cs = true →
    status r = 502%N ∧ devicesFile w' = devicesFile w ∧ existsb is_save cs = false)).
  unfold postDevices. walk.
  all: cbn; intros Hf; try discriminate Hf; try done.
  all: rewrite orb_false_r in Hf; congruence.
Qed.

Lemma add_probe_failure_keeps_registry_witness :
  status (run (postDevices no_env (plain_request "POST" "/api/devices")
                 (http_body "Unreachable" "http://127.0.0.1:19999")) offline).1 = 502%N
  ∧ devicesFile (run (postDevices no_env (plain_request "POST" "/api/devices")
                        (http_body "Unreachable" "http://127.0.0.1:19999")) offline).2 = None
  ∧ existsb is_save (calls (postDevices no_env (plain_request "POST" "/api/devices")
                              (http_body "Unreachable" "http://127.0.0.1:19999")) offline)
    = false.
Proof.
  apply (add_probe_failure_keeps_registry no_env (plain_request "POST" "/api/devices")
           (http_body "Unreachable" "http://127.0.0.1:19999") offline).
  vm_compute. reflexivity.
Defined.

(** ** Router: unknown and disabled devices *)

Lemma has_id_true (id : string) (d : DeviceConfig) : has_id id d = true ↔ dc_id d = id.
Proof. unfold has_id. apply String.eqb_eq. Qed.

Lemma find_has_id_None (id : string) (devices : list DeviceConfig) :
  List.find (has_id id) devices = None ↔ id ∉ ids devices.
Proof.
  unfold ids. induction devices as [|d l IH]; cbn.
  - split; [intros _; apply not_elem_of_nil | done].
  - destruct (has_id id d) eqn:E.
    + apply has_id_true in E. split; [done|]. intros H. exfalso. apply H. subst id. left.
    + rewrite IH. rewrite not_elem_of_cons. split; [|tauto].
      intros H. split; [|done]. intros ->.
      by rewrite (proj2 (has_id_true _ _) eq_refl) in E.
Qed.

Lemma find_has_id_Some (id : string) (devices : list DeviceConfig) (d : DeviceConfig) :
  List.find (has_id id) devices = Some d → d ∈ devices ∧ dc_id d = id.
Proof.
  intros H. apply List.find_some in H as [H1 H2].
  split; [by apply list_elem_of_In | by apply has_id_true].
Qed.

Lemma existsb_has_id (id : string) (devices : list DeviceConfig) :
  List.existsb (has_id id) devices = true ↔ id ∈ ids devices.
Proof.
  unfold ids. rewrite List.existsb_exists, list_elem_of_fmap. split.
  - intros (d & H1 & H2). exists d. split; [symmetry; by apply has_id_true|].
    by apply list_elem_of_In.
  - intros (d & H1 & H2). exists d. split; [by apply list_elem_of_In|].
    by apply has_id_true.
Qed.

(** C4: for a device id other than [local], an id the registry does not hold
    is answered 404 and a disabled device 403, and in both cases the handler
    has read the devices file and done nothing else: no SSH process, no
    outbound request. *)
Theorem proxy_rejects_before_remote (rt : Runtime) (env : Env) (c : Request)
    (deviceId : string) (b : Outcome FileOpBody) (w : World) :
  deviceId ≠ "local" →
  (deviceId ∉ ids (registry w) →
     (run (deviceRoute rt env c deviceId b) w).1 = json_error "Device not found" 404
     ∧ calls (deviceRoute rt env c deviceId b) w
       = [Build_Call ReadDevicesFile (devicesFile w)])
  ∧ (deviceId ∈ ids (registry w) →
     (∀ d, d ∈ registry w → dc_id d = deviceId → dc_enabled d = false) →
     (run (deviceRoute rt env c deviceId b) w).1 = json_error "Device is disabled" 403
     ∧ calls (deviceRoute rt env c deviceId b) w
       = [Build_Call ReadDevicesFile (devicesFile w)]).
Proof.
  intros Hl. apply eqb_false_iff in Hl. split.
  - intros Hn. apply find_has_id_None in Hn.
    change (post (deviceRoute rt env c deviceId b) w (λ r _ cs,
      r = json_error "Device not found" 404
      ∧ cs = [Build_Call ReadDevicesFile (devicesFile w)])).
    unfold deviceRoute. rewrite Hl. apply post_bind, post_loadDevices.
    rewrite Hn. by apply post_mret.
  - intros Hin Hd.
    change (post (deviceRoute rt env c deviceId b) w (λ r _ cs,
      r = json_error "Device is disabled" 403
      ∧ cs = [Build_Call ReadDevicesFile (devicesFile w)])).
    unfold deviceRoute. rewrite Hl. apply post_bind, post_loadDevices.
    destruct (List.find (has_id deviceId) (registry w)) as [d|] eqn:E.
    + apply find_has_id_Some in E as [E1 E2]. rewrite (Hd d E1 E2). by apply post_mret.
    + by apply find_has_id_None in E.
Qed.

Lemma proxy_rejects_before_remote_witness :
  (run (deviceRoute sample_runtime no_env (plain_request "GET" "/api/d/mini/files") "mini"
          (Throw "Unexpected end of JSON input"))
     (with_devices online [disabled mini])).1
  = json_error "Device is disabled" 403
  ∧ calls (deviceRoute sample_runtime no_env (plain_request "GET" "/api/d/mini/files") "mini"
             (Throw "Unexpected end of JSON input"))
      (with_devices online [disabled mini])
    = [Build_Call ReadDevicesFile (Some [disabled mini])].
Proof.
  apply (proxy_rejects_before_remote sample_runtime no_env
           (plain_request "GET" "/api/d/mini/files") "mini"
           (Throw "Unexpected end of JSON input") (with_devices online [disabled mini])).
  - discriminate.
  - cbn. apply list_elem_of_here.
  - intros d Hd _. cbn in Hd. apply list_elem_of_singleton in Hd. by subst d.
Defined.

(** ** The [Authorization] header sent to a device *)



(** ** Public device representations *)

Lemma public_json_no_token (p : PublicDeviceConfig) :
  json_get "authToken" (public_json p) = None.
Proof.
  destruct p as [i n u h r ic e t l].
  destruct h, r, ic, t, l; reflexivity.
Qed.

Lemma public_json_hasAuthToken (p : PublicDeviceConfig) :
  json_get "hasAuthToken" (public_json p) = JBool <$> pd_hasAuthToken p.
Proof.
  destruct p as [i n u h r ic e t l].
  destruct h, r, ic, t, l; reflexivity.
Qed.

Lemma truthy_opt_stored (o : option string) :
  JS.truthy_opt o = true ↔ ∃ t, o = Some t ∧ t ≠ "".
Proof.
  destruct o as [t|]; cbn.
  - rewrite truthy_true. split; [intros H; by exists t | by intros (? & [= ->] & ?)].
  - split; [done | by intros (? & ? & ?)].
Qed.

Lemma public_json_mask_token (d : DeviceConfig) (t t' : option string) :
  json_remove "hasAuthToken" (public_json (toPublicDevice (set_token d t)))
  = json_remove "hasAuthToken" (public_json (toPublicDevice (set_token d t'))).
Proof.
  destruct d as [i n u h r tok ic e].
  destruct h, r, ic; reflexivity.
Qed.

Lemma run_getDevices (w : World) :
  ∃ name icon,
    (run getDevices w).1
    = json (JObj [("devices",
                   JArr (public_json (localEntry name icon)
                         :: List.map (λ d, public_json (toPublicDevice d)) (registry w)))])
        200.
Proof.
  change (post getDevices w (λ r _ _, ∃ name icon,
    r = json (JObj [("devices",
                     JArr (public_json (localEntry name icon)
                           :: List.map (λ d, public_json (toPublicDevice d)) (registry w)))])
          200)).
  unfold getDevices, getLocalName, getLocalIcon, loadSettings. walk.
  all: eexists _, _; cbn [List.map]; rewrite List.map_map; reflexivity.
Qed.

(** C6, as amended: the representation of a registered device, as the list,
    add and update endpoints return it, has no [authToken] field and a boolean
    [hasAuthToken] that is true exactly when a non-empty token is stored; for
    two records that differ only in the token the representations agree on
    every field but [hasAuthToken].  The synthetic local entry that heads the
    list has neither field. *)
Theorem public_device_redaction (env : Env) (c : Request) (b : AddBody) (id : string)
    (ub : UpdateBody) (d : DeviceConfig) (t t' : option string) (w : World) :
  json_get "authToken" (public_json (toPublicDevice d)) = None
  ∧ json_get "hasAuthToken" (public_json (toPublicDevice d))
    = Some (JBool (JS.truthy_opt (dc_authToken d)))
  ∧ (JS.truthy_opt (dc_authToken d) = true ↔ ∃ s, dc_authToken d = Some s ∧ s ≠ "")
  ∧ json_remove "hasAuthToken" (public_json (toPublicDevice (set_token d t)))
    = json_remove "hasAuthToken" (public_json (toPublicDevice (set_token d t')))
  ∧ (∃ name icon,
       answered_devices (run getDevices w).1
       = public_json (localEntry name icon)
         :: List.map (λ d, public_json (toPublicDevice d)) (registry w)
       ∧ json_get "authToken" (public_json (localEntry name icon)) = None
       ∧ json_get "hasAuthToken" (public_json (localEntry name icon)) = None)
  ∧ (status (run (postDevices env c b) w).1 = 200%N →
     ∃ device, answered_device (run (postDevices env c b) w).1
               = Some (public_json (toPublicDevice device)))
  ∧ (status (run (putDevice id ub) w).1 = 200%N →
     ∃ device, answered_device (run (putDevice id ub) w).1
               = Some (public_json (toPublicDevice device))).
Proof.
  split; [apply public_json_no_token|].
  split; [apply public_json_hasAuthToken|].
  split; [apply truthy_opt_stored|].
  split; [apply public_json_mask_token|].
  split.
  { destruct (run_getDevices w) as (name & icon & E). exists name, icon.
    rewrite E. split; [reflexivity|]. split; reflexivity. }
  split.
  - change (post (postDevices env c b) w (λ r _ _,
      status r = 200%N → ∃ device, answered_device r = Some (public_json (toPublicDevice device)))).
    unfold postDevices. walk.
    all: cbn; intros Hs; try discriminate Hs.
    all: eexists; reflexivity.
  - change (post (putDevice id ub) w (λ r _ _,
      status r = 200%N → ∃ device, answered_device r = Some (public_json (toPublicDevice device)))).
    unfold putDevice. walk.
    all: cbn; intros Hs; try discriminate Hs.
    all: eexists; reflexivity.
Qed.

(** C6, counterexample: the list a hub without devices returns.  Its one
    entry, the local device, has no [hasAuthToken] field. *)
Lemma local_entry_without_hasAuthToken :
  answered_devices (run getDevices offline).1
  = [JObj [("id", JStr "local"); ("name", JStr "hub"); ("url", JStr "");
           ("icon", JStr "💻"); ("enabled", JBool true); ("isLocal", JBool true)]]
  ∧ List.map (json_get "hasAuthToken") (answered_devices (run getDevices offline).1) = [None].
Proof. vm_compute. done. Qed.

(** ** The reserved id *)

Lemma ids_app (l1 l2 : list DeviceConfig) : ids (l1 ++ l2) = (ids l1 ++ ids l2)%list.
Proof. apply List.map_app. Qed.

Lemma ids_insert_same (l : list DeviceConfig) (i : nat) (d d' : DeviceConfig) :
  l !! i = Some d → dc_id d' = dc_id d → ids (<[i := d']> l) = ids l.
Proof.
  revert i. induction l as [|x l IH]; intros i Hi E; [done|].
  destruct i as [|i]; cbn in *.
  - injection Hi as ->. by rewrite E.
  - f_equal. by apply IH.
Qed.

Lemma ids_filter (p : DeviceConfig → bool) (l : list DeviceConfig) (id : string) :
  id ∈ ids (List.filter p l) → id ∈ ids l.
Proof.
  unfold ids. rewrite !list_elem_of_fmap. intros (d & E & H). exists d. split; [done|].
  apply list_elem_of_In in H. apply List.filter_In in H as [H _]. by apply list_elem_of_In.
Qed.

Lemma fallback_not_local (n : N) : "device-" ++ JS.of_N n ≠ "local".
Proof. discriminate. Qed.

(** Every handler of the registry keeps [local] out of the devices file. *)
Lemma handler_keeps_local_out (env : Env) (op : RegistryOp) (w : World) :
  "local" ∉ ids (registry w) →
  "local" ∉ ids (registry (run (registryHandler env op) w).2).
Proof.
  intros Hw.
  change (post (registryHandler env op) w (λ _ w' _, "local" ∉ ids (registry w'))).
  destruct op as [|c b|i b|i|c i]; cbn [registryHandler].
  - unfold getDevices, getLocalName, getLocalIcon, loadSettings. walk; exact Hw.
  - unfold postDevices. walk; try exact Hw.
    all: unfold registry in *; cbn [default from_option id devicesFile with_state].
    all: rewrite ids_app, elem_of_app; intros [H'|H']; [by apply Hw|].
    all: cbn in H'; apply list_elem_of_singleton in H'.
    all: match goal with
         | E : (_ =? "local") || _ = false |- _ =>
             apply orb_false_iff in E as [E _]; apply eqb_false_iff in E; by apply E
         end.
  - unfold putDevice. walk; try exact Hw.
    unfold registry in *; cbn [default from_option id devicesFile with_state].
    match goal with
    | E : list_find _ _ = Some (?i, ?d) |- _ => apply list_find_Some in E as (E & _ & _)
    end.
    erewrite ids_insert_same; [exact Hw | eassumption | reflexivity].
  - unfold deleteDevice. walk; try exact Hw.
    unfold registry in *; cbn [default from_option id devicesFile with_state].
    intros H'. by apply ids_filter in H'.
  - unfold getDeviceHealth. walk; exact Hw.
Qed.

Lemma serve_keeps_local_out (env : Env) (ops : list RegistryOp) (w : World) :
  "local" ∉ ids (registry w) → "local" ∉ ids (registry (serve env ops w)).
Proof.
  revert w. induction ops as [|op ops IH]; intros w Hw; [exact Hw|].
  cbn [serve List.fold_left]. apply IH. by apply handler_keeps_local_out.
Qed.

Lemma add_conflict (env : Env) (c : Request) (b : AddBody) (w : World) :
  add_ready b = true →
  (slugify (add_name b) = "local"
   ∨ (slugify (add_name b) ≠ "" ∧ slugify (add_name b) ∈ ids (registry w))) →
  (run (postDevices env c b) w).1 = json_error "Device ID already exists" 409
  ∧ devicesFile (run (postDevices env c b) w).2 = devicesFile w
  ∧ List.existsb is_save (calls (postDevices env c b) w) = false
  ∧ List.existsb is_remote (calls (postDevices env c b) w) = false.
Proof.
  intros Hr Hs.
  assert (slugify (add_name b) ≠ "") as Hne.
  { destruct Hs as [E|[E _]]; [rewrite E; discriminate | done]. }
  assert ((slugify (add_name b) =? "local")
          || List.existsb (has_id (slugify (add_name b))) (registry w) = true) as Hc.
  { apply orb_true_iff. destruct Hs as [E|[_ E]].
    - left. by apply String.eqb_eq.
    - right. by apply existsb_has_id. }
  change (post (postDevices env c b) w (λ r w' cs,
    r = json_error "Device ID already exists" 409 ∧ devicesFile w' = devicesFile w
    ∧ List.existsb is_save cs = false ∧ List.existsb is_remote cs = false)).
  unfold postDevices, add_name, add_ready in *.
  destruct (JS.truthy_opt (ab_sshHost b)) eqn:Eh.
  - apply post_bind, post_loadDevices, post_bind, post_deriveId; [|done].
    intros _. rewrite Hc. by apply post_mret.
  - cbn [orb] in Hr. apply andb_true_iff in Hr as [Hn Hu]. rewrite Hn, Hu. cbn [negb orb].
    apply post_bind, post_loadDevices, post_bind, post_deriveId; [|done].
    intros _. rewrite Hc. by apply post_mret.
Qed.

(** C3: no sequence of registry requests puts an entry with id [local] into
    a devices file that holds none.  An add request, in SSH mode (it carries
    [sshHost]) or in HTTP mode (it carries [name] and [url]), whose slug is
    [local] or is the id of a registered device is answered 409 before any
    probe and writes nothing; update and delete of [local] are answered 400
    and touch nothing. *)
Theorem local_id_never_persisted (env : Env) (ops : list RegistryOp) (c : Request)
    (b : AddBody) (ub : UpdateBody) (w : World) :
  ("local" ∉ ids (registry w) → "local" ∉ ids (registry (serve env ops w)))
  ∧ (add_ready b = true →
     (slugify (add_name b) = "local"
      ∨ (slugify (add_name b) ≠ "" ∧ slugify (add_name b) ∈ ids (registry w))) →
     (run (postDevices env c b) w).1 = json_error "Device ID already exists" 409
     ∧ devicesFile (run (postDevices env c b) w).2 = devicesFile w
     ∧ List.existsb is_save (calls (postDevices env c b) w) = false
     ∧ List.existsb is_remote (calls (postDevices env c b) w) = false)
  ∧ run (putDevice "local" ub) w = (json_error "Cannot edit local device" 400, w)
  ∧ run (deleteDevice "local") w = (json_error "Cannot delete local device" 400, w).
Proof.
  split; [apply serve_keeps_local_out|].
  split; [apply add_conflict|]. done.
Qed.

Lemma local_id_never_persisted_witness :
  ("local" ∉ ids (registry (serve no_env
                              [OpAdd (plain_request "POST" "/api/devices")
                                 (ssh_body (Some "Local") "macbook");
                               OpAdd (plain_request "POST" "/api/devices")
                                 (ssh_body None "macbook");
                               OpDelete "local"] online)))
  ∧ (run (postDevices no_env (plain_request "POST" "/api/devices")
            (ssh_body (Some "Local") "macbook")) online).1
    = json_error "Device ID already exists" 409.
Proof.
  destruct (local_id_never_persisted no_env
              [OpAdd (plain_request "POST" "/api/devices") (ssh_body (Some "Local") "macbook");
               OpAdd (plain_request "POST" "/api/devices") (ssh_body None "macbook");
               OpDelete "local"]
              (plain_request "POST" "/api/devices") (ssh_body (Some "Local") "macbook")
              {| ub_name := None; ub_url := None; ub_authToken := None; ub_icon := None;
                 ub_enabled := None |} online) as (H1 & H2 & _).
  split.
  - apply H1. cbn. apply not_elem_of_nil.
  - apply H2; [reflexivity | left; reflexivity].
Defined.

(** A request that carries neither [sshHost] nor [url] is in neither mode:
    it is refused for the missing field, 400, before any id is derived, also
    when its name is [Local]. *)
Example add_local_without_url :
  slugify (add_name {| ab_name := Some "Local"; ab_url := None; ab_icon := None;
                       ab_sshHost := None; ab_sshRoot := None; ab_authToken := None |})
  = "local"
  ∧ (run (postDevices no_env (plain_request "POST" "/api/devices")
            {| ab_name := Some "Local"; ab_url := None; ab_icon := None;
               ab_sshHost := None; ab_sshRoot := None; ab_authToken := None |}) offline).1
    = json_error "name and url (or sshHost) required" 400.
Proof. vm_compute. done. Qed.

(** ** The slug *)

Lemma append_cons (c : ascii) (s t : string) : String c s ++ t = String c (s ++ t).
Proof. reflexivity. Qed.

Lemma append_nil_l (t : string) : "" ++ t = t.
Proof. reflexivity. Qed.

Lemma replace_runs_render (s : string) :
  Re.replace_runs false s = render_runs (runs s)
  ∧ Re.replace_runs true s = render_runs (after_separator (runs s)).
Proof.
  induction s as [|c s [IH1 IH2]]; [done|].
  cbn [Re.replace_runs runs]. destruct (Re.is_slug_char c) eqn:Hc.
  - rewrite IH1. destruct (runs s) as [|[[] r] rest]; cbn; done.
  - rewrite IH2. destruct (runs s) as [|[[] r] rest]; cbn; done.
Qed.

Lemma slug_char_not_hyphen (c : ascii) : Re.is_slug_char c = true → Ascii.eqb c "-" = false.
Proof.
  intros H. destruct (Ascii.eqb c "-") eqn:E; [|done].
  apply Ascii.eqb_eq in E. subst c. vm_compute in H. discriminate.
Qed.

Lemma replace_runs_hyphens (s : string) :
  no_double_hyphen (Re.replace_runs false s) = true
  ∧ no_double_hyphen (Re.replace_runs true s) = true
  ∧ starts_with_hyphen (Re.replace_runs true s) = false.
Proof.
  induction s as [|c s (IH1 & IH2 & IH3)]; [done|].
  cbn [Re.replace_runs]. destruct (Re.is_slug_char c) eqn:Hc.
  - apply slug_char_not_hyphen in Hc.
    assert (no_double_hyphen (String c (Re.replace_runs false s)) = true) as H.
    { cbn [no_double_hyphen]. destruct (Re.replace_runs false s); [done|].
      rewrite Hc. cbn [andb negb]. exact IH1. }
    cbn [starts_with_hyphen]. done.
  - split; [|done].
    cbn [no_double_hyphen]. destruct (Re.replace_runs true s) as [|a r]; [done|].
    cbn [starts_with_hyphen] in IH3. rewrite IH3, andb_false_r. cbn [andb negb]. exact IH2.
Qed.

Lemma strip_final_trailing (t : string) :
  no_double_hyphen t = true → Re.strip_final_hyphen t = strip_trailing_hyphens t.
Proof.
  induction t as [|c t IH]; [done|]. intros Hn.
  destruct t as [|b t]; [done|].
  assert (no_double_hyphen (String b t) = true) as Hn'.
  { cbn [no_double_hyphen] in Hn. by apply andb_true_iff in Hn as [_ Hn]. }
  change (Re.strip_final_hyphen (String c (String b t)))
    with (String c (Re.strip_final_hyphen (String b t))).
  rewrite (IH Hn').
  change (strip_trailing_hyphens (String c (String b t)))
    with (match strip_trailing_hyphens (String b t) with
          | "" => if Ascii.eqb c "-" then "" else String c ""
          | r => String c r
          end).
  destruct (strip_trailing_hyphens (String b t)) as [|x r] eqn:E; [|done].
  (* only a lone hyphen strips to nothing here *)
  cbn [no_double_hyphen] in Hn. apply andb_true_iff in Hn as [Hcb _].
  cbn [strip_trailing_hyphens] in E.
  destruct (strip_trailing_hyphens t) eqn:Et; [|discriminate E].
  destruct (Ascii.eqb b "-") eqn:Eb; [|discriminate E].
  rewrite andb_true_r in Hcb. apply negb_true_iff in Hcb. by rewrite Hcb.
Qed.

Lemma strip_edge_both (t : string) :
  no_double_hyphen t = true →
  Re.strip_edge_hyphens t = strip_trailing_hyphens (strip_leading_hyphens t).
Proof.
  intros Hn. destruct t as [|c t]; [done|].
  cbn [Re.strip_edge_hyphens strip_leading_hyphens].
  destruct (Ascii.eqb c "-") eqn:Ec.
  - destruct t as [|b t]; [done|].
    cbn [no_double_hyphen] in Hn. apply andb_true_iff in Hn as [Hcb Hn].
    rewrite Ec in Hcb. cbn [andb] in Hcb. apply negb_true_iff in Hcb.
    cbn [strip_leading_hyphens]. rewrite Hcb. by apply strip_final_trailing.
  - by apply strip_final_trailing.
Qed.

(** The two replacements of the handler compute the slug of the
    specification. *)
Lemma slugify_spec (name : string) : slugify name = slug_spec name.
Proof.
  unfold slugify, slug_spec, Re.hyphenate_non_alnum.
  rewrite strip_edge_both by apply replace_runs_hyphens.
  by rewrite (proj1 (replace_runs_render _)).
Qed.

(** C8: a successful add stores, and answers with, a device whose id is the
    slug of the name (for an SSH device without a name, of the host): the
    name lowercased, each maximal run of characters outside [a-z0-9] replaced
    by one hyphen, hyphens at both ends removed; when that slug is empty the
    id is [device-] followed by the clock reading taken for it.  The id is
    new to the registry. *)
Theorem added_device_id (env : Env) (c : Request) (b : AddBody) (w : World) :
  status (run (postDevices env c b) w).1 = 200%N →
  ∃ device,
    answered_device (run (postDevices env c b) w).1
      = Some (public_json (toPublicDevice device))
    ∧ registry (run (postDevices env c b) w).2 = (registry w ++ [device])%list
    ∧ (dc_id device ∉ ids (registry w))
    ∧ slugify (add_name b) = slug_spec (add_name b)
    ∧ (slug_spec (add_name b) ≠ "" → dc_id device = slug_spec (add_name b))
    ∧ (slug_spec (add_name b) = "" →
       ∃ now, Build_Call DateNow now ∈ calls (postDevices env c b) w
              ∧ dc_id device = "device-" ++ JS.of_N now).
Proof.
  change (post (postDevices env c b) w (λ r w' cs,
    status r = 200%N →
    ∃ device,
      answered_device r = Some (public_json (toPublicDevice device))
      ∧ registry w' = (registry w ++ [device])%list
      ∧ (dc_id device ∉ ids (registry w))
      ∧ slugify (add_name b) = slug_spec (add_name b)
      ∧ (slug_spec (add_name b) ≠ "" → dc_id device = slug_spec (add_name b))
      ∧ (slug_spec (add_name b) = "" →
         ∃ now, Build_Call DateNow now ∈ cs ∧ dc_id device = "device-" ++ JS.of_N now))).
  rewrite <- slugify_spec. unfold postDevices, add_name.
  destruct (JS.truthy_opt (ab_sshHost b)) eqn:Eh.
  - walk.
    all: cbn [status json_error json added]; intros Hs; try discriminate Hs.
    all: eexists; split; [reflexivity|]; split; [reflexivity|].
    all: cbn [dc_id]; split;
      [ match goal with
        | E : (_ =? "local") || _ = false |- _ =>
            apply orb_false_iff in E as [_ E]; intros Hin;
            apply existsb_has_id in Hin; congruence
        end |].
    all: split; [reflexivity|]; split; [intros Hne; first [reflexivity | done]|].
    all: intros He; first [done | eexists; split; [|reflexivity]].
    all: cbn [app]; rewrite !elem_of_cons; auto.
  - walk.
    all: cbn [status json_error json added]; intros Hs; try discriminate Hs.
    all: eexists; split; [reflexivity|]; split; [reflexivity|].
    all: cbn [dc_id]; split;
      [ match goal with
        | E : (_ =? "local") || _ = false |- _ =>
            apply orb_false_iff in E as [_ E]; intros Hin;
            apply existsb_has_id in Hin; congruence
        end |].
    all: split; [reflexivity|]; split; [intros Hne; first [reflexivity | done]|].
    all: intros He; first [done | eexists; split; [|reflexivity]].
    all: cbn [app]; rewrite !elem_of_cons; auto.
Qed.

Lemma added_device_id_witness :
  ∃ device,
    answered_device (run (postDevices no_env (plain_request "POST" "/api/devices")
                            (http_body "Mini" "http://host:3456")) online).1
      = Some (public_json (toPublicDevice device))
    ∧ dc_id device = "mini".
Proof.
  destruct (added_device_id no_env (plain_request "POST" "/api/devices")
              (http_body "Mini" "http://host:3456") online) as (device & H1 & _ & _ & _ & H2 & _).
  - reflexivity.
  - exists device. split; [exact H1|]. apply H2. vm_compute. discriminate.
Defined.

(** ** Strings as lists of characters *)


Lemma str_chars (s : string) : Path.str (Path.chars s) = s.
Proof. apply string_of_list_ascii_of_string. Qed.

Lemma chars_inj (a b : string) : Path.chars a = Path.chars b → a = b.
Proof. intros H. by rewrite <- (str_chars a), <- (str_chars b), H. Qed.

Lemma chars_app (a b : string) : Path.chars (a ++ b) = (Path.chars a ++ Path.chars b)%list.
Proof.
  induction a as [|c a IH]; [done|].
  change (String c a ++ b) with (String c (a ++ b)). cbn. by rewrite IH.
Qed.

Lemma append_assoc (a b c : string) : (a ++ b) ++ c = a ++ b ++ c.
Proof. apply chars_inj. rewrite !chars_app. by rewrite <- app_assoc. Qed.


Lemma append_inv_head (a b c : string) : a ++ b = a ++ c → b = c.
Proof.
  intros H. apply chars_inj. apply (f_equal Path.chars) in H. rewrite !chars_app in H.
  by apply app_inv_head in H.
Qed.

Lemma length_chars (s : string) : String.length s = List.length (Path.chars s).
Proof. induction s as [|c s IH]; cbn; [done | by rewrite IH]. Qed.


Lemma drop_while_sub (p : ascii → bool) (l : list ascii) (x : ascii) :
  x ∈ Path.drop_while p l → x ∈ l.
Proof.
  induction l as [|a l IH]; cbn; [done|].
  destruct (p a); [|done]. intros H. right. by apply IH.
Qed.



(** ** Path components *)












(** ** Joining a directory and a name *)

Lemma split_nonempty (sep : ascii) (s : string) : JS.split sep s ≠ [].
Proof.
  induction s as [|c s IH]; cbn; [done|].
  destruct (Ascii.eqb c sep); [done|]. by destruct (JS.split sep s).
Qed.

Lemma split_no_sep (sep : ascii) (s : string) : sep ∉ Path.chars s → JS.split sep s = [s].
Proof.
  induction s as [|c s IH]; cbn; [done|].
  intros [Hc Hs]%not_elem_of_cons. rewrite (IH Hs).
  destruct (Ascii.eqb c sep) eqn:E; [|done]. apply Ascii.eqb_eq in E. congruence.
Qed.



Lemma norm_step_plain (allow : bool) (acc : list string) (name : string) :
  PlainName name → Path.norm_step allow acc name = name :: acc.
Proof.
  intros (_ & H1 & H2 & H3). unfold Path.norm_step.
  apply eqb_false_iff in H1, H2, H3. by rewrite H1, H2, H3.
Qed.

Lemma PlainName_first (name : string) : PlainName name → Path.isAbsolute name = false.
Proof.
  intros (Hs & Hn & _). destruct name as [|c name]; [done|].
  unfold Path.isAbsolute, JS.startsWith. cbn [String.prefix].
  destruct (ascii_dec "/" c) as [<-|]; [exfalso; apply Hs; left | done].
Qed.


Lemma isAbsolute_app (d rest : string) :
  d ≠ "" → Path.isAbsolute (d ++ rest) = Path.isAbsolute d.
Proof.
  destruct d as [|c d]; [done|]. intros _. unfold Path.isAbsolute, JS.startsWith.
  change (String c d ++ rest) with (String c (d ++ rest)). cbn [String.prefix].
  destruct (ascii_dec "/" c); [|done].
  generalize (d ++ rest). intros t. by destruct d, t.
Qed.

Lemma append_nonempty_r (a b : string) : b ≠ "" → a ++ b ≠ "".
Proof.
  intros Hb H. apply (f_equal Path.chars) in H. rewrite chars_app in H. cbn in H.
  apply app_eq_nil in H as [_ H]. destruct b; [done | discriminate H].
Qed.


(** ** Copy names *)










(** ** The local duplicate finds the first free name *)






(** ** The SSH duplicate *)






(** The two handlers on the same names: [notes.txt] beside an older
    [notes copy.txt].  The SSH adapter copies onto [notes copy.txt]; the local
    handler copies to [notes copy 2.txt]. *)
Example duplicate_asymmetry :
  ssh_commands (calls (deviceRoute sample_runtime home_env duplicate_request "macbook"
                         (Return (path_body "notes.txt")))
                  (with_devices online [macbook]))
  = ["cp -r " ++ dquote ++ "/Users/ben/notes.txt" ++ dquote ++ " "
     ++ dquote ++ "/Users/ben/notes copy.txt" ++ dquote]
  ∧ omap copy_target (calls (postDuplicate home_env "notes.txt" 3) home_with_copy)
    = ["/home/user/notes copy 2.txt"].
Proof. vm_compute. done. Qed.

(** ** Sorting *)

Section SortFacts.

Context {A : Type} (cmp : A → A → Z).

Lemma insert_Permutation (x : A) (l : list A) : Permutation (Rt.insert cmp x l) (x :: l).
Proof.
  induction l as [|y l IH]; cbn; [done|].
  destruct (cmp x y <=? 0)%Z; [done|]. rewrite IH. apply perm_swap.
Qed.

Lemma sort_Permutation (l : list A) : Permutation (Rt.sort cmp l) l.
Proof.
  induction l as [|x l IH]; cbn; [done|].
  rewrite insert_Permutation. by constructor.
Qed.






End SortFacts.


(** ** Numbers in the remote output *)








(** ** Lines and fields *)

Lemma split_cons_sep (sep : ascii) (a b : string) :
  sep ∉ Path.chars a → JS.split sep (a ++ String sep b) = a :: JS.split sep b.
Proof.
  induction a as [|c a IH]; intros Ha.
  - change ("" ++ String sep b) with (String sep b). cbn. by rewrite Ascii.eqb_refl.
  - change (String c a ++ String sep b) with (String c (a ++ String sep b)).
    cbn in Ha. apply not_elem_of_cons in Ha as [Hc Ha]. cbn [JS.split].
    rewrite (IH Ha). destruct (Ascii.eqb c sep) eqn:E; [|done].
    apply Ascii.eqb_eq in E. congruence.
Qed.




Lemma trimEnd_app (a b : string) :
  JS.trimEnd (a ++ b) = if has_nonspace b then a ++ JS.trimEnd b else JS.trimEnd a.
Proof.
  induction a as [|c a IH].
  - change ("" ++ b) with b. destruct (has_nonspace b) eqn:E; [done|].
    by apply trimEnd_empty.
  - change (String c a ++ b) with (String c (a ++ b)). cbn [JS.trimEnd]. rewrite IH.
    destruct (has_nonspace b) eqn:E; [|done].
    change (String c a ++ JS.trimEnd b) with (String c (a ++ JS.trimEnd b)).
    destruct (a ++ JS.trimEnd b) eqn:E'; [|done].
    exfalso. assert (JS.trimEnd b ≠ "") as Hne.
    { intros H. apply trimEnd_empty in H. congruence. }
    by apply (append_nonempty_r a) in Hne.
Qed.

Lemma trimStart_id (c : ascii) (s : string) :
  JS.is_space c = false → JS.trimStart (String c s) = String c s.
Proof. intros H. cbn. by rewrite H. Qed.


Lemma split_join (sep : ascii) (lines : list string) :
  lines ≠ [] → (∀ l, l ∈ lines → sep ∉ Path.chars l) →
  JS.split sep (JS.join (String sep "") lines) = lines.
Proof.
  intros Hne Hs. induction lines as [|l lines IH]; [done|].
  destruct lines as [|l' lines].
  - cbn [JS.join]. apply split_no_sep, Hs. left.
  - change (JS.join (String sep "") (l :: l' :: lines))
      with (l ++ String sep (JS.join (String sep "") (l' :: lines))).
    rewrite split_cons_sep by (apply Hs; left). f_equal.
    apply IH; [done|]. intros l0 H0. apply Hs. by right.
Qed.

Lemma filter_truthy (lines : list string) :
  (∀ l, l ∈ lines → l ≠ "") → List.filter JS.truthy lines = lines.
Proof.
  induction lines as [|l lines IH]; [done|]. intros H. cbn.
  rewrite (proj2 (truthy_true l)) by (apply H; left). f_equal. apply IH.
  intros l0 H0. apply H. by right.
Qed.


(** ** The lines [stat] prints *)











(** ** The order of a listing *)


Lemma elem_of_map {A B : Type} (f : A → B) (l : list A) (b : B) :
  b ∈ List.map f l ↔ ∃ a, b = f a ∧ a ∈ l.
Proof. change (List.map f l) with (f <$> l). apply list_elem_of_fmap. Qed.

Lemma elem_of_List_filter {A : Type} (p : A → bool) (l : list A) (a : A) :
  a ∈ List.filter p l ↔ a ∈ l ∧ p a = true.
Proof. rewrite !list_elem_of_In. apply filter_In. Qed.






Lemma orders_map {A B : Type} (g : A → B) (cmp : B → B → Z) (l : list A) :
  orders cmp (List.map g l) → orders (λ a b, cmp (g a) (g b)) l.
Proof.
  intros [Ht Htr]. split.
  - intros a b Ha Hb. apply (Ht (g a) (g b)); apply elem_of_map; by eexists.
  - intros a b c Ha Hb Hc. apply (Htr (g a) (g b) (g c)); apply elem_of_map; by eexists.
Qed.


(** ** The local listing *)

Lemma run_localItem (env : Env) (safePath : string) (entry : Dirent) (w : World) :
  (run (localItem env safePath entry) w).1 = localItemOf env safePath (files w) entry
  ∧ files (run (localItem env safePath entry) w).2 = files w.
Proof.
  unfold localItem, localItemOf. cbn.
  by destruct (files w !! Path.join [safePath; de_name entry]).
Qed.

Lemma run_mapProg_localItem (env : Env) (safePath : string) (entries : list Dirent)
    (w : World) :
  (run (mapProg (localItem env safePath) entries) w).1
  = List.map (localItemOf env safePath (files w)) entries.
Proof.
  revert w. induction entries as [|entry entries IH]; intros w; [done|].
  destruct (run_localItem env safePath entry w) as [Hi Hf].
  cbn [mapProg]. unfold mbind, Prog_bind. rewrite run_bind. cbv beta.
  rewrite run_bind. cbv beta. rewrite IH, Hi, Hf. reflexivity.
Qed.


(** ** Remote and local listings of one directory *)










(** * Further properties of the hub *)

(** ** The registry under update and delete *)

Lemma filter_length_all {A : Type} (p : A → bool) (l : list A) :
  List.length (List.filter p l) = List.length l ↔ ∀ x, x ∈ l → p x = true.
Proof.
  induction l as [|a l IH]; cbn.
  - split; [intros _ x Hx; by apply elem_of_nil in Hx | done].
  - pose proof (List.filter_length_le p l) as Hle. destruct (p a) eqn:E; cbn.
    + split.
      * intros H x [->|Hx]%elem_of_cons; [done|]. apply IH; [lia | done].
      * intros H. f_equal. apply IH. intros x Hx. apply H. by right.
    + split; [lia|]. intros H. rewrite (H a) in E; [done | left].
Qed.

Lemma ids_filter_out (id : string) (l : list DeviceConfig) :
  id ∉ ids (List.filter (λ d, negb (has_id id d)) l).
Proof.
  unfold ids. intros (d & E & Hd)%elem_of_map.
  apply elem_of_List_filter in Hd as [_ Hd]. apply negb_true_iff in Hd.
  assert (has_id id d = true) as H by (by apply has_id_true). congruence.
Qed.

Lemma ids_filter_NoDup (p : DeviceConfig → bool) (l : list DeviceConfig) :
  NoDup (ids l) → NoDup (ids (List.filter p l)).
Proof.
  induction l as [|a l IH]; cbn; [done|]. intros [Ha Hl]%NoDup_cons.
  destruct (p a); cbn; [|by apply IH].
  apply NoDup_cons. split; [|by apply IH]. intros H. by apply Ha, (ids_filter p).
Qed.

(** X1: deleting a registered device removes every entry with that id and
    keeps the others, in their order; deleting an id the registry does not
    hold is answered 404 and writes nothing. *)
Theorem delete_device_removes_all (id : string) (w : World) :
  id ≠ "local" →
  (id ∈ ids (registry w) →
     (run (deleteDevice id) w).1 = json (JObj [("success", JBool true)]) 200
     ∧ registry (run (deleteDevice id) w).2
       = List.filter (λ d, negb (has_id id d)) (registry w)
     ∧ (id ∉ ids (registry (run (deleteDevice id) w).2))
     ∧ ∀ d, d ∈ registry w → dc_id d ≠ id → d ∈ registry (run (deleteDevice id) w).2)
  ∧ (id ∉ ids (registry w) →
     (run (deleteDevice id) w).1 = json_error "Device not found" 404
     ∧ devicesFile (run (deleteDevice id) w).2 = devicesFile w
     ∧ List.existsb is_save (calls (deleteDevice id) w) = false).
Proof.
  intros Hl. apply eqb_false_iff in Hl.
  assert (List.length (List.filter (λ d, negb (has_id id d)) (registry w))
          = List.length (registry w) ↔ id ∉ ids (registry w)) as Hlen.
  { rewrite filter_length_all. split.
    - intros H (d & E & Hd)%elem_of_map. specialize (H d Hd).
      apply negb_true_iff in H. assert (has_id id d = true) by (by apply has_id_true).
      congruence.
    - intros H d Hd. apply negb_true_iff. destruct (has_id id d) eqn:E; [|done].
      exfalso. apply H. apply elem_of_map. exists d. split; [|done].
      symmetry. by apply has_id_true. }
  split; intros Hin.
  - change (post (deleteDevice id) w (λ r w' _,
      r = json (JObj [("success", JBool true)]) 200
      ∧ registry w' = List.filter (λ d, negb (has_id id d)) (registry w)
      ∧ (id ∉ ids (registry w'))
      ∧ ∀ d, d ∈ registry w → dc_id d ≠ id → d ∈ registry w')).
    unfold deleteDevice. rewrite Hl. walk.
    + match goal with E : (_ =? _)%nat = true |- _ => apply Nat.eqb_eq, Hlen in E end. done.
    + unfold registry at 1 3 5. cbn [default from_option Datatypes.id devicesFile with_state].
      split; [done|]. split; [done|]. split; [apply ids_filter_out|].
      intros d Hd Hne. apply elem_of_List_filter. split; [done|].
      apply negb_true_iff. destruct (has_id id d) eqn:E'; [|done].
      by apply has_id_true in E'.
  - change (post (deleteDevice id) w (λ r w' cs,
      r = json_error "Device not found" 404 ∧ devicesFile w' = devicesFile w
      ∧ List.existsb is_save cs = false)).
    unfold deleteDevice. rewrite Hl. walk; [done|].
    match goal with E : (_ =? _)%nat = false |- _ => apply Nat.eqb_neq in E end.
    by apply Hlen in Hin.
Qed.

Lemma delete_device_removes_all_witness :
  (run (deleteDevice "mini") (with_devices online [mini; macbook])).1
    = json (JObj [("success", JBool true)]) 200
  ∧ registry (run (deleteDevice "mini") (with_devices online [mini; macbook])).2 = [macbook]
  ∧ (run (deleteDevice "nas") (with_devices online [mini; macbook])).1
    = json_error "Device not found" 404.
Proof.
  destruct (delete_device_removes_all "mini" (with_devices online [mini; macbook]))
    as [H1 _]; [discriminate|].
  destruct (delete_device_removes_all "nas" (with_devices online [mini; macbook]))
    as [_ H2]; [discriminate|].
  destruct H1 as (Hr & Hreg & _).
  { apply list_elem_of_In. cbn. by left. }
  destruct H2 as (Hr' & _).
  { intros H. apply list_elem_of_In in H. cbn in H. by destruct H as [H|[H|[]]]. }
  split; [exact Hr|]. split; [by rewrite Hreg | exact Hr'].
Defined.

(** X2: an update of a registered device rewrites the first entry with that
    id and no other; the ids of the registry, and the SSH host and root of
    the entry, stay as they were.  An id the registry does not hold is
    answered 404 and nothing is written. *)
Theorem put_device_keeps_ids (target : string) (b : UpdateBody) (w : World) :
  target ≠ "local" →
  (target ∉ ids (registry w) →
     (run (putDevice target b) w).1 = json_error "Device not found" 404
     ∧ devicesFile (run (putDevice target b) w).2 = devicesFile w
     ∧ List.existsb is_save (calls (putDevice target b) w) = false)
  ∧ (target ∈ ids (registry w) →
     ∃ idx d,
       registry w !! idx = Some d ∧ dc_id d = target
       ∧ (∀ j d', j < idx → registry w !! j = Some d' → dc_id d' ≠ target)
       ∧ registry (run (putDevice target b) w).2 = <[idx := applyUpdate b d]> (registry w)
       ∧ ids (registry (run (putDevice target b) w).2) = ids (registry w)
       ∧ dc_sshHost (applyUpdate b d) = dc_sshHost d
       ∧ dc_sshRoot (applyUpdate b d) = dc_sshRoot d
       ∧ (run (putDevice target b) w).1
         = json (JObj [("success", JBool true);
                       ("device", public_json (toPublicDevice (applyUpdate b d)))]) 200).
Proof.
  intros Hl. apply eqb_false_iff in Hl. split; intros Hin.
  - change (post (putDevice target b) w (λ r w' cs,
      r = json_error "Device not found" 404 ∧ devicesFile w' = devicesFile w
      ∧ List.existsb is_save cs = false)).
    unfold putDevice. rewrite Hl. walk; [|done].
    match goal with E : list_find _ _ = Some _ |- _ => apply list_find_Some in E as (E & Ed & _) end.
    exfalso. apply Hin, elem_of_map. eexists. split; [symmetry; exact Ed|].
    by eapply list_elem_of_lookup_2.
  - change (post (putDevice target b) w (λ r w' _,
      ∃ idx d,
        registry w !! idx = Some d ∧ dc_id d = target
        ∧ (∀ j d', j < idx → registry w !! j = Some d' → dc_id d' ≠ target)
        ∧ registry w' = <[idx := applyUpdate b d]> (registry w)
        ∧ ids (registry w') = ids (registry w)
        ∧ dc_sshHost (applyUpdate b d) = dc_sshHost d
        ∧ dc_sshRoot (applyUpdate b d) = dc_sshRoot d
        ∧ r = json (JObj [("success", JBool true);
                          ("device", public_json (toPublicDevice (applyUpdate b d)))]) 200)).
    unfold putDevice. rewrite Hl. walk.
    + match goal with
      | E : list_find _ _ = Some (?i, ?d) |- _ =>
          apply list_find_Some in E as (E & Ed & Hfirst); exists i, d
      end.
      split; [done|]. split; [done|].
      split; [intros j d' Hj Hd'; by eapply Hfirst|].
      unfold registry at 2 4. cbn [default from_option Datatypes.id devicesFile with_state].
      split; [done|]. split; [|done]. by eapply ids_insert_same.
    + match goal with
      | E : list_find _ _ = None |- _ => apply list_find_None in E; rename E into Hnone
      end.
      exfalso. apply elem_of_map in Hin as (d & -> & Hd).
      by apply (proj1 (Forall_forall _ _) Hnone d Hd).
Qed.

Lemma put_device_keeps_ids_witness :
  (run (putDevice "nas" {| ub_name := Some "NAS"; ub_url := None; ub_authToken := None;
                           ub_icon := None; ub_enabled := None |})
     (with_devices online [mini; macbook])).1
  = json_error "Device not found" 404
  ∧ ids (registry (run (putDevice "macbook"
                          {| ub_name := Some "Air"; ub_url := None; ub_authToken := None;
                             ub_icon := None; ub_enabled := Some false |})
                     (with_devices online [mini; macbook])).2)
    = ["mini"; "macbook"].
Proof.
  destruct (put_device_keeps_ids "nas"
              {| ub_name := Some "NAS"; ub_url := None; ub_authToken := None;
                 ub_icon := None; ub_enabled := None |}
              (with_devices online [mini; macbook])) as [H1 _]; [discriminate|].
  destruct (put_device_keeps_ids "macbook"
              {| ub_name := Some "Air"; ub_url := None; ub_authToken := None;
                 ub_icon := None; ub_enabled := Some false |}
              (with_devices online [mini; macbook])) as [_ H2]; [discriminate|].
  destruct H1 as (Hr & _).
  { intros H. apply list_elem_of_In in H. cbn in H. by destruct H as [H|[H|[]]]. }
  destruct H2 as (idx & d & _ & _ & _ & _ & Hids & _).
  { apply list_elem_of_In. cbn. right. by left. }
  split; [exact Hr | exact Hids].
Defined.

(** ** Invariants of the devices file *)

Lemma handler_keeps_ids_unique (env : Env) (op : RegistryOp) (w : World) :
  NoDup (ids (registry w)) → NoDup (ids (registry (run (registryHandler env op) w).2)).
Proof.
  intros Hw.
  change (post (registryHandler env op) w (λ _ w' _, NoDup (ids (registry w')))).
  destruct op as [|c b|i b|i|c i]; cbn [registryHandler].
  - unfold getDevices, getLocalName, getLocalIcon, loadSettings. walk; exact Hw.
  - unfold postDevices. walk; try exact Hw.
    all: unfold registry in *; cbn [default from_option Datatypes.id devicesFile with_state].
    all: rewrite ids_app; apply NoDup_app; split; [exact Hw|].
    all: split; [|apply NoDup_singleton].
    all: intros x Hx Hx'; cbn in Hx'; apply list_elem_of_singleton in Hx'; subst x.
    all: match goal with
         | E : (_ =? "local") || _ = false |- _ =>
             apply orb_false_iff in E as [_ E];
             apply existsb_has_id in Hx; unfold registry in Hx; congruence
         end.
  - unfold putDevice. walk; try exact Hw.
    unfold registry in *; cbn [default from_option Datatypes.id devicesFile with_state].
    match goal with
    | E : list_find _ _ = Some (?i, ?d) |- _ => apply list_find_Some in E as (E & _ & _)
    end.
    erewrite ids_insert_same; [exact Hw | eassumption | reflexivity].
  - unfold deleteDevice. walk; try exact Hw.
    unfold registry in *; cbn [default from_option Datatypes.id devicesFile with_state].
    by apply ids_filter_NoDup.
  - unfold getDeviceHealth. walk; exact Hw.
Qed.

(** X3: device ids stay unique.  If no two entries of the devices file share
    an id, none do after any sequence of list, add, update, delete and health
    requests. *)
Theorem registry_ids_stay_unique (env : Env) (ops : list RegistryOp) (w : World) :
  NoDup (ids (registry w)) → NoDup (ids (registry (serve env ops w))).
Proof.
  revert w. induction ops as [|op ops IH]; intros w Hw; [exact Hw|].
  cbn [serve List.fold_left]. apply IH. by apply handler_keeps_ids_unique.
Qed.

Lemma registry_ids_stay_unique_witness :
  NoDup (ids (registry (serve no_env
                          [OpAdd (plain_request "POST" "/api/devices")
                             (http_body "Mini" "http://host:3456");
                           OpAdd (plain_request "POST" "/api/devices")
                             (http_body "mini!" "http://other:3456");
                           OpAdd (plain_request "POST" "/api/devices")
                             (ssh_body None "macbook");
                           OpDelete "mini"] online))).
Proof.
  apply (registry_ids_stay_unique no_env
           [OpAdd (plain_request "POST" "/api/devices") (http_body "Mini" "http://host:3456");
            OpAdd (plain_request "POST" "/api/devices") (http_body "mini!" "http://other:3456");
            OpAdd (plain_request "POST" "/api/devices") (ssh_body None "macbook");
            OpDelete "mini"] online).
  cbn. apply NoDup_nil_2.
Defined.

Lemma strip_trailing_slashes_last (s : string) :
  last_char (Re.strip_trailing_slashes s) ≠ Some "/"%char.
Proof.
  induction s as [|c s IH]; [done|]. cbn [Re.strip_trailing_slashes].
  destruct (Re.strip_trailing_slashes s) as [|a t] eqn:E.
  - destruct (Ascii.eqb c "/") eqn:Ec; [done|]. cbn. intros [= ->]. done.
  - exact IH.
Qed.

Lemma handler_keeps_urls_clean (env : Env) (op : RegistryOp) (w : World) :
  Forall url_clean (registry w) →
  Forall url_clean (registry (run (registryHandler env op) w).2).
Proof.
  intros Hw.
  change (post (registryHandler env op) w (λ _ w' _, Forall url_clean (registry w'))).
  destruct op as [|c b|i b|i|c i]; cbn [registryHandler].
  - unfold getDevices, getLocalName, getLocalIcon, loadSettings. walk; exact Hw.
  - unfold postDevices. walk; try exact Hw.
    all: unfold registry in *; cbn [default from_option Datatypes.id devicesFile with_state].
    all: apply Forall_app; split; [exact Hw|]; apply Forall_singleton.
    all: unfold url_clean; cbn [dc_url]; first [done | apply strip_trailing_slashes_last].
  - unfold putDevice. walk; try exact Hw.
    unfold registry in *; cbn [default from_option Datatypes.id devicesFile with_state].
    match goal with
    | E : list_find _ _ = Some (?i, ?d) |- _ =>
        apply list_find_Some in E as (E & _ & _);
        pose proof (proj1 (Forall_forall _ _) Hw d (list_elem_of_lookup_2 _ _ _ E)) as Hd
    end.
    apply Forall_insert; [exact Hw|]. unfold url_clean in *. cbn [applyUpdate dc_url].
    destruct (ub_url b); cbn; [apply strip_trailing_slashes_last | exact Hd].
  - unfold deleteDevice. walk; try exact Hw.
    unfold registry in *; cbn [default from_option Datatypes.id devicesFile with_state].
    apply Forall_forall. intros d [Hd _]%elem_of_List_filter.
    by apply (proj1 (Forall_forall _ _) Hw).
  - unfold getDeviceHealth. walk; exact Hw.
Qed.

(** X4: stored URLs never end with a slash.  Add and update strip the
    slashes that end the URL they are given (an SSH device is stored with
    the empty URL), so a devices file whose URLs end without a slash stays
    so under any sequence of registry requests. *)
Theorem stored_urls_end_without_slash (env : Env) (ops : list RegistryOp) (w : World) :
  Forall url_clean (registry w) → Forall url_clean (registry (serve env ops w)).
Proof.
  revert w. induction ops as [|op ops IH]; intros w Hw; [exact Hw|].
  cbn [serve List.fold_left]. apply IH. by apply handler_keeps_urls_clean.
Qed.

Lemma stored_urls_end_without_slash_witness :
  Forall url_clean
    (registry (serve no_env
                 [OpAdd (plain_request "POST" "/api/devices")
                    (http_body "Mini" "http://host:3456///");
                  OpUpdate "mini" {| ub_name := None; ub_url := Some "http://mini.lan/";
                                     ub_authToken := None; ub_icon := None;
                                     ub_enabled := None |}] online)).
Proof.
  apply (stored_urls_end_without_slash no_env
           [OpAdd (plain_request "POST" "/api/devices") (http_body "Mini" "http://host:3456///");
            OpUpdate "mini" {| ub_name := None; ub_url := Some "http://mini.lan/";
                               ub_authToken := None; ub_icon := None; ub_enabled := None |}]
           online).
  cbn. apply Forall_nil_2.
Defined.

(** ** The health check *)

(** X5: a health check reads and never writes: the devices file and the file
    system are as before, at most one SSH or HTTP request goes out, and the
    answer is 200 unless the id is unknown (404).  For [local] nothing is
    asked at all. *)
Theorem health_check_reads_only (env : Env) (c : Request) (target : string) (w : World) :
  devicesFile (run (getDeviceHealth env c target) w).2 = devicesFile w
  ∧ files (run (getDeviceHealth env c target) w).2 = files w
  ∧ List.existsb is_save (calls (getDeviceHealth env c target) w) = false
  ∧ (List.length (List.filter is_remote (calls (getDeviceHealth env c target) w)) ≤ 1)%nat
  ∧ (status (run (getDeviceHealth env c target) w).1
     = if bool_decide (target ≠ "local" ∧ target ∉ ids (registry w)) then 404%N else 200%N)
  ∧ (target = "local" →
     run (getDeviceHealth env c target) w
       = (json (JObj [("status", JStr "ok"); ("latency", JNum 0)]) 200, w)).
Proof.
  split_and!; try (by intros ->).
  all: match goal with
       | |- ?P =>
           let Q := eval pattern (run (getDeviceHealth env c target) w).1,
                                 (run (getDeviceHealth env c target) w).2,
                                 (calls (getDeviceHealth env c target) w) in P in
           match Q with ?F _ _ _ => change (post (getDeviceHealth env c target) w F) end
       end.
  all: unfold getDeviceHealth; walk; cbn; try done; try lia.
  all: try match goal with
       | E : (_ =? "local") = true |- _ =>
           apply String.eqb_eq in E; subst; rewrite bool_decide_eq_false_2; [done|]; by intros [? _]
       end.
  all: match goal with
       | E : (_ =? "local") = false |- _ => apply eqb_false_iff in E
       end.
  all: match goal with
       | E : List.find _ _ = Some _ |- _ =>
           apply find_has_id_Some in E as [E1 E2];
           rewrite bool_decide_eq_false_2; [done|]; intros [_ H]; apply H, elem_of_map;
           eexists; split; [symmetry; exact E2 | exact E1]
       | E : List.find _ _ = None |- _ =>
           apply find_has_id_None in E; rewrite bool_decide_eq_true_2; done
       end.
Qed.

(** ** The SSH branch of the device proxy *)

Lemma under_longer (root rel : string) : under root rel ≠ root.
Proof.
  unfold under. intros H. apply (f_equal String.length) in H.
  rewrite !length_chars, !chars_app, !length_app in H. cbn in H. lia.
Qed.

(** X6: the root guard of the SSH delete never fires.  The target is the
    root followed by a slash and the path of the body, which is never the
    root itself, so every delete request sends [rm -rf] of that target; for
    the empty path the target is the root with a slash after it. *)
Theorem ssh_delete_always_removes (rt : Runtime) (env : Env) (c : Request) (deviceId : string)
    (device : DeviceConfig) (fb : FileOpBody) (w : World) :
  deviceId ≠ "local" →
  List.find (has_id deviceId) (registry w) = Some device →
  dc_enabled device = true →
  JS.truthy_opt (dc_sshHost device) = true →
  routeSuffix c deviceId = "delete" →
  method c = "POST" →
  ssh_commands (calls (deviceRoute rt env c deviceId (Return fb)) w)
  = ["rm -rf " ++ Rt.JSON_stringify (JS.or_else (dc_sshRoot device) "/" ++ "/"
                                     ++ interpolate (fb_path fb))]
  ∧ ((run (deviceRoute rt env c deviceId (Return fb)) w).1 = success
     ∨ (run (deviceRoute rt env c deviceId (Return fb)) w).1
       = json_error "Failed to delete" 500).
Proof.
  intros Hl Hfind Hen Hssh Hsuffix Hm. apply eqb_false_iff in Hl.
  change (post (deviceRoute rt env c deviceId (Return fb)) w (λ r _ cs,
    ssh_commands cs
    = ["rm -rf " ++ Rt.JSON_stringify (JS.or_else (dc_sshRoot device) "/" ++ "/"
                                       ++ interpolate (fb_path fb))]
    ∧ (r = success ∨ r = json_error "Failed to delete" 500))).
  unfold deviceRoute. rewrite Hl. apply post_bind, post_loadDevices.
  rewrite Hfind, Hen, Hssh. cbn [negb]. apply post_bind.
  unfold sshRoute. cbv zeta. rewrite Hsuffix, Hm.
  cbn [String.eqb Ascii.eqb Bool.eqb andb].
  rewrite (proj2 (eqb_false_iff _ _) (under_longer _ _)).
  walk. cbn. split; [done|]. unfold success_or. destruct (code _ =? 0)%Z; [by left | by right].
Qed.

Lemma ssh_delete_always_removes_witness :
  ssh_commands (calls (deviceRoute sample_runtime home_env
                         (plain_request "POST" "/api/d/macbook/delete") "macbook"
                         (Return (path_body "")))
                  (with_devices online [macbook]))
  = ["rm -rf " ++ dquote ++ "/Users/ben/" ++ dquote].
Proof.
  destruct (ssh_delete_always_removes sample_runtime home_env
              (plain_request "POST" "/api/d/macbook/delete") "macbook" macbook (path_body "")
              (with_devices online [macbook])) as [H _];
    [discriminate | reflexivity | reflexivity | reflexivity | vm_compute; reflexivity
     | reflexivity |].
  exact H.
Defined.

Lemma not_operation (suffix m op m' : string) :
  (suffix, m) ≠ (op, m') → (suffix =? op) && (m =? m') = false.
Proof.
  intros H. destruct (suffix =? op) eqn:E1, (m =? m') eqn:E2; try done.
  apply String.eqb_eq in E1, E2. congruence.
Qed.

(** X7: an operation the SSH branch does not serve (a suffix outside its
    list, or one of its suffixes under another method) is answered 400 with
    the suffix in the message, whatever the body, and nothing is sent to the
    device. *)
Theorem ssh_unsupported_operation (rt : Runtime) (c : Request) (deviceId : string)
    (device : DeviceConfig) (b : Outcome FileOpBody) (w : World) :
  (routeSuffix c deviceId, method c) ∉ ssh_operations →
  routeSuffix c deviceId ≠ "recent" →
  run (sshRoute rt c deviceId device b) w
  = (Return (json_error ("Unsupported SSH operation: " ++ routeSuffix c deviceId) 400), w)
  ∧ calls (sshRoute rt c deviceId device b) w = [].
Proof.
  intros Hop Hrecent. unfold sshRoute. cbv zeta.
  assert (∀ op m, (op, m) ∈ ssh_operations →
            (routeSuffix c deviceId =? op) && (method c =? m) = false) as Hno.
  { intros op m Hin. apply not_operation. intros E. apply Hop. by rewrite E. }
  rewrite !Hno by (apply list_elem_of_In; cbn; tauto).
  by rewrite (proj2 (eqb_false_iff _ _) Hrecent).
Qed.

Lemma ssh_unsupported_operation_witness :
  run (sshRoute sample_runtime (plain_request "POST" "/api/d/macbook/upload") "macbook"
         macbook (Throw "Unexpected end of JSON input")) online
  = (Return (json_error "Unsupported SSH operation: upload" 400), online).
Proof.
  destruct (ssh_unsupported_operation sample_runtime
              (plain_request "POST" "/api/d/macbook/upload") "macbook" macbook
              (Throw "Unexpected end of JSON input") online) as [H _].
  - intros H. apply list_elem_of_In in H. vm_compute in H.
    repeat (destruct H as [H|H]; [discriminate H|]). exact H.
  - vm_compute. discriminate.
  - exact H.
Defined.

(** Preview, info and download over SSH need a path: without a non-empty
    [path] parameter the answer is 400 and no command is sent. *)
Lemma ssh_path_required (rt : Runtime) (c : Request) (deviceId : string)
    (device : DeviceConfig) (b : Outcome FileOpBody) (w : World) :
  routeSuffix c deviceId ∈ ["preview"; "info"; "download"] →
  method c = "GET" →
  param_or_empty c "path" = "" →
  run (sshRoute rt c deviceId device b) w = (Return (json_error "path required" 400), w)
  ∧ calls (sshRoute rt c deviceId device b) w = [].
Proof.
  intros Hop Hm Hp. unfold sshRoute. cbv zeta. rewrite Hm, Hp.
  repeat (apply elem_of_cons in Hop as [->|Hop]); [| | |by apply elem_of_nil in Hop]; done.
Qed.

(** X8: a search over SSH with a query of fewer than two characters (a
    missing query is the empty one) answers with no results and sends
    nothing; with a longer query one [find] is sent and at most 50 results
    come back, whatever the fuzzy search ranks. *)
Theorem ssh_search_bounds (rt : Runtime) (c : Request) (deviceId : string)
    (device : DeviceConfig) (b : Outcome FileOpBody) (w : World) :
  routeSuffix c deviceId = "search" →
  method c = "GET" →
  ((String.length (param_or_empty c "q") < 2)%nat →
     run (sshRoute rt c deviceId device b) w
       = (Return (json (JObj [("results", JArr [])]) 200), w)
     ∧ calls (sshRoute rt c deviceId device b) w = [])
  ∧ ((2 ≤ String.length (param_or_empty c "q"))%nat →
     (∃ results,
        (run (sshRoute rt c deviceId device b) w).1
          = Return (json (JObj [("results", JArr results)]) 200)
        ∧ (List.length results ≤ 50)%nat)
     ∧ ssh_commands (calls (sshRoute rt c deviceId device b) w)
       = ["find "
          ++ Rt.JSON_stringify
               (if JS.truthy (param_or_empty c "path")
                then under (JS.or_else (dc_sshRoot device) "/") (param_or_empty c "path")
                else JS.or_else (dc_sshRoot device) "/")
          ++ " -maxdepth 5 -name '*' 2>/dev/null | head -500"]).
Proof.
  intros Hop Hm. unfold sshRoute. cbv zeta. rewrite Hop, Hm.
  cbn [String.eqb Ascii.eqb Bool.eqb andb]. split; intros Hq.
  - by rewrite (proj2 (Nat.ltb_lt _ _) Hq).
  - rewrite (proj2 (Nat.ltb_ge _ _) Hq).
    match goal with
    | |- (∃ results, (run ?p w).1 = _ ∧ _) ∧ ssh_commands (calls ?p w) = ?cmds =>
        change (post p w (λ r _ cs,
          (∃ results, r = Return (json (JObj [("results", JArr results)]) 200)
                      ∧ (List.length results ≤ 50)%nat)
          ∧ ssh_commands cs = cmds))
    end.
    unfold sshSearch. cbv zeta. walk. split; [|done].
    eexists. split; [reflexivity|]. rewrite length_map, length_take. lia.
Qed.

Lemma ssh_search_bounds_witness :
  run (sshRoute sample_runtime
         {| method := "GET"; path := "/api/d/macbook/search"; headers := ∅;
            query := [("q", "a")] |} "macbook" macbook (Throw "no body")) online
  = (Return (json (JObj [("results", JArr [])]) 200), online).
Proof.
  destruct (ssh_search_bounds sample_runtime
              {| method := "GET"; path := "/api/d/macbook/search"; headers := ∅;
                 query := [("q", "a")] |} "macbook" macbook (Throw "no body") online)
    as [[H _] _]; [vm_compute; reflexivity | reflexivity | vm_compute; lia | exact H].
Defined.

(** ** Listings over SSH: what can go wrong *)

Lemma parseLine_throws (rt : Runtime) (requestedPath line m : string) :
  parseLine rt requestedPath line = Throw m → m = invalidDate rt.
Proof.
  unfold parseLine, epoch_field. cbv zeta.
  destruct (Rt.parseInt (JS.split "|" line !! 3%nat)) as [seconds|]; [|congruence].
  destruct (Rt.date_in_range (seconds * 1000)); congruence.
Qed.

Lemma parseLine_short (rt : Runtime) (requestedPath line : string) :
  (List.length (JS.split "|" line) < 4)%nat →
  parseLine rt requestedPath line = Throw (invalidDate rt).
Proof.
  intros H. unfold parseLine, epoch_field. cbv zeta.
  by rewrite (lookup_ge_None_2 (JS.split "|" line) 3) by lia.
Qed.

Lemma map_outcome_throws {A B : Type} (f : A → Outcome B) (l : list A) (m0 : string) :
  (∀ x m, f x = Throw m → m = m0) →
  (∃ x, x ∈ l ∧ f x = Throw m0) →
  map_outcome f l = Throw m0.
Proof.
  intros Hm. induction l as [|a l IH]; intros (x & Hx & Hf).
  - by apply elem_of_nil in Hx.
  - cbn. destruct (f a) as [y|m] eqn:Ea; [|by rewrite (Hm a m Ea)].
    rewrite IH; [done|]. apply elem_of_cons in Hx as [->|Hx]; [congruence|].
    by exists x.
Qed.

(** X9: one line that cannot be read fails the whole listing.  If the
    output of the remote holds a line with fewer than four fields (as a file
    name with a line break in it makes), [sshListFiles] throws the
    [RangeError] of [toISOString] and returns no listing. *)
Theorem ssh_listing_fails_as_a_whole (rt : Runtime) (host rootDir requestedPath : string)
    (showHidden : bool) (line : string) (w : World) :
  line ∈ output_lines
           (stdout (ssh w (trace w) host
                      (listFilesCommand
                         (if JS.truthy requestedPath then under rootDir requestedPath
                          else rootDir) showHidden) 15000)) →
  (List.length (JS.split "|" line) < 4)%nat →
  (run (sshListFiles rt host rootDir requestedPath showHidden) w).1 = Throw (invalidDate rt).
Proof.
  intros Hin Hshort. unfold sshListFiles. cbv zeta. unfold mbind, Prog_bind.
  rewrite run_bind. cbn [trigger run answer respond fst snd].
  set (r := ssh w (trace w) host _ 15000) in *.
  assert (JS.truthy (JS.trim (stdout r)) = true) as Hne.
  { apply truthy_true. intros E. unfold output_lines in Hin. rewrite E in Hin.
    cbn in Hin. by apply elem_of_nil in Hin. }
  rewrite Hne, andb_false_r.
  rewrite (map_outcome_throws _ _ (invalidDate rt)); [done | apply parseLine_throws |].
  exists line. split; [done | by apply parseLine_short].
Qed.

Lemma ssh_listing_fails_as_a_whole_witness :
  (run (sshListFiles sample_runtime "host" "/home/user" "" false) broken_listing).1
  = Throw "Invalid Date".
Proof.
  apply (ssh_listing_fails_as_a_whole sample_runtime "host" "/home/user" "" false
           "regular file|a" broken_listing).
  - vm_compute. left.
  - vm_compute. lia.
Defined.

(** X10: when the remote prints nothing, the exit code decides: with code 0
    (an empty directory) the listing has no files; with another code (the
    directory is not there, the host is not reachable) [sshListFiles] throws
    [Failed to list directory]. *)
Theorem ssh_listing_of_blank_output (rt : Runtime) (host rootDir requestedPath : string)
    (showHidden : bool) (w : World) :
  JS.trim (stdout (ssh w (trace w) host
                     (listFilesCommand
                        (if JS.truthy requestedPath then under rootDir requestedPath
                         else rootDir) showHidden) 15000)) = "" →
  (run (sshListFiles rt host rootDir requestedPath showHidden) w).1
  = if (code (ssh w (trace w) host
                (listFilesCommand
                   (if JS.truthy requestedPath then under rootDir requestedPath
                    else rootDir) showHidden) 15000) =? 0)%Z
    then Return {| ls_path := requestedPath;
                   ls_breadcrumbs :=
                     ("Home", "")
                     :: (if JS.truthy requestedPath
                         then crumbs_of "/" (JS.split "/" requestedPath) else []);
                   ls_files := [] |}
    else Throw "Failed to list directory".
Proof.
  intros Hblank. unfold sshListFiles. cbv zeta. unfold mbind, Prog_bind.
  rewrite run_bind. cbn [trigger run answer respond fst snd].
  set (r := ssh w (trace w) host _ 15000) in *.
  unfold output_lines. rewrite Hblank. by destruct (code r =? 0)%Z.
Qed.

Lemma ssh_listing_of_blank_output_witness :
  (run (sshListFiles sample_runtime "host" "/home/user" "gone" false) offline).1
  = Throw "Failed to list directory".
Proof.
  apply (ssh_listing_of_blank_output sample_runtime "host" "/home/user" "gone" false offline).
  reflexivity.
Defined.

(** ** Breadcrumbs *)

Lemma join_split (sep : ascii) (s : string) : JS.join (String sep "") (JS.split sep s) = s.
Proof.
  induction s as [|c s IH]; [done|]. cbn [JS.split].
  pose proof (split_nonempty sep s) as Hne.
  destruct (JS.split sep s) as [|h t] eqn:E; [done|].
  destruct (Ascii.eqb c sep) eqn:Ec.
  - apply Ascii.eqb_eq in Ec as ->.
    change (JS.join (String sep "") ("" :: h :: t))
      with (String sep (JS.join (String sep "") (h :: t))). by rewrite IH.
  - destruct t as [|h' t].
    + cbn in *. by rewrite IH.
    + change (JS.join (String sep "") (String c h :: h' :: t))
        with (String c (JS.join (String sep "") (h :: h' :: t))). by rewrite IH.
Qed.

Lemma append_empty_r (s : string) : s ++ "" = s.
Proof. induction s as [|c s IH]; [done|]. by rewrite append_cons, IH. Qed.

Lemma join_take_prefix (sep : string) (l : list string) (n : nat) :
  ∃ rest, JS.join sep l = JS.join sep (take n l) ++ rest.
Proof.
  revert n. induction l as [|a l IH]; intros n.
  - exists "". by destruct n.
  - destruct n as [|n]; [by exists (JS.join sep (a :: l))|].
    destruct (IH n) as [rest Hrest]. destruct l as [|b l].
    + exists "". destruct n; cbn; by rewrite append_empty_r.
    + destruct n as [|n].
      * cbn [take JS.join]. by exists (sep ++ JS.join sep (b :: l)).
      * exists rest. change (take (S (S n)) (a :: b :: l)) with (a :: b :: take n l).
        change (take (S n) (b :: l)) with (b :: take n l) in Hrest.
        change (JS.join sep (a :: b :: l)) with (a ++ sep ++ JS.join sep (b :: l)).
        change (JS.join sep (a :: b :: take n l))
          with (a ++ sep ++ JS.join sep (b :: take n l)).
        by rewrite Hrest, !append_assoc.
Qed.

Lemma crumbs_of_names (sep : string) (parts : list string) :
  List.map fst (crumbs_of sep parts) = parts.
Proof.
  unfold crumbs_of. rewrite List.map_map. cbn [fst].
  apply list_eq. intros i. change (List.map ?f ?l) with (f <$> l).
  rewrite list_lookup_fmap. destruct (decide (i < List.length parts)) as [Hi|Hi].
  - rewrite lookup_seq_lt by done. cbn.
    destruct (lookup_lt_is_Some_2 parts i Hi) as [x Hx]. by rewrite Hx.
  - rewrite lookup_seq_ge by lia. cbn. symmetry. apply lookup_ge_None_2. lia.
Qed.

Lemma crumbs_of_paths (sep : string) (parts : list string) (i : nat) (c : string * string) :
  crumbs_of sep parts !! i = Some c → c.2 = JS.join sep (take (S i) parts).
Proof.
  unfold crumbs_of. change (List.map ?f ?l) with (f <$> l). rewrite list_lookup_fmap.
  intros H. apply fmap_Some in H as (j & Hj & ->). apply lookup_seq in Hj as [-> _]. done.
Qed.

Lemma crumbs_of_length (sep : string) (parts : list string) :
  List.length (crumbs_of sep parts) = List.length parts.
Proof. unfold crumbs_of. by rewrite length_map, length_seq. Qed.

(** X11: the breadcrumbs of an SSH listing start at [Home]; after it comes
    one crumb for each segment of the requested path, named by the segment;
    the path of each crumb is a prefix of the requested path, and the last
    crumb leads to the requested path itself. *)
Theorem ssh_breadcrumbs (rt : Runtime) (host rootDir requestedPath : string)
    (showHidden : bool) (w : World) (l : Listing) :
  (run (sshListFiles rt host rootDir requestedPath showHidden) w).1 = Return l →
  ls_path l = requestedPath
  ∧ List.map fst (ls_breadcrumbs l)
    = "Home" :: (if JS.truthy requestedPath then JS.split "/" requestedPath else [])
  ∧ (∀ c, c ∈ ls_breadcrumbs l → JS.startsWith requestedPath c.2 = true)
  ∧ (requestedPath ≠ "" → snd <$> last (ls_breadcrumbs l) = Some requestedPath).
Proof.
  unfold sshListFiles. cbv zeta. unfold mbind, Prog_bind. rewrite run_bind.
  cbn [trigger run answer respond fst snd].
  set (r := ssh w (trace w) host _ 15000).
  destruct (negb (code r =? 0)%Z && negb (JS.truthy (JS.trim (stdout r)))); [done|].
  destruct (map_outcome _ _) as [items|m]; [|done]. cbn. intros [= <-]. cbn.
  split; [done|]. destruct (JS.truthy requestedPath) eqn:Et.
  - split; [by rewrite crumbs_of_names|]. split.
    + intros c [->|Hc]%elem_of_cons; [by destruct requestedPath|].
      apply list_elem_of_lookup in Hc as [i Hi]. rewrite (crumbs_of_paths _ _ _ _ Hi).
      destruct (join_take_prefix "/" (JS.split "/" requestedPath) (S i)) as [rest Hrest].
      rewrite join_split in Hrest. rewrite Hrest at 1. apply prefix_app.
    + intros _. pose proof (split_nonempty "/" requestedPath) as Hne.
      pose proof (crumbs_of_length "/" (JS.split "/" requestedPath)) as Hlen.
      assert (0 < List.length (JS.split "/" requestedPath))%nat as Hpos
        by (destruct (JS.split "/" requestedPath); [done | cbn; lia]).
      assert (last (("Home", "") :: crumbs_of "/" (JS.split "/" requestedPath))
              = last (crumbs_of "/" (JS.split "/" requestedPath))) as ->.
      { destruct (crumbs_of "/" (JS.split "/" requestedPath)); [cbn in Hlen; lia | done]. }
      rewrite last_lookup, Hlen.
      destruct (crumbs_of "/" (JS.split "/" requestedPath) !! _) as [c|] eqn:Ei.
      * cbn. f_equal. rewrite (crumbs_of_paths _ _ _ _ Ei).
        rewrite Nat.succ_pred by lia. by rewrite firstn_all, join_split.
      * apply lookup_ge_None_1 in Ei. lia.
  - split; [done|]. apply truthy_false in Et as ->. split; [|done].
    intros c Hc. apply list_elem_of_singleton in Hc as ->. done.
Qed.

Lemma ssh_breadcrumbs_witness :
  ∃ l, (run (sshListFiles sample_runtime "host" "/home/user" "src/lib" false)
          sample_directory).1 = Return l
       ∧ List.map fst (ls_breadcrumbs l) = ["Home"; "src"; "lib"]
       ∧ snd <$> last (ls_breadcrumbs l) = Some "src/lib".
Proof.
  eexists. split; [vm_compute; reflexivity|].
  match goal with
  | |- List.map fst (ls_breadcrumbs ?l) = _ ∧ _ =>
      destruct (ssh_breadcrumbs sample_runtime "host" "/home/user" "src/lib" false
                  sample_directory l) as (_ & Hn & _ & Hl); [vm_compute; reflexivity|]
  end.
  split; [exact Hn | apply Hl; discriminate].
Defined.

(** ** The HTTP proxy *)




(** *** Search parameters *)








(** ** The local device behind the proxy route *)

Lemma slice_from_app (pat rest : string) : JS.slice_from (String.length pat) (pat ++ rest) = rest.
Proof. induction pat as [|a pat IH]; [by destruct rest | exact IH]. Qed.

Lemma replace_first_prefix (pat rep rest : string) :
  Rt.replace_first pat rep (pat ++ rest) = rep ++ rest.
Proof.
  assert (∀ s, Rt.replace_first pat rep s
               = if String.prefix pat s then rep ++ JS.slice_from (String.length pat) s
                 else match s with
                      | EmptyString => EmptyString
                      | String c s' => String c (Rt.replace_first pat rep s')
                      end) as Hunfold by (by intros []).
  by rewrite Hunfold, prefix_app, slice_from_app.
Qed.

(** X14: a request for the device [local] is handed to the application
    itself with [/api/d/local] cut from the front of its path, under the
    same method, headers and query; the answer is passed back as it is, and
    neither the registry nor a remote is asked. *)
Theorem local_route_dispatch (rt : Runtime) (env : Env) (c : Request)
    (b : Outcome FileOpBody) (rest : string) (w : World) :
  path c = "/api/d/local" ++ rest →
  dispatched (calls (deviceRoute rt env c "local" b) w)
    = [{| method := method c; path := "/api" ++ rest; headers := headers c;
          query := query c |}]
  ∧ List.length (calls (deviceRoute rt env c "local" b) w) = 1
  ∧ (run (deviceRoute rt env c "local" b) w).1
    = dispatch w (trace w) {| method := method c; path := "/api" ++ rest;
                              headers := headers c; query := query c |}.
Proof.
  intros Hp. unfold deviceRoute. cbn [String.eqb Ascii.eqb Bool.eqb].
  rewrite Hp, replace_first_prefix. done.
Qed.

Lemma local_route_dispatch_witness :
  dispatched (calls (deviceRoute sample_runtime no_env
                       (plain_request "GET" "/api/d/local/files") "local" (Throw "no body"))
                online)
  = [plain_request "GET" "/api/files"].
Proof.
  destruct (local_route_dispatch sample_runtime no_env
              (plain_request "GET" "/api/d/local/files") (Throw "no body") "/files" online)
    as [H _]; [reflexivity | exact H].
Defined.

(** ** Tokens passed from hub to hub *)

Lemma trimStart_shape (s : string) :
  JS.trimStart s = "" ∨ ∃ c r, JS.trimStart s = String c r ∧ JS.is_space c = false.
Proof.
  induction s as [|c s IH]; [by left|]. cbn. destruct (JS.is_space c) eqn:E; [exact IH|].
  right. by exists c, s.
Qed.

Lemma trimEnd_first (c : ascii) (r : string) :
  JS.is_space c = false → ∃ r', JS.trimEnd (String c r) = String c r'.
Proof.
  intros Hc. cbn. destruct (JS.trimEnd r); [|by eexists]. rewrite Hc. by eexists.
Qed.

Lemma trimmed_parts (t : string) :
  JS.trim t = t → t ≠ "" → JS.trimStart t = t ∧ JS.trimEnd t = t ∧ has_nonspace t = true.
Proof.
  intros Ht Hne. unfold JS.trim in Ht.
  assert (JS.trimStart t = t) as Hs.
  { destruct (trimStart_shape t) as [E|(c & r & E & Hc)].
    - rewrite E in Ht. cbn in Ht. congruence.
    - rewrite E in Ht. destruct (trimEnd_first c r Hc) as [r' Er]. rewrite Er in Ht.
      subst t. cbn. by rewrite Hc. }
  rewrite Hs in Ht. split; [done|]. split; [done|].
  destruct (has_nonspace t) eqn:E; [done|]. apply trimEnd_empty in E. congruence.
Qed.

(** X15: a forwarded header is read back as the token it was made from.
    For a token that is trimmed, not empty and not itself in Bearer form, a
    request whose [Authorization] header is [normalizeBearer token] yields
    that token, and a hub that has no token of its own for the device
    forwards the same header again. *)
Theorem bearer_round_trip (env : Env) (c : Request) (token : string) :
  JS.trim token = token → token ≠ "" → JS.startsWith token "Bearer " = false →
  header c "authorization" = Some (normalizeBearer token) →
  getTokenFromRequest c = Some token
  ∧ getForwardAuthHeader env c None = Some (normalizeBearer token).
Proof.
  intros Ht Hne Hb Hh.
  destruct (trimmed_parts token Ht Hne) as (Hs & He & Hn).
  assert (getTokenFromRequest c = Some token) as Hget.
  { unfold getTokenFromRequest. cbv zeta. rewrite Hh. unfold normalizeBearer. rewrite Hb.
    rewrite or_else_Some_empty.
    assert (JS.trim ("Bearer " ++ token) = "Bearer " ++ token) as ->.
    { unfold JS.trim. change ("Bearer " ++ token) with (String "B" ("earer " ++ token)).
      rewrite trimStart_id by done.
      change (String "B" ("earer " ++ token)) with ("Bearer " ++ token).
      by rewrite trimEnd_app, Hn, He. }
    change (JS.toLowerCase ("Bearer " ++ token)) with ("bearer " ++ JS.toLowerCase token).
    unfold JS.startsWith at 1. rewrite prefix_app. change (JS.slice_from 7 ("Bearer " ++ token)) with token.
    rewrite Ht. by rewrite (proj2 (truthy_true token)). }
  split; [exact Hget|]. unfold getForwardAuthHeader. cbv zeta. cbn [JS.or_else].
  change (JS.truthy (JS.trim "")) with false. cbv iota. by rewrite Hget.
Qed.

Lemma bearer_round_trip_witness :
  getTokenFromRequest (bearer_request "GET" "/api/files" "s3cret") = Some "s3cret"
  ∧ getForwardAuthHeader no_env (bearer_request "GET" "/api/files" "s3cret") None
    = Some "Bearer s3cret".
Proof.
  apply (bearer_round_trip no_env (bearer_request "GET" "/api/files" "s3cret") "s3cret");
    reflexivity || discriminate.
Defined.

(** ** What the path sandbox returns *)

Lemma split_elems (sep : ascii) (s x : string) : x ∈ JS.split sep s → sep ∉ Path.chars x.
Proof.
  revert x. induction s as [|c s IH]; intros x; cbn.
  - intros ->%list_elem_of_singleton. apply not_elem_of_nil.
  - destruct (Ascii.eqb c sep) eqn:E.
    + intros [->|H]%elem_of_cons; [apply not_elem_of_nil | by apply IH].
    + pose proof (split_nonempty sep s) as Hne.
      destruct (JS.split sep s) as [|h t]; [done|].
      intros [->|H]%elem_of_cons; [|apply IH; by right].
      cbn. apply not_elem_of_cons. split; [|apply IH; left].
      intros ->. by rewrite Ascii.eqb_refl in E.
Qed.

Lemma norm_step_keeps_plain (acc : list string) (seg : string) :
  Forall PlainName acc → NoSlash seg → Forall PlainName (Path.norm_step false acc seg).
Proof.
  intros Hacc Hseg. unfold Path.norm_step.
  destruct (seg =? "") eqn:E1; [done|]. destruct (seg =? ".") eqn:E2; [done|]. cbn [orb].
  destruct (seg =? "..") eqn:E3.
  - destruct acc as [|last rest]; [done|]. pose proof Hacc as [_ Hrest]%Forall_cons.
    by destruct (last =? "..").
  - apply Forall_cons. split; [|done].
    apply eqb_false_iff in E1, E2, E3. done.
Qed.

Lemma norm_segments_plain (segs : list string) :
  Forall NoSlash segs → Forall PlainName (Path.norm_segments false segs).
Proof.
  intros Hsegs. unfold Path.norm_segments. apply Forall_rev.
  assert (∀ acc, Forall PlainName acc →
            Forall PlainName (List.fold_left (Path.norm_step false) segs acc)) as H.
  { induction Hsegs as [|seg segs Hseg _ IH]; intros acc Hacc; [done|].
    cbn. apply IH. by apply norm_step_keeps_plain. }
  by apply H.
Qed.

Lemma resolve_loop_absolute (cwd : string) (l : list string) (acc : string) :
  Path.isAbsolute cwd = true → (Path.resolve_loop (l ++ [cwd]) acc).2 = true.
Proof.
  intros Habs. assert ((cwd =? "") = false) as Hne by (by destruct cwd).
  revert acc. induction l as [|p l IH]; intros acc; cbn.
  - by rewrite Hne, Habs.
  - destruct (p =? ""); [apply IH|]. destruct (Path.isAbsolute p); [done | apply IH].
Qed.

(** X16: a path that passes the sandbox check is absolute and normalised: a
    slash followed by segments joined with slashes, none of them empty, [.]
    or [..]. *)
Theorem safe_path_is_normalised (env : Env) (requestedPath resolved : string) :
  Path.isAbsolute (cwd env) = true →
  resolveSafePath env requestedPath = Some resolved →
  ∃ segments, resolved = "/" ++ JS.join "/" segments ∧ Forall PlainName segments.
Proof.
  intros Hcwd. unfold resolveSafePath. cbv zeta.
  destruct (negb _); [done|]. intros [= <-]. unfold Path.resolve.
  pose proof (resolve_loop_absolute (cwd env) (List.rev [ROOT_DIR env; requestedPath]) ""
                Hcwd) as Habs.
  destruct (Path.resolve_loop _ _) as [rp abs]. cbn in Habs. subst abs. cbn [negb].
  eexists. split; [reflexivity|]. apply norm_segments_plain.
  apply Forall_forall. intros x Hx. by apply split_elems in Hx.
Qed.

Lemma safe_path_is_normalised_witness :
  ∃ segments,
    resolveSafePath home_env "docs/../notes/./a.txt" = Some ("/" ++ JS.join "/" segments)
    ∧ Forall PlainName segments.
Proof.
  destruct (safe_path_is_normalised home_env "docs/../notes/./a.txt" "/home/user/notes/a.txt")
    as (segments & E & H); [reflexivity | vm_compute; reflexivity |].
  exists segments. split; [|exact H]. rewrite <- E. vm_compute. reflexivity.
Defined.

Lemma split_app (sep : ascii) (a b : string) :
  JS.split sep (a ++ String sep b) = (JS.split sep a ++ JS.split sep b)%list.
Proof.
  induction a as [|c a IH].
  - change ("" ++ String sep b) with (String sep b). cbn. by rewrite Ascii.eqb_refl.
  - rewrite append_cons. cbn [JS.split]. rewrite IH.
    pose proof (split_nonempty sep a) as Hne.
    destruct (Ascii.eqb c sep); [done|]. by destruct (JS.split sep a).
Qed.

Lemma norm_fold_plain (allow : bool) (segs acc : list string) :
  Forall (λ s, s = "" ∨ PlainName s) segs →
  List.fold_left (Path.norm_step allow) segs acc
  = (List.rev (List.filter JS.truthy segs) ++ acc)%list.
Proof.
  intros H. revert acc. induction H as [|seg segs Hseg _ IH]; intros acc; [done|].
  cbn [List.fold_left List.filter]. rewrite IH. destruct Hseg as [->|Hp].
  - done.
  - rewrite (norm_step_plain allow acc seg Hp).
    destruct Hp as (_ & Hne & _). rewrite (proj2 (truthy_true seg) Hne).
    cbn [List.rev]. by rewrite <- app_assoc.
Qed.

Lemma PlainName_NoSlash (x : string) : PlainName x → "/"%char ∉ Path.chars x.
Proof. by intros [H _]. Qed.

Lemma split_join_plain (l : list string) :
  Forall PlainName l →
  Forall (λ s, s = "" ∨ PlainName s) (JS.split "/" (JS.join "/" l))
  ∧ List.filter JS.truthy (JS.split "/" (JS.join "/" l)) = l.
Proof.
  intros Hl. destruct l as [|a l].
  - split; [|done]. cbn. apply Forall_singleton. by left.
  - rewrite (split_join "/"%char) by
      (done || (intros x Hx; by apply PlainName_NoSlash, (proj1 (Forall_forall _ _) Hl))).
    split; [eapply Forall_impl; [exact Hl | by right]|].
    apply filter_truthy. intros x Hx. by apply (proj1 (Forall_forall _ _) Hl) in Hx as (_ & ? & _).
Qed.

Lemma append_nonempty_l (a b : string) : a ≠ "" → a ++ b ≠ "".
Proof. intros Ha. by destruct a. Qed.

Lemma join_plain_relative (n : string) (rest : list string) :
  PlainName n →
  JS.join "/" (n :: rest) ≠ "" ∧ Path.isAbsolute (JS.join "/" (n :: rest)) = false.
Proof.
  intros Hn. pose proof Hn as (_ & Hne & _). destruct rest as [|m rest]; cbn [JS.join].
  - split; [done | by apply PlainName_first].
  - split; [by apply append_nonempty_l|].
    rewrite isAbsolute_app by done. by apply PlainName_first.
Qed.

Lemma join_app_prefix (sep : string) (l1 l2 : list string) :
  ∃ rest, JS.join sep (l1 ++ l2) = JS.join sep l1 ++ rest.
Proof.
  destruct (join_take_prefix sep (l1 ++ l2) (List.length l1)) as [rest H].
  exists rest. by rewrite take_app_length in H.
Qed.

Lemma resolveSafePath_plain (env : Env) (rootSegments names : list string) :
  ROOT_DIR env = "/" ++ JS.join "/" rootSegments →
  Forall PlainName rootSegments → Forall PlainName names →
  resolveSafePath env (JS.join "/" names)
  = Some ("/" ++ JS.join "/" (rootSegments ++ names)).
Proof.
  intros Hroot Hrs Hns.
  destruct (split_join_plain rootSegments Hrs) as [Hr1 Hr2].
  destruct (split_join_plain names Hns) as [Hn1 Hn2].
  assert (Path.resolve (cwd env) [ROOT_DIR env; JS.join "/" names]
          = "/" ++ JS.join "/" (rootSegments ++ names)) as Hres.
  { unfold Path.resolve. cbn [List.rev app].
    assert ((ROOT_DIR env =? "") = false) as Hne by (by rewrite Hroot).
    assert (Path.isAbsolute (ROOT_DIR env) = true) as Habs
      by (rewrite Hroot; apply (prefix_app "/")).
    destruct names as [|n rest].
    - cbn [JS.join Path.resolve_loop String.eqb]. rewrite Hne, Habs. cbn [negb].
      rewrite Hroot. unfold Path.normalizeString, Path.norm_segments.
      change (("/" ++ JS.join "/" rootSegments) ++ "/" ++ "")
        with (String "/" (JS.join "/" rootSegments ++ String "/" "")).
      cbn [JS.split Ascii.eqb Bool.eqb]. rewrite split_app.
      rewrite norm_fold_plain.
      + cbn [List.filter JS.truthy String.eqb negb]. rewrite List.filter_app, Hr2. cbn.
        by rewrite !app_nil_r, rev_involutive.
      + apply Forall_cons. split; [by left|]. apply Forall_app. split; [done|].
        apply Forall_singleton. by left.
    - apply Forall_cons in Hns as [Hn Hrest].
      destruct (join_plain_relative n rest Hn) as [Hpne Hprel].
      cbn [Path.resolve_loop]. rewrite (proj2 (eqb_false_iff _ _) Hpne), Hprel, Hne, Habs.
      cbn [negb]. rewrite Hroot. unfold Path.normalizeString, Path.norm_segments.
      change (("/" ++ JS.join "/" rootSegments) ++ "/" ++ JS.join "/" (n :: rest) ++ "/" ++ "")
        with (String "/" (JS.join "/" rootSegments
                          ++ String "/" (JS.join "/" (n :: rest) ++ String "/" ""))).
      cbn [JS.split Ascii.eqb Bool.eqb]. rewrite !split_app.
      rewrite norm_fold_plain.
      + cbn [List.filter JS.truthy String.eqb negb]. rewrite !List.filter_app, Hr2, Hn2. cbn.
        by rewrite !app_nil_r, rev_involutive.
      + apply Forall_cons. split; [by left|]. apply Forall_app. split; [done|].
        apply Forall_app. split; [done|]. apply Forall_singleton. by left. }
  unfold resolveSafePath. cbv zeta. rewrite Hres.
  destruct (join_app_prefix "/" rootSegments names) as [rest Hrest].
  rewrite Hroot, Hrest. unfold JS.startsWith. rewrite <- append_assoc, prefix_app. done.
Qed.

(** X17: a request path made of plain segments resolves to the root with
    those segments after it; the empty path resolves to the root itself.
    The root is taken in its normal form: a slash and plain segments joined
    by slashes. *)
Theorem safe_path_of_plain_segments (env : Env) (rootSegments names : list string) :
  ROOT_DIR env = "/" ++ JS.join "/" rootSegments →
  Forall PlainName rootSegments → Forall PlainName names →
  resolveSafePath env (JS.join "/" names)
  = Some ("/" ++ JS.join "/" (rootSegments ++ names)).
Proof. apply resolveSafePath_plain. Qed.

Lemma safe_path_of_plain_segments_witness :
  resolveSafePath home_env "" = Some "/home/user"
  ∧ resolveSafePath home_env "docs/a.txt" = Some "/home/user/docs/a.txt".
Proof.
  assert (∀ l, l ∈ ["home"; "user"; "docs"; "a.txt"] → PlainName l) as Hplain.
  { intros l Hl. repeat (apply elem_of_cons in Hl as [->|Hl]);
      [| | | |by apply elem_of_nil in Hl];
      (split; [|by repeat split]); intros H; apply list_elem_of_In in H; cbn in H;
      repeat (destruct H as [H|H]; [discriminate H|]); exact H. }
  split.
  - apply (safe_path_of_plain_segments home_env ["home"; "user"] []); [reflexivity | |done].
    repeat (apply Forall_cons; split; [apply Hplain; set_solver|]). done.
  - apply (safe_path_of_plain_segments home_env ["home"; "user"] ["docs"; "a.txt"]);
      [reflexivity | |];
      repeat (apply Forall_cons; split; [apply Hplain; set_solver|]); done.
Defined.

(** ** Slugs *)

Lemma replace_runs_chars (b : bool) (s : string) : slug_chars (Re.replace_runs b s) = true.
Proof.
  revert b. induction s as [|c s IH]; intros b; [done|]. cbn.
  destruct (Re.is_slug_char c) eqn:E; cbn; [by rewrite E, IH|].
  destruct b; [apply IH|]. cbn. by rewrite IH, orb_true_r.
Qed.

Lemma strip_final_shape (s : string) :
  slug_chars s = true → no_double_hyphen s = true →
  slug_chars (Re.strip_final_hyphen s) = true
  ∧ no_double_hyphen (Re.strip_final_hyphen s) = true
  ∧ ends_with_hyphen (Re.strip_final_hyphen s) = false
  ∧ (starts_with_hyphen s = false → starts_with_hyphen (Re.strip_final_hyphen s) = false).
Proof.
  induction s as [|c s IH]; [done|]. intros Hc Hd.
  cbn [slug_chars] in Hc. apply andb_true_iff in Hc as [Hc Hcs].
  destruct s as [|d s].
  - cbn. destruct (Ascii.eqb c "-") eqn:E; [done|]. cbn. unfold ends_with_hyphen. cbn.
    rewrite E, Hc. done.
  - cbn [no_double_hyphen] in Hd. apply andb_true_iff in Hd as [Hcd Hd].
    destruct (IH Hcs Hd) as (I1 & I2 & I3 & I4).
    change (Re.strip_final_hyphen (String c (String d s)))
      with (String c (Re.strip_final_hyphen (String d s))).
    destruct (Re.strip_final_hyphen (String d s)) as [|e t] eqn:Et.
    + cbn. rewrite Hc. unfold ends_with_hyphen. cbn.
      assert (Ascii.eqb d "-" = true) as Ed.
      { cbn in Et. destruct s; [by destruct (Ascii.eqb d "-")|done]. }
      rewrite Ed, andb_true_r in Hcd. apply negb_true_iff in Hcd. by rewrite Hcd.
    + split_and!.
      * change (slug_chars (String c (String e t)))
          with ((Re.is_slug_char c || Ascii.eqb c "-") && slug_chars (String e t)).
        by rewrite Hc, I1.
      * change (no_double_hyphen (String c (String e t)))
          with (negb (Ascii.eqb c "-" && Ascii.eqb e "-") && no_double_hyphen (String e t)).
        rewrite I2, andb_true_r. apply negb_true_iff.
        destruct (Ascii.eqb c "-") eqn:Ec; [|done]. cbn.
        assert (starts_with_hyphen (String d s) = false) as Hsd.
        { cbn. cbn in Hcd. by apply negb_true_iff in Hcd. }
        specialize (I4 Hsd). by cbn in I4.
      * unfold ends_with_hyphen in *.
        by change (last_char (String c (String e t))) with (last_char (String e t)).
      * by cbn.
Qed.

Lemma slugify_shaped (name : string) : slug_shaped (slugify name) = true.
Proof.
  unfold slugify, Re.hyphenate_non_alnum.
  pose proof (replace_runs_chars false (JS.toLowerCase name)) as Hc.
  destruct (replace_runs_hyphens (JS.toLowerCase name)) as (Hd & _ & _).
  destruct (Re.replace_runs false (JS.toLowerCase name)) as [|c t] eqn:E; [done|].
  unfold Re.strip_edge_hyphens. destruct (Ascii.eqb c "-") eqn:Ec.
  - cbn [slug_chars] in Hc. apply andb_true_iff in Hc as [_ Hc].
    assert (no_double_hyphen t = true ∧ starts_with_hyphen t = false) as [Hd' Hs].
    { destruct t as [|d t]; [done|]. cbn [no_double_hyphen] in Hd.
      apply andb_true_iff in Hd as [Hcd Hd]. split; [done|]. cbn.
      rewrite Ec in Hcd. cbn in Hcd. by apply negb_true_iff in Hcd. }
    destruct (strip_final_shape t Hc Hd') as (I1 & I2 & I3 & I4).
    unfold slug_shaped. by rewrite I1, I2, I3, (I4 Hs).
  - destruct (strip_final_shape (String c t) Hc Hd) as (I1 & I2 & I3 & I4).
    unfold slug_shaped. rewrite I1, I2, I3, I4; [done|]. by cbn.
Qed.

Lemma lower_slug_char (c : ascii) :
  Re.is_slug_char c || Ascii.eqb c "-" = true → JS.lower_char c = c.
Proof. by destruct c as [[] [] [] [] [] [] [] []]. Qed.

Lemma lower_slug_chars (s : string) : slug_chars s = true → JS.toLowerCase s = s.
Proof.
  unfold JS.toLowerCase. induction s as [|c s IH]; [done|].
  cbn [slug_chars JS.map_chars]. intros [Hc Hs]%andb_true_iff.
  by rewrite lower_slug_char, IH.
Qed.

Lemma replace_runs_fixed (s : string) :
  slug_chars s = true → no_double_hyphen s = true →
  Re.replace_runs false s = s
  ∧ (starts_with_hyphen s = false → Re.replace_runs true s = s).
Proof.
  induction s as [|c s IH]; [done|]. intros [Hc Hs]%andb_true_iff Hd.
  assert (no_double_hyphen s = true) as Hd'.
  { destruct s; [done|]. cbn [no_double_hyphen] in Hd. by apply andb_true_iff in Hd as [_ ?]. }
  destruct (IH Hs Hd') as [I1 I2]. cbn [Re.replace_runs].
  destruct (Re.is_slug_char c) eqn:E.
  - rewrite I1. done.
  - cbn in Hc. assert (starts_with_hyphen s = false) as Hsh.
    { destruct s; [done|]. cbn [no_double_hyphen] in Hd.
      apply andb_true_iff in Hd as [Hcd _]. rewrite Hc in Hcd. cbn in *.
      by apply negb_true_iff in Hcd. }
    rewrite (I2 Hsh). apply Ascii.eqb_eq in Hc as ->. split; [done|]. by cbn.
Qed.

Lemma strip_final_fixed (s : string) :
  ends_with_hyphen s = false → Re.strip_final_hyphen s = s.
Proof.
  induction s as [|c s IH]; [done|]. intros H. destruct s as [|d s].
  - unfold ends_with_hyphen in H. cbn in *. by rewrite H.
  - change (Re.strip_final_hyphen (String c (String d s)))
      with (String c (Re.strip_final_hyphen (String d s))).
    rewrite IH; [done|]. unfold ends_with_hyphen in *. by cbn in *.
Qed.

Lemma slugify_fixed (s : string) : slug_shaped s = true → slugify s = s.
Proof.
  unfold slug_shaped. intros H.
  apply andb_true_iff in H as [H He]. apply andb_true_iff in H as [H Hs].
  apply andb_true_iff in H as [Hc Hd]. apply negb_true_iff in Hs, He.
  unfold slugify, Re.hyphenate_non_alnum. rewrite lower_slug_chars by done.
  rewrite (proj1 (replace_runs_fixed s Hc Hd)).
  unfold Re.strip_edge_hyphens. destruct s as [|c s]; [done|].
  cbn in Hs. rewrite Hs. by apply strip_final_fixed.
Qed.

(** X18: a slug is made of the letters [a-z], digits and single hyphens,
    with no hyphen at either end, and it is its own slug: deriving an id
    from an id gives the id back. *)
Theorem slug_is_fixed (name : string) :
  slug_shaped (slugify name) = true ∧ slugify (slugify name) = slugify name.
Proof. split; [apply slugify_shaped | apply slugify_fixed, slugify_shaped]. Qed.

(** ** The name of the local device *)

Lemma strip_dot_local_suffix (h : string) : Re.strip_dot_local (h ++ ".local") = h.
Proof.
  induction h as [|c h IH]; [done|]. rewrite append_cons. cbn [Re.strip_dot_local].
  rewrite IH. destruct (String c (h ++ ".local") =? ".local") eqn:E; [|done].
  apply String.eqb_eq in E. apply (f_equal String.length) in E.
  rewrite length_chars in E. cbn in E. rewrite chars_app, length_app in E. cbn in E. lia.
Qed.

Lemma strip_dot_local_other (s : string) :
  (∀ h, s ≠ h ++ ".local") → Re.strip_dot_local s = s.
Proof.
  induction s as [|c s IH]; [done|]. intros H. cbn [Re.strip_dot_local].
  destruct (String c s =? ".local") eqn:E.
  - apply String.eqb_eq in E. by destruct (H "").
  - rewrite IH; [done|]. intros h ->. by apply (H (String c h)).
Qed.

Lemma run_getLocalName (w : World) :
  (run getLocalName w).1
  = (if JS.truthy_opt (settingsFile w ≫= localName)
     then JS.or_else (settingsFile w ≫= localName) ""
     else match hostname w (trace w ++ [Build_Call ReadSettingsFile (settingsFile w)])%list with
          | Some h => Re.strip_dot_local h
          | None => "This Machine"
          end)
  ∧ (JS.truthy_opt (settingsFile w ≫= localName) = true →
     calls getLocalName w = [Build_Call ReadSettingsFile (settingsFile w)]).
Proof.
  change (post getLocalName w (λ r _ cs,
    r = (if JS.truthy_opt (settingsFile w ≫= localName)
         then JS.or_else (settingsFile w ≫= localName) ""
         else match hostname w (trace w ++ [Build_Call ReadSettingsFile (settingsFile w)])%list
              with
              | Some h => Re.strip_dot_local h
              | None => "This Machine"
              end)
    ∧ (JS.truthy_opt (settingsFile w ≫= localName) = true →
       cs = [Build_Call ReadSettingsFile (settingsFile w)]))).
  unfold getLocalName, loadSettings. walk.
  all: destruct (settingsFile w) as [s|]; cbn in *;
    repeat match goal with E : JS.truthy_opt _ = _ |- _ => rewrite E end; done.
Qed.

(** X19: the local device is shown under the name of the settings file when
    that name is not empty, and the host name is then not asked for;
    otherwise under the host name, with a final [.local] cut off and
    nothing else changed. *)
Theorem local_name_sources (w : World) (host : string) :
  (∀ t, hostname w t = Some host) →
  (∀ n, settingsFile w ≫= localName = Some n → n ≠ "" →
        (run getLocalName w).1 = n
        ∧ calls getLocalName w = [Build_Call ReadSettingsFile (settingsFile w)])
  ∧ (settingsFile w ≫= localName = None ∨ settingsFile w ≫= localName = Some "" →
     (∀ h, host = h ++ ".local" → (run getLocalName w).1 = h)
     ∧ ((∀ h, host ≠ h ++ ".local") → (run getLocalName w).1 = host)).
Proof.
  intros Hhost. destruct (run_getLocalName w) as [Hr Hc]. split.
  - intros n Hn Hne. rewrite Hn in Hr, Hc. cbn in Hr, Hc.
    rewrite (proj2 (truthy_true n) Hne) in Hr, Hc. split; [exact Hr | by apply Hc].
  - intros Hunset.
    assert (JS.truthy_opt (settingsFile w ≫= localName) = false) as Hf
      by (by destruct Hunset as [-> | ->]).
    rewrite Hf, Hhost in Hr. rewrite Hr. split.
    + intros h ->. apply strip_dot_local_suffix.
    + apply strip_dot_local_other.
Qed.

Lemma local_name_sources_witness :
  (run getLocalName online).1 = "hub".
Proof.
  destruct (local_name_sources online "hub.local") as [_ H]; [done|].
  destruct H as [H _]; [by left|]. by apply (H "hub").
Defined.

(** ** File types *)

Section CaseMaps.

(** A map on characters that keeps dots and slashes apart from the rest and
    does not change what a character lowers to. *)
Context (g : ascii → ascii).
Hypothesis g_dot : ∀ c, Ascii.eqb (g c) "." = Ascii.eqb c ".".
Hypothesis g_slash : ∀ c, Path.is_slash (g c) = Path.is_slash c.
Hypothesis g_lower : ∀ c, JS.lower_char (g c) = JS.lower_char c.

Lemma chars_map_chars (s : string) :
  Path.chars (JS.map_chars g s) = List.map g (Path.chars s).
Proof. induction s as [|c s IH]; [done|]. cbn. by rewrite <- IH. Qed.

Lemma str_map (l : list ascii) : Path.str (List.map g l) = JS.map_chars g (Path.str l).
Proof. induction l as [|c l IH]; [done|]. cbn. by rewrite <- IH. Qed.

Lemma drop_while_map (p : ascii → bool) (l : list ascii) :
  (∀ c, p (g c) = p c) →
  Path.drop_while p (List.map g l) = List.map g (Path.drop_while p l).
Proof.
  intros Hp. induction l as [|c l IH]; [done|]. cbn. rewrite Hp. by destruct (p c).
Qed.

Lemma take_while_map (p : ascii → bool) (l : list ascii) :
  (∀ c, p (g c) = p c) →
  Path.take_while p (List.map g l) = List.map g (Path.take_while p l).
Proof.
  intros Hp. induction l as [|c l IH]; [done|]. cbn. rewrite Hp.
  destruct (p c); [|done]. cbn. by rewrite IH.
Qed.

Lemma last_component_map (p : string) :
  Path.last_component (JS.map_chars g p) = JS.map_chars g (Path.last_component p).
Proof.
  unfold Path.last_component. rewrite chars_map_chars, <- List.map_rev.
  rewrite drop_while_map by exact g_slash.
  rewrite take_while_map by (intros c; by rewrite g_slash).
  by rewrite <- List.map_rev, str_map.
Qed.

Lemma map_chars_empty (s : string) : (JS.map_chars g s =? "") = (s =? "").
Proof. by destruct s. Qed.

Lemma map_chars_dots (s : string) : (JS.map_chars g s =? "..") = (s =? "..").
Proof.
  destruct s as [|a [|b [|c s]]]; try done; cbn.
  - rewrite g_dot. by destruct (Ascii.eqb a ".").
  - by rewrite !g_dot.
  - rewrite !g_dot. by destruct (Ascii.eqb a "."), (Ascii.eqb b ".").
Qed.

Lemma extname_map (p : string) :
  JS.toLowerCase (Path.extname (JS.map_chars g p)) = JS.toLowerCase (Path.extname p).
Proof.
  unfold Path.extname. cbv zeta. rewrite last_component_map.
  set (comp := Path.last_component p). unfold Path.split_last_dot. cbv zeta.
  rewrite chars_map_chars, <- List.map_rev.
  rewrite drop_while_map by (intros c; by rewrite g_dot).
  rewrite take_while_map by (intros c; by rewrite g_dot).
  destruct (Path.drop_while _ (List.rev (Path.chars comp))) as [|d before]; [done|].
  cbn [List.map]. rewrite <- !List.map_rev, !str_map, map_chars_empty, map_chars_dots.
  destruct (_ =? ""); [done|]. destruct (comp =? ".."); [done|].
  unfold JS.toLowerCase. rewrite !append_cons, !append_nil_l. cbn [JS.map_chars]. f_equal.
  generalize (Path.str (List.rev (Path.take_while (λ c, negb (Ascii.eqb c "."))
                                    (List.rev (Path.chars comp))))).
  intros s. induction s as [|c s IH]; [done|]. cbn. by rewrite g_lower, IH.
Qed.

Lemma getFileType_map (name : string) : getFileType (JS.map_chars g name) = getFileType name.
Proof. unfold getFileType. cbv zeta. by rewrite extname_map. Qed.

End CaseMaps.

Lemma toUpperCase_ascii (name : string) :
  JS.all_ascii name = true → JS.toUpperCase name = JS.map_chars JS.upper_ascii name.
Proof.
  induction name as [|c name IH]; [done|]. cbn [JS.all_ascii JS.toUpperCase JS.map_chars].
  intros [Hc Hn]%andb_true_iff. rewrite (IH Hn).
  by destruct c as [[] [] [] [] [] [] [] []].
Qed.

(** X20: the type of a file does not depend on the case of the letters of
    its name.  A name and its lower-case form have the same type, and so
    have any two names with the same lower-case form; a name of ASCII
    characters has the type of its upper-case form too.  (Beyond ASCII
    upper case can change the extension: the sharp s becomes [SS].) *)
Theorem file_type_ignores_case (name : string) :
  getFileType (JS.toLowerCase name) = getFileType name
  ∧ (∀ other, JS.toLowerCase other = JS.toLowerCase name →
              getFileType other = getFileType name)
  ∧ (JS.all_ascii name = true → getFileType (JS.toUpperCase name) = getFileType name).
Proof.
  assert (∀ n, getFileType (JS.toLowerCase n) = getFileType n) as Hlow.
  { intros n. apply getFileType_map; intros c; by destruct c as [[] [] [] [] [] [] [] []]. }
  split; [apply Hlow|]. split.
  - intros other E. by rewrite <- (Hlow other), E, Hlow.
  - intros Ha. rewrite (toUpperCase_ascii name Ha).
    apply getFileType_map; intros c; by destruct c as [[] [] [] [] [] [] [] []].
Qed.

(** Upper case is not letter by letter beyond ASCII: [x.c] with a sharp s is
    a plain file, and its upper-case form ends in [.CSS]. *)
Example upper_case_of_sharp_s :
  getFileType ("x.c" ++ String (ascii_of_N 223) "") = "file"
  ∧ JS.toUpperCase ("x.c" ++ String (ascii_of_N 223) "") = "X.CSS"
  ∧ getFileType (JS.toUpperCase ("x.c" ++ String (ascii_of_N 223) "")) = "code".
Proof. vm_compute. done. Qed.

(** ** Recent files *)

Lemma postRecent_step (body : RecentBody) (now : N) (st : list RecentFile) :
  (List.length (postRecent body now st).1 ≤ MAX_RECENT)%nat
  ∧ (NoDup (List.map rf_path st) → NoDup (List.map rf_path (postRecent body now st).1))
  ∧ List.hd_error (postRecent body now st).1
    = Some {| rf_path := rb_path body; rf_name := rb_name body; rf_accessedAt := now;
              rf_type := rb_type body; rf_size := rb_size body |}.
Proof.
  unfold postRecent. cbv zeta. cbn [fst].
  set (filtered := List.filter _ st).
  set (new := {| rf_path := rb_path body |}).
  assert (NoDup (List.map rf_path st) → NoDup (List.map rf_path (new :: filtered))) as Hnd.
  { intros Hst. cbn. apply NoDup_cons. split.
    - intros (f & E & [_ Hf]%elem_of_List_filter)%elem_of_map.
      apply negb_true_iff, eqb_false_iff in Hf. by rewrite E in Hf.
    - clear new. subst filtered. induction st as [|a st IH]; [done|]. cbn in *.
      apply NoDup_cons in Hst as [Ha Hst]. destruct (negb _); [|by apply IH]. cbn.
      apply NoDup_cons. split; [|by apply IH].
      intros (f & E & [Hf _]%elem_of_List_filter)%elem_of_map.
      apply Ha, elem_of_map. by exists f. }
  destruct (MAX_RECENT <? List.length (new :: filtered))%nat eqn:E.
  - split; [rewrite length_take; lia|]. split; [|done].
    intros Hst. specialize (Hnd Hst). change (List.map ?f ?l) with (f <$> l) in *.
    rewrite fmap_take. eapply sublist_NoDup; [exact Hnd | apply sublist_take].
  - apply Nat.ltb_ge in E. done.
Qed.

(** X21: the list of recent files never holds more than 50 entries and
    never holds a path twice, whatever is posted; the entry posted last
    comes first, stamped with the clock of its request. *)
Theorem recent_files_bounded_and_unique (posts : list (RecentBody * N)) :
  (List.length (recent_after posts) ≤ 50)%nat
  ∧ NoDup (List.map rf_path (recent_after posts))
  ∧ ∀ body now, last posts = Some (body, now) →
      List.hd_error (recent_after posts)
      = Some {| rf_path := rb_path body; rf_name := rb_name body; rf_accessedAt := now;
                rf_type := rb_type body; rf_size := rb_size body |}.
Proof.
  unfold recent_after.
  assert (∀ st, (List.length st ≤ 50)%nat → NoDup (List.map rf_path st) →
            let final := List.fold_left (λ st bn, (postRecent bn.1 bn.2 st).1) posts st in
            (List.length final ≤ 50)%nat ∧ NoDup (List.map rf_path final)
            ∧ ∀ body now, last posts = Some (body, now) →
                List.hd_error final
                = Some {| rf_path := rb_path body; rf_name := rb_name body;
                          rf_accessedAt := now; rf_type := rb_type body;
                          rf_size := rb_size body |}) as H.
  { induction posts as [|[b n] posts IH]; intros st Hlen Hnd; cbn zeta.
    - done.
    - cbn [List.fold_left fst snd].
      destruct (postRecent_step b n st) as (S1 & S2 & S3).
      destruct (IH _ S1 (S2 Hnd)) as (I1 & I2 & I3). split; [done|]. split; [done|].
      intros body now Hl. destruct posts as [|p posts].
      + cbn in Hl. injection Hl as -> ->. exact S3.
      + apply I3. by rewrite last_cons_cons in Hl. }
  apply H; [cbn; lia | apply NoDup_nil_2].
Qed.

(** ** Combo views and settings *)

Lemma combo_ids_insert_same (l : list ComboView) (i : nat) (v v' : ComboView) :
  l !! i = Some v → cv_id v' = cv_id v → List.map cv_id (<[i := v']> l) = List.map cv_id l.
Proof.
  revert i. induction l as [|x l IH]; intros i Hi E; [done|].
  destruct i as [|i]; cbn in *.
  - injection Hi as ->. by rewrite E.
  - f_equal. by apply IH.
Qed.

Lemma existsb_has_combo_id (id : string) (l : list ComboView) :
  List.existsb (has_combo_id id) l = true ↔ id ∈ List.map cv_id l.
Proof.
  rewrite List.existsb_exists, elem_of_map. split.
  - intros (v & Hv & E). apply String.eqb_eq in E. exists v. split; [done|].
    by apply list_elem_of_In.
  - intros (v & -> & Hv). exists v. split; [by apply list_elem_of_In|].
    apply String.eqb_refl.
Qed.

Lemma settings_step_keeps_unique (file : option SettingsData) (op : SettingsOp) :
  NoDup (combo_ids file) → NoDup (combo_ids (settings_step file op)).
Proof.
  intros Hnd. unfold settings_step, written, combo_ids in *.
  destruct op as [body|body now|id body|id]; cbn [snd].
  - unfold putSettings. cbv zeta. cbn [snd settings_of default from_option Datatypes.id].
    by destruct (sb_localName body), (sb_localIcon body).
  - unfold postCombo. destruct (negb _); [done|].
    destruct (cb_deviceIds body) as [[|d ds]|]; [done| |done]. cbv zeta.
    destruct (List.existsb _ _) eqn:E; [done|]. cbn.
    rewrite List.map_app. apply NoDup_app. split; [done|].
    split; [|apply NoDup_singleton].
    intros x Hx Hx'. cbn in Hx'. apply list_elem_of_singleton in Hx'. subst x.
    apply existsb_has_combo_id in Hx. congruence.
  - unfold putCombo. cbv zeta. destruct (list_find _ _) as [[idx v]|] eqn:E; [|done].
    cbn. apply list_find_Some in E as (E & _ & _).
    by erewrite combo_ids_insert_same.
  - unfold deleteCombo. cbv zeta. destruct (_ =? _)%nat; [done|]. cbn.
    generalize (comboViews (settings_of file)) Hnd. clear. intros l.
    induction l as [|a l IH]; cbn; [done|]. intros [Ha Hl]%NoDup_cons.
    destruct (negb _); cbn; [|by apply IH]. apply NoDup_cons. split; [|by apply IH].
    intros (v & E & [Hv _]%elem_of_List_filter)%elem_of_map. apply Ha, elem_of_map.
    by exists v.
Qed.

(** X22: combo view ids stay unique.  If no two combo views of the settings
    file share an id, none do after any sequence of settings updates and
    combo view creations, updates and deletions. *)
Theorem combo_ids_stay_unique (ops : list SettingsOp) (file : option SettingsData) :
  NoDup (combo_ids file) → NoDup (combo_ids (settings_after ops file)).
Proof.
  revert file. induction ops as [|op ops IH]; intros file Hnd; [done|].
  cbn [settings_after List.fold_left]. apply IH. by apply settings_step_keeps_unique.
Qed.

Lemma combo_ids_stay_unique_witness :
  NoDup (combo_ids (settings_after
                      [OpPostCombo {| cb_name := Some "Work"; cb_icon := None;
                                      cb_deviceIds := Some ["local"; "mini"] |} 1700000000000;
                       OpPostCombo {| cb_name := Some "work!"; cb_icon := None;
                                      cb_deviceIds := Some ["mini"] |} 1700000000001;
                       OpPutCombo "work" {| cu_name := Some "Office"; cu_icon := None;
                                            cu_deviceIds := None |}] None)).
Proof.
  apply (combo_ids_stay_unique
           [OpPostCombo {| cb_name := Some "Work"; cb_icon := None;
                           cb_deviceIds := Some ["local"; "mini"] |} 1700000000000;
            OpPostCombo {| cb_name := Some "work!"; cb_icon := None;
                           cb_deviceIds := Some ["mini"] |} 1700000000001;
            OpPutCombo "work" {| cu_name := Some "Office"; cu_icon := None;
                                 cu_deviceIds := None |}] None).
  apply NoDup_nil_2.
Defined.

(** X23: a combo view is created only from a non-empty name and a non-empty
    array of device ids; its id is the slug of the name (or [combo-] and
    the clock when the slug is empty), and an id that is taken is refused
    with 409.  A refused request writes nothing; an accepted one appends the
    view and leaves the rest of the settings as they were. *)
Theorem combo_creation (body : ComboBody) (now : N) (file : option SettingsData) :
  (JS.truthy_opt (cb_name body) = false →
     postCombo body now file = (Fail 400 "name required", None))
  ∧ (JS.truthy_opt (cb_name body) = true →
     (cb_deviceIds body = None ∨ cb_deviceIds body = Some [] →
        postCombo body now file
        = (Fail 400 "deviceIds required (array of device IDs)", None))
     ∧ ∀ d ds name id,
         cb_deviceIds body = Some (d :: ds) → cb_name body = Some name →
         id = (if JS.truthy (slugify name) then slugify name else "combo-" ++ JS.of_N now) →
         (id ∈ combo_ids file →
            postCombo body now file
            = (Fail 409 "Combo view with this name already exists", None))
         ∧ (id ∉ combo_ids file →
            postCombo body now file
            = (Ok {| cv_id := id; cv_name := name;
                     cv_icon := JS.or_else (cb_icon body) "📁";
                     cv_deviceIds := d :: ds |},
               Some {| localName := localName (settings_of file);
                       localIcon := localIcon (settings_of file);
                       comboViews :=
                         (comboViews (settings_of file)
                          ++ [{| cv_id := id; cv_name := name;
                                 cv_icon := JS.or_else (cb_icon body) "📁";
                                 cv_deviceIds := d :: ds |}])%list |}))).
Proof.
  unfold postCombo. split; [by intros ->|]. intros Hn. rewrite Hn. cbn [negb]. split.
  - by intros [-> | ->].
  - intros d ds name id Hd Hname ->. rewrite Hd, Hname in *. cbv zeta.
    cbn [JS.truthy_opt] in Hn. cbn [JS.or_else]. rewrite Hn.
    unfold combo_ids. split; intros Hin.
    + by rewrite (proj2 (existsb_has_combo_id _ _) Hin).
    + destruct (List.existsb _ _) eqn:E; [|done]. by apply existsb_has_combo_id in E.
Qed.

(** X24: the name set through [PUT /api/settings] is the name the local
    device is listed under; setting the empty name clears it, and the host
    name shows again.  The request leaves the combo views as they are. *)
Theorem settings_name_round_trip (body : SettingsBody) (w : World) (host : string) :
  (∀ t, hostname w t = Some host) →
  comboViews (settings_of (settings_step (settingsFile w) (OpPutSettings body)))
    = comboViews (settings_of (settingsFile w))
  ∧ (∀ n, sb_localName body = Some n → n ≠ "" →
          (run getLocalName
             (with_settings w (settings_step (settingsFile w) (OpPutSettings body)))).1 = n)
  ∧ (sb_localName body = Some "" →
     (run getLocalName
        (with_settings w (settings_step (settingsFile w) (OpPutSettings body)))).1
     = Re.strip_dot_local host)
  ∧ (sb_localName body = None →
     (run getLocalName
        (with_settings w (settings_step (settingsFile w) (OpPutSettings body)))).1
     = (run getLocalName w).1).
Proof.
  intros Hhost.
  set (file' := settings_step (settingsFile w) (OpPutSettings body)).
  assert (file' ≫= localName
          = match sb_localName body with
            | Some n => or_undefined n
            | None => settingsFile w ≫= localName
            end) as Hname.
  { subst file'. unfold settings_step, written, putSettings. cbv zeta. cbn [snd].
    destruct (sb_localName body), (sb_localIcon body); cbn; try done;
      by destruct (settingsFile w). }
  destruct (run_getLocalName (with_settings w file')) as [Hr _].
  destruct (run_getLocalName w) as [Hr0 _].
  cbn [settingsFile with_settings hostname trace] in Hr. rewrite Hname, Hhost in Hr.
  rewrite Hhost in Hr0. split_and!.
  - subst file'. unfold settings_step, written, putSettings. cbv zeta. cbn [snd].
    by destruct (sb_localName body), (sb_localIcon body).
  - intros n Hn Hne. rewrite Hr, Hn. unfold or_undefined.
    rewrite (proj2 (truthy_true n) Hne). cbn. by rewrite (proj2 (truthy_true n) Hne).
  - intros Hn. by rewrite Hr, Hn.
  - intros Hn. by rewrite Hr, Hn, Hr0.
Qed.

Lemma settings_name_round_trip_witness :
  (run getLocalName
     (with_settings online
        (settings_step None (OpPutSettings {| sb_localName := Some "Studio";
                                              sb_localIcon := None |})))).1 = "Studio"
  ∧ (run getLocalName
       (with_settings online
          (settings_step None (OpPutSettings {| sb_localName := Some "";
                                                sb_localIcon := None |})))).1 = "hub".
Proof.
  destruct (settings_name_round_trip {| sb_localName := Some "Studio"; sb_localIcon := None |}
              online "hub.local") as (_ & H1 & _); [done|].
  destruct (settings_name_round_trip {| sb_localName := Some ""; sb_localIcon := None |}
              online "hub.local") as (_ & _ & H2 & _); [done|].
  split; [by apply H1 | by apply H2].
Defined.

(** ** Local file operations *)

(** X25: a rename never overwrites.  When either path fails the sandbox
    check the answer is 400 and the disk is not asked; when the destination
    exists the answer is 409 and nothing is renamed; otherwise the one
    thing done is the rename of the resolved source to the resolved
    destination. *)
Theorem local_rename_never_overwrites (env : Env) (source target : string) (disk : Disk)
    (past : list FsAsked) :
  (resolveSafePath env source = None ∨ resolveSafePath env target = None →
     exec disk (postRename env source target) past = (json_error "Invalid path" 400, past))
  ∧ ∀ safeFrom safeTo,
      resolveSafePath env source = Some safeFrom →
      resolveSafePath env target = Some safeTo →
      (disk bool past (FsExists safeTo) = true →
         exec disk (postRename env source target) past
         = (json_error "Destination already exists" 409,
            past ++ [Build_FsAsked (FsExists safeTo)])%list)
      ∧ (disk bool past (FsExists safeTo) = false →
         (exec disk (postRename env source target) past).2
         = (past ++ [Build_FsAsked (FsExists safeTo);
                     Build_FsAsked (FsRename safeFrom safeTo)])%list
         ∧ status (exec disk (postRename env source target) past).1 ∈ [200%N; 500%N]).
Proof.
  unfold postRename. split.
  - intros [-> | ->]; [done|]. by destruct (resolveSafePath env source).
  - intros safeFrom safeTo -> ->. cbn [exec]. split; intros ->; [done|].
    cbn [exec]. destruct (disk _ _ (FsRename safeFrom safeTo)); cbn [exec fst snd];
      rewrite <- app_assoc; (split; [done|]); cbn; set_solver.
Qed.

Lemma local_rename_never_overwrites_witness :
  exec full_disk (postRename home_env "a.txt" "b.txt") []
  = (json_error "Destination already exists" 409,
     [Build_FsAsked (FsExists "/home/user/b.txt")])
  ∧ exec full_disk (postRename home_env "a.txt" "/etc/passwd") []
    = (json_error "Invalid path" 400, []).
Proof.
  destruct (local_rename_never_overwrites home_env "a.txt" "b.txt" full_disk []) as [_ H1].
  destruct (local_rename_never_overwrites home_env "a.txt" "/etc/passwd" full_disk [])
    as [H2 _].
  destruct (H1 "/home/user/a.txt" "/home/user/b.txt") as [H1' _];
    [vm_compute; reflexivity | vm_compute; reflexivity |].
  split; [by apply H1' | apply H2; right; vm_compute; reflexivity].
Defined.

Lemma join_app (sep : string) (l1 l2 : list string) :
  l1 ≠ [] → l2 ≠ [] → JS.join sep (l1 ++ l2) = JS.join sep l1 ++ sep ++ JS.join sep l2.
Proof.
  intros H1 H2. induction l1 as [|a l1 IH]; [done|]. destruct l1 as [|b l1].
  - cbn [app JS.join]. by destruct l2.
  - change (JS.join sep ((a :: b :: l1) ++ l2)) with (a ++ sep ++ JS.join sep ((b :: l1) ++ l2)).
    rewrite IH by done. cbn [JS.join]. by rewrite !append_assoc.
Qed.

Lemma plain_path_below_root (rootSegments names : list string) :
  Forall PlainName names → names ≠ [] →
  "/" ++ JS.join "/" (rootSegments ++ names) ≠ "/" ++ JS.join "/" rootSegments.
Proof.
  intros Hns Hne E. apply append_inv_head in E.
  destruct names as [|n rest]; [done|]. apply Forall_cons in Hns as [Hn _].
  destruct (join_plain_relative n rest Hn) as [Hj _].
  destruct rootSegments as [|r rs]; [by cbn in E|].
  rewrite join_app in E by done. apply (f_equal String.length) in E.
  rewrite !length_chars, !chars_app, !length_app in E. cbn in E. lia.
Qed.

(** X26: the local delete refuses the root and nothing else.  A path that
    resolves to the root directory is answered 400 and the disk is not
    asked.  With the root in its normal form, the empty path is refused in
    this way, and a path of plain segments is not: the handler goes on to
    [statSync] of the root with those segments after it. *)
Theorem local_delete_guards_root (env : Env) (targetPath : string)
    (rootSegments names : list string) (disk : Disk) (past : list FsAsked) :
  (resolveSafePath env targetPath = Some (ROOT_DIR env) →
     exec disk (postDelete env targetPath) past
     = (json_error "Cannot delete root directory" 400, past))
  ∧ (ROOT_DIR env = "/" ++ JS.join "/" rootSegments →
     Forall PlainName rootSegments → Forall PlainName names →
     (exec disk (postDelete env "") past
      = (json_error "Cannot delete root directory" 400, past))
     ∧ (names ≠ [] →
        ∃ rest, (exec disk (postDelete env (JS.join "/" names)) past).2
                = (past ++ Build_FsAsked
                             (FsStat ("/" ++ JS.join "/" (rootSegments ++ names)))
                           :: rest)%list)).
Proof.
  split.
  - intros H. unfold postDelete. by rewrite H, String.eqb_refl.
  - intros Hroot Hrs Hns. split.
    + pose proof (resolveSafePath_plain env rootSegments [] Hroot Hrs (Forall_nil_2 _)) as H.
      cbn [JS.join] in H. rewrite app_nil_r, <- Hroot in H.
      unfold postDelete. by rewrite H, String.eqb_refl.
    + intros Hne. unfold postDelete.
      rewrite (resolveSafePath_plain env rootSegments names Hroot Hrs Hns), Hroot.
      rewrite (proj2 (eqb_false_iff _ _) (plain_path_below_root rootSegments names Hns Hne)).
      cbn [exec]. destruct (disk _ past (FsStat _)) as [stats|m]; cbn [exec snd].
      * destruct (st_isDirectory stats); cbn [exec]; destruct (disk _ _ _); cbn [exec snd];
          rewrite <- app_assoc; by eexists.
      * by exists [].
Qed.

Lemma local_delete_guards_root_witness :
  exec full_disk (postDelete home_env "docs/..") []
  = (json_error "Cannot delete root directory" 400, [])
  ∧ exec full_disk (postDelete home_env "") []
    = (json_error "Cannot delete root directory" 400, [])
  ∧ ∃ rest, (exec full_disk (postDelete home_env "docs") []).2
            = Build_FsAsked (FsStat "/home/user/docs") :: rest.
Proof.
  assert (∀ l, l ∈ ["home"; "user"; "docs"] → PlainName l) as Hplain.
  { intros l Hl. repeat (apply elem_of_cons in Hl as [->|Hl]);
      [| | |by apply elem_of_nil in Hl];
      (split; [|by repeat split]); intros H; apply list_elem_of_In in H; cbn in H;
      repeat (destruct H as [H|H]; [discriminate H|]); exact H. }
  destruct (local_delete_guards_root home_env "docs/.." ["home"; "user"] ["docs"]
              full_disk []) as [H1 H2].
  destruct H2 as [H2 H3]; [reflexivity | | |].
  - repeat (apply Forall_cons; split; [apply Hplain; set_solver|]). done.
  - repeat (apply Forall_cons; split; [apply Hplain; set_solver|]). done.
  - split; [apply H1; vm_compute; reflexivity|]. split; [exact H2|]. by apply H3.
Defined.

(** X27: what the write handlers create, write, move or remove has passed
    the sandbox check: every such path starts with the text of the root
    directory.  The one exception is the parent directory that [touch]
    creates when it is missing. *)
Theorem local_writes_start_with_root (env : Env) (op : LocalOp) (disk : Disk) :
  ∀ a q, a ∈ (exec disk (localHandler env op) []).2 → q ∈ touched a →
         JS.startsWith q (ROOT_DIR env) = true ∨ touch_parent env op a.
Proof.
  intros a q Ha Hq.
  assert (∀ p r, q = r → resolveSafePath env p = Some r →
                 JS.startsWith q (ROOT_DIR env) = true) as Hsafe.
  { intros p r -> Hr. by apply (resolveSafePath_prefix env p). }
  destruct op as [dirPath|filePath content|source target|targetPath|filePath content];
    cbn [localHandler] in Ha.
  - unfold postMkdir in Ha. destruct (resolveSafePath env dirPath) as [safe|] eqn:E;
      [|by apply elem_of_nil in Ha].
    cbn in Ha. destruct (disk _ _ _); cbn in Ha; apply list_elem_of_singleton in Ha as ->;
      cbn in Hq; apply list_elem_of_singleton in Hq; left; (eapply Hsafe; [exact Hq | eassumption]).
  - unfold postTouch in Ha. destruct (resolveSafePath env filePath) as [safe|] eqn:E;
      [|by apply elem_of_nil in Ha].
    cbn in Ha.
    repeat match type of Ha with
           | context [exec disk (if ?b then _ else _)] => destruct b; cbn in Ha
           | context [exec disk (match ?r with Return _ => _ | Throw _ => _ end)] =>
               destruct r; cbn in Ha
           end.
    all: repeat (apply elem_of_cons in Ha as [->|Ha]); try (by apply elem_of_nil in Ha).
    all: cbn in Hq; try (by apply elem_of_nil in Hq); apply list_elem_of_singleton in Hq.
    all: first [left; (eapply Hsafe; [exact Hq | eassumption]) | right; by exists filePath, content, safe].
  - unfold postRename in Ha.
    destruct (resolveSafePath env source) as [safeFrom|] eqn:E1;
      [|by apply elem_of_nil in Ha].
    destruct (resolveSafePath env target) as [safeTo|] eqn:E2;
      [|by apply elem_of_nil in Ha].
    cbn in Ha. destruct (disk _ _ (FsExists safeTo)); cbn in Ha.
    + apply list_elem_of_singleton in Ha as ->. by apply elem_of_nil in Hq.
    + destruct (disk _ _ (FsRename safeFrom safeTo)); cbn in Ha.
      all: repeat (apply elem_of_cons in Ha as [->|Ha]); try (by apply elem_of_nil in Ha).
      all: cbn in Hq; try (by apply elem_of_nil in Hq).
      all: left; repeat (apply elem_of_cons in Hq as [Hq|Hq]);
        [(eapply Hsafe; [exact Hq | eassumption]) | (eapply Hsafe; [exact Hq | eassumption]) | by apply elem_of_nil in Hq].
  - unfold postDelete in Ha. destruct (resolveSafePath env targetPath) as [safe|] eqn:E;
      [|by apply elem_of_nil in Ha].
    destruct (safe =? ROOT_DIR env); [by apply elem_of_nil in Ha|].
    cbn in Ha. destruct (disk _ _ (FsStat safe)) as [stats|m]; cbn in Ha.
    + destruct (st_isDirectory stats); cbn in Ha; destruct (disk _ _ _); cbn in Ha.
      all: repeat (apply elem_of_cons in Ha as [->|Ha]); try (by apply elem_of_nil in Ha).
      all: cbn in Hq; try (by apply elem_of_nil in Hq); apply list_elem_of_singleton in Hq.
      all: left; (eapply Hsafe; [exact Hq | eassumption]).
    + apply list_elem_of_singleton in Ha as ->. by apply elem_of_nil in Hq.
  - unfold postSave in Ha. destruct (resolveSafePath env filePath) as [safe|] eqn:E;
      [|by apply elem_of_nil in Ha].
    cbn in Ha. destruct (disk _ _ _); cbn in Ha; apply list_elem_of_singleton in Ha as ->;
      cbn in Hq; apply list_elem_of_singleton in Hq; left; (eapply Hsafe; [exact Hq | eassumption]).
Qed.

Lemma local_writes_start_with_root_witness :
  JS.startsWith "/home/user/docs/a.txt" (ROOT_DIR home_env) = true
  ∨ touch_parent home_env (LSave "docs/a.txt" "text")
      (Build_FsAsked (FsWriteFile "/home/user/docs/a.txt" "text")).
Proof.
  apply (local_writes_start_with_root home_env (LSave "docs/a.txt" "text") full_disk
           (Build_FsAsked (FsWriteFile "/home/user/docs/a.txt" "text"))
           "/home/user/docs/a.txt").
  - vm_compute. left.
  - vm_compute. left.
Defined.

(** ** The local listing *)

Lemma run_mapProg_localItem_world (env : Env) (safePath : string) (entries : list Dirent)
    (w : World) :
  files (run (mapProg (localItem env safePath) entries) w).2 = files w
  ∧ devicesFile (run (mapProg (localItem env safePath) entries) w).2 = devicesFile w.
Proof.
  revert w. induction entries as [|entry entries IH]; intros w; [done|].
  cbn [mapProg]. unfold mbind, Prog_bind. rewrite run_bind. cbv beta.
  rewrite run_bind. cbv beta. cbn [run mret Prog_ret snd].
  destruct (IH (run (localItem env safePath entry) w).2) as [-> ->].
  unfold localItem. by cbn.
Qed.

(** X28: the local listing only reads: the file system and the devices file
    are as before.  Its answer is 200, 400 or 500; in a 200 answer, unless
    [showHidden=true] was asked, no listed name starts with a dot. *)
Theorem local_listing_reads_only (rt : Runtime) (env : Env) (c : Request) (w : World) :
  files (run (getFiles rt env c) w).2 = files w
  ∧ devicesFile (run (getFiles rt env c) w).2 = devicesFile w
  ∧ status (run (getFiles rt env c) w).1 ∈ [200%N; 400%N; 500%N]
  ∧ (status (run (getFiles rt env c) w).1 = 200%N →
     ∃ l, (run (getFiles rt env c) w).1 = json (listing_json l) 200
          ∧ (searchParam c "showHidden" ≠ Some "true" →
             Forall (λ f, JS.startsWith (fi_name f) "." = false) (ls_files l))).
Proof.
  unfold getFiles. cbv zeta. destruct (resolveSafePath env _) as [safePath|].
  2:{ cbn. split_and!; [done | done | set_solver | done]. }
  unfold mbind, Prog_bind. rewrite run_bind.
  cbn [trigger run answer respond fst snd files with_state].
  destruct (files w !! safePath) as [st|].
  2:{ cbn. split_and!; [done | done | set_solver | done]. }
  destruct (st_isDirectory st); cbn [negb].
  2:{ cbn. split_and!; [done | done | set_solver | done]. }
  rewrite run_bind. cbn [trigger run answer respond fst snd files with_state readdir trace].
  destruct (readdir w _ safePath) as [entries|m].
  2:{ cbn. split_and!; [done | done | set_solver | done]. }
  rewrite run_bind, run_mapProg_localItem. cbn [run mret Prog_ret fst snd].
  match goal with
  | |- context [run (mapProg (localItem env safePath) ?es) ?w0] =>
      destruct (run_mapProg_localItem_world env safePath es w0) as [Hf Hd]
  end.
  rewrite Hf, Hd. cbn [files devicesFile with_state].
  split_and!; [done | done | cbn; set_solver |]. intros _. eexists. split; [reflexivity|].
  intros Hshow. cbn [ls_files]. rewrite bool_decide_eq_false_2 by done.
  apply Forall_forall. intros f Hf'. rewrite (sort_Permutation (compareItems rt)) in Hf'.
  apply elem_of_map in Hf' as (entry & -> & [_ Hv]%elem_of_List_filter).
  cbn in Hv. by apply negb_true_iff in Hv.
Qed.

(** ** Request bodies over SSH *)

(** X29: a write operation over SSH whose body cannot be read is answered
    502, with the reader's message after [SSH error: ], and nothing is sent
    to the device. *)
Theorem ssh_unreadable_body (rt : Runtime) (env : Env) (c : Request) (deviceId : string)
    (device : DeviceConfig) (message : string) (w : World) :
  deviceId ≠ "local" →
  List.find (has_id deviceId) (registry w) = Some device →
  dc_enabled device = true →
  JS.truthy_opt (dc_sshHost device) = true →
  routeSuffix c deviceId ∈ ["mkdir"; "touch"; "rename"; "delete"; "save"; "duplicate"] →
  method c = "POST" →
  (run (deviceRoute rt env c deviceId (Throw message)) w).1
    = json_error ("SSH error: " ++ message) 502
  ∧ List.filter is_remote (calls (deviceRoute rt env c deviceId (Throw message)) w) = [].
Proof.
  intros Hl Hfind Hen Hssh Hsuffix Hm. apply eqb_false_iff in Hl.
  change (post (deviceRoute rt env c deviceId (Throw message)) w (λ r _ cs,
    r = json_error ("SSH error: " ++ message) 502 ∧ List.filter is_remote cs = [])).
  unfold deviceRoute. rewrite Hl. apply post_bind, post_loadDevices.
  rewrite Hfind, Hen, Hssh. cbn [negb]. apply post_bind.
  unfold sshRoute. cbv zeta. rewrite Hm.
  repeat (apply elem_of_cons in Hsuffix as [->|Hsuffix]);
    [| | | | | |by apply elem_of_nil in Hsuffix].
  all: cbn [String.eqb Ascii.eqb Bool.eqb andb]; walk; by cbn.
Qed.

Lemma ssh_unreadable_body_witness :
  (run (deviceRoute sample_runtime home_env (plain_request "POST" "/api/d/macbook/mkdir")
          "macbook" (Throw "Unexpected end of JSON input"))
     (with_devices online [macbook])).1
  = json_error "SSH error: Unexpected end of JSON input" 502.
Proof.
  destruct (ssh_unreadable_body sample_runtime home_env
              (plain_request "POST" "/api/d/macbook/mkdir") "macbook" macbook
              "Unexpected end of JSON input" (with_devices online [macbook])) as [H _];
    [discriminate | reflexivity | reflexivity | reflexivity | vm_compute; left
     | reflexivity | exact H].
Defined.

(** ** The local search *)







(** The start directory is taken as it is given: a search that starts in
    [.git] finds what [.git] holds, while the search from the root passes
    [.git] over. *)
Example search_from_hidden_start :
  (run (getSearch sample_runtime home_env
          {| method := "GET"; path := "/api/search"; headers := ∅;
             query := [("q", "config"); ("path", ".git")] |}) home_tree).1
  = json (JObj [("results",
                 JArr [search_item_json
                         {| fi_name := "config"; fi_path := ".git/config";
                            fi_isDirectory := false; fi_icon := "file"; fi_size := 0;
                            fi_modified := None |}])]) 200
  ∧ (run (getSearch sample_runtime home_env (search_request "config")) home_tree).1
    = json (JObj [("results", JArr [])]) 200.
Proof. vm_compute. done. Qed.
